(** * Discord status server: the gateway session engine of [server.js]

    A shallow embedding of [src/server.js]: the [DiscordConnection] class,
    the in-memory tables [activeConnections] and [clientWebSockets], the HTTP
    endpoints under [/api] and the client notification socket.  The second
    variant of the server ([src/unnamed/part_000]) is the same program without
    [notifyClient], [startKeepAlive] and the client socket.

    Node runs every callback to completion on one thread, so the program is
    modelled as a transition function [step] taking the state of the process
    and one event of the event loop (an HTTP request, an event of a socket, a
    timer firing) to the next state.  Calls that leave the program
    ([ws.send], [ws.close], [setInterval], [clearInterval], [setTimeout],
    [res.json]) are appended to a log, in the order the code makes them.

    The lookup endpoint [/api/spotify-info] and the activity that the client
    script ([src/unnamed/part_001], [updateStatus]) composes from its form are
    functions of the reply of the remote endpoint. *)

From Stdlib Require Import ZArith String Ascii List Bool.
From stdpp Require Import base option list gmap strings.

Local Open Scope string_scope.
Local Open Scope list_scope.
Local Open Scope Z_scope.

(** ** Strings

    JavaScript strings are compared here only against ASCII prefixes and cut
    at the ASCII separators [/] and [:], which works the same on the bytes of
    a UTF-8 string as on UTF-16 code units. *)

(** [s.startsWith(p)] *)
Fixpoint startsWith (s p : string) {struct p} : bool :=
  match p with
  | EmptyString => true
  | String a p' =>
      match s with
      | EmptyString => false
      | String b s' => Ascii.eqb a b && startsWith s' p'
      end
  end.

(** [s.split(sep)] for a separator of one character: never empty. *)
Fixpoint split (sep : ascii) (s : string) : list string :=
  match s with
  | EmptyString => [EmptyString]
  | String ch rest =>
      if Ascii.eqb ch sep then EmptyString :: split sep rest
      else match split sep rest with
           | [] => [String ch EmptyString]
           | seg :: segs => String ch seg :: segs
           end
  end.

(** [arr.pop()]: the last element, [None] for [undefined]. *)
Definition pop (arr : list string) : option string := last arr.

(** Truthiness of a string-or-absent value: [undefined], [null] and the empty
    string are falsy. *)
Definition truthy (v : option string) : bool :=
  match v with
  | Some s => negb (String.eqb s "")
  | None => false
  end.

(** [function extractSpotifyImageId(url)] *)
Definition extractSpotifyImageId (url : option string) : option string :=
  match url with
  | None => None
  | Some u =>
      if negb (truthy url) then None
      else if startsWith u "https://i.scdn.co/image/" then pop (split "/" u)
      else if startsWith u "spotify:" then pop (split ":" u)
      else None
  end.

(** ** Activities and frames *)

(** The result of [parseInt]: an integer or [NaN]. *)
Inductive JsNumber := NaN | Num (z : Z).

(** The [activity] object of an update request, with the fields the client
    script sends: strings, any of which may be missing. *)
Record ActivityData := {
  name : option string;
  type : option string;
  details : option string;
  state : option string;
  imageUrl : option string;
  imageText : option string
}.

(** The [assets] object of an activity on the wire. *)
Record Assets := {
  large_image : option string;
  large_text : option string
}.

(** One entry of [activities] on the wire. *)
Record Activity := {
  a_name : option string;
  a_type : JsNumber;
  a_details : option string;
  a_state : option string;
  a_assets : Assets
}.

(** The [d] object of a presence update. *)
Record Presence := {
  since : Z;
  activities : list Activity;
  status : string;
  afk : bool
}.

(** The [properties] object of an identify frame. *)
Record Properties := {
  os : string;
  browser : string;
  device : string
}.

Inductive FrameData :=
  | DSequence (s : option Z)
  | DIdentify (token : string) (properties : Properties)
  | DPresence (p : Presence).

(** A frame handed to [JSON.stringify] and [ws.send]. *)
Record Frame := {
  op : Z;
  d : FrameData
}.

(** ** The state of the process *)

(** [ws.readyState] *)
Inductive ReadyState := CONNECTING | OPEN | CLOSING | CLOSED.

#[global] Instance ReadyState_eq_dec : EqDecision ReadyState.
Proof. solve_decision. Defined.

(** An object of [class DiscordConnection].  References to sockets and
    timers are numbers; [None] is [null]. *)
Record DiscordConnection := {
  token : string;
  sessionId : string;
  ws : option nat;
  heartbeatTask : option nat;
  lastSequence : option Z;
  heartbeatAcked : bool;
  shouldReconnect : bool;
  currentActivity : option ActivityData;
  keepAliveTask : option nat
}.

(** [constructor(token, sessionId)] *)
Definition newDiscordConnection (tok sid : string) : DiscordConnection :=
  {| token := tok; sessionId := sid; ws := None; heartbeatTask := None;
     lastSequence := None; heartbeatAcked := true; shouldReconnect := true;
     currentActivity := None; keepAliveTask := None |}.

(** A gateway socket made by one call of [connect()]: what the program reads
    of it ([readyState]) and the connection object its handlers close over.
    The promise of that call has the number of the socket. *)
Record WebSocket := {
  readyState : ReadyState;
  owner : nat
}.

Inductive PromiseState := Pending | Fulfilled | Rejected (message : option string).

Inductive TimerKind := HeartbeatTimer | KeepAliveTimer.

(** A timer started by [setInterval]: its callback closes over [this]. *)
Record Interval := {
  kind : TimerKind;
  timerOwner : nat;
  delay : Z
}.

(** A socket of the client notification server, with the variable
    [clientSessionId] of its handler. *)
Record ClientSocket := {
  clientReadyState : ReadyState;
  clientSessionId : option string
}.

(** Messages of the notification channel. *)
Inductive ClientMessage :=
  | hello
  | status_message (connected : option bool) (activity : option ActivityData)
  | discord_ready
  | discord_disconnected
  | status_updated (activity : option ActivityData)
  | session_ended.

(** Bodies given to [res.json]. [connected] is [None] when the expression
    [connection.ws && ...] is [null]; the outer [None] of [activity] in
    [StatusBody] is a body without the property [currentActivity]. *)
Inductive Body :=
  | ErrorBody (error : string) (message : option string)
  | ConnectBody (sid : string) (message : string)
  | SuccessBody (message : string)
  | StatusBody (connected : option bool) (activity : option (option ActivityData)).

Record Response := {
  statusCode : nat;
  body : Body
}.

(** Calls that leave the program, as the log records them. *)
Inductive Call :=
  | NewWebSocket (k : nat)
  | WsSend (k : nat) (f : Frame)
  | WsClose (k : nat)
  | SetInterval (h : nat) (t : TimerKind) (c : nat) (ms : Z)
  | ClearInterval (h : nat)
  | SetTimeout (c : nat) (ms : Z)
  | ClientSend (j : nat) (m : ClientMessage)
  | Respond (r : Response).

(** The process: the heap of connection objects, the sockets and timers of
    the runtime, the two tables of [server.js], the [/api/connect] handlers
    suspended at [await] (by promise: session id and connection), the pending
    [setTimeout] callbacks, a counter for fresh references and the log. *)
Record World := {
  conns : gmap nat DiscordConnection;
  sockets : gmap nat WebSocket;
  promises : gmap nat PromiseState;
  awaiting : gmap nat (string * nat);
  intervals : gmap nat Interval;
  timeouts : list (nat * Z);
  activeConnections : gmap string nat;
  clients : gmap nat ClientSocket;
  clientWebSockets : gmap string nat;
  next : nat;
  log : list Call
}.

Definition emptyWorld : World :=
  {| conns := ∅; sockets := ∅; promises := ∅; awaiting := ∅; intervals := ∅;
     timeouts := []; activeConnections := ∅; clients := ∅;
     clientWebSockets := ∅; next := 0%nat; log := [] |}.

(** Field updates. *)
Definition set_ws v (cn : DiscordConnection) :=
  {| token := token cn; sessionId := sessionId cn; ws := v;
     heartbeatTask := heartbeatTask cn; lastSequence := lastSequence cn;
     heartbeatAcked := heartbeatAcked cn; shouldReconnect := shouldReconnect cn;
     currentActivity := currentActivity cn; keepAliveTask := keepAliveTask cn |}.
Definition set_heartbeatTask v (cn : DiscordConnection) :=
  {| token := token cn; sessionId := sessionId cn; ws := ws cn;
     heartbeatTask := v; lastSequence := lastSequence cn;
     heartbeatAcked := heartbeatAcked cn; shouldReconnect := shouldReconnect cn;
     currentActivity := currentActivity cn; keepAliveTask := keepAliveTask cn |}.
Definition set_lastSequence v (cn : DiscordConnection) :=
  {| token := token cn; sessionId := sessionId cn; ws := ws cn;
     heartbeatTask := heartbeatTask cn; lastSequence := v;
     heartbeatAcked := heartbeatAcked cn; shouldReconnect := shouldReconnect cn;
     currentActivity := currentActivity cn; keepAliveTask := keepAliveTask cn |}.
Definition set_heartbeatAcked v (cn : DiscordConnection) :=
  {| token := token cn; sessionId := sessionId cn; ws := ws cn;
     heartbeatTask := heartbeatTask cn; lastSequence := lastSequence cn;
     heartbeatAcked := v; shouldReconnect := shouldReconnect cn;
     currentActivity := currentActivity cn; keepAliveTask := keepAliveTask cn |}.
Definition set_shouldReconnect v (cn : DiscordConnection) :=
  {| token := token cn; sessionId := sessionId cn; ws := ws cn;
     heartbeatTask := heartbeatTask cn; lastSequence := lastSequence cn;
     heartbeatAcked := heartbeatAcked cn; shouldReconnect := v;
     currentActivity := currentActivity cn; keepAliveTask := keepAliveTask cn |}.
Definition set_currentActivity v (cn : DiscordConnection) :=
  {| token := token cn; sessionId := sessionId cn; ws := ws cn;
     heartbeatTask := heartbeatTask cn; lastSequence := lastSequence cn;
     heartbeatAcked := heartbeatAcked cn; shouldReconnect := shouldReconnect cn;
     currentActivity := v; keepAliveTask := keepAliveTask cn |}.
Definition set_keepAliveTask v (cn : DiscordConnection) :=
  {| token := token cn; sessionId := sessionId cn; ws := ws cn;
     heartbeatTask := heartbeatTask cn; lastSequence := lastSequence cn;
     heartbeatAcked := heartbeatAcked cn; shouldReconnect := shouldReconnect cn;
     currentActivity := currentActivity cn; keepAliveTask := v |}.

Definition with_conns f (w : World) :=
  {| conns := f (conns w); sockets := sockets w; promises := promises w;
     awaiting := awaiting w; intervals := intervals w; timeouts := timeouts w;
     activeConnections := activeConnections w; clients := clients w;
     clientWebSockets := clientWebSockets w; next := next w; log := log w |}.
Definition with_sockets f (w : World) :=
  {| conns := conns w; sockets := f (sockets w); promises := promises w;
     awaiting := awaiting w; intervals := intervals w; timeouts := timeouts w;
     activeConnections := activeConnections w; clients := clients w;
     clientWebSockets := clientWebSockets w; next := next w; log := log w |}.
Definition with_promises f (w : World) :=
  {| conns := conns w; sockets := sockets w; promises := f (promises w);
     awaiting := awaiting w; intervals := intervals w; timeouts := timeouts w;
     activeConnections := activeConnections w; clients := clients w;
     clientWebSockets := clientWebSockets w; next := next w; log := log w |}.
Definition with_awaiting f (w : World) :=
  {| conns := conns w; sockets := sockets w; promises := promises w;
     awaiting := f (awaiting w); intervals := intervals w; timeouts := timeouts w;
     activeConnections := activeConnections w; clients := clients w;
     clientWebSockets := clientWebSockets w; next := next w; log := log w |}.
Definition with_intervals f (w : World) :=
  {| conns := conns w; sockets := sockets w; promises := promises w;
     awaiting := awaiting w; intervals := f (intervals w); timeouts := timeouts w;
     activeConnections := activeConnections w; clients := clients w;
     clientWebSockets := clientWebSockets w; next := next w; log := log w |}.
Definition with_timeouts f (w : World) :=
  {| conns := conns w; sockets := sockets w; promises := promises w;
     awaiting := awaiting w; intervals := intervals w; timeouts := f (timeouts w);
     activeConnections := activeConnections w; clients := clients w;
     clientWebSockets := clientWebSockets w; next := next w; log := log w |}.
Definition with_activeConnections f (w : World) :=
  {| conns := conns w; sockets := sockets w; promises := promises w;
     awaiting := awaiting w; intervals := intervals w; timeouts := timeouts w;
     activeConnections := f (activeConnections w); clients := clients w;
     clientWebSockets := clientWebSockets w; next := next w; log := log w |}.
Definition with_clients f (w : World) :=
  {| conns := conns w; sockets := sockets w; promises := promises w;
     awaiting := awaiting w; intervals := intervals w; timeouts := timeouts w;
     activeConnections := activeConnections w; clients := f (clients w);
     clientWebSockets := clientWebSockets w; next := next w; log := log w |}.
Definition with_clientWebSockets f (w : World) :=
  {| conns := conns w; sockets := sockets w; promises := promises w;
     awaiting := awaiting w; intervals := intervals w; timeouts := timeouts w;
     activeConnections := activeConnections w; clients := clients w;
     clientWebSockets := f (clientWebSockets w); next := next w; log := log w |}.
Definition with_next f (w : World) :=
  {| conns := conns w; sockets := sockets w; promises := promises w;
     awaiting := awaiting w; intervals := intervals w; timeouts := timeouts w;
     activeConnections := activeConnections w; clients := clients w;
     clientWebSockets := clientWebSockets w; next := f (next w); log := log w |}.
Definition with_log f (w : World) :=
  {| conns := conns w; sockets := sockets w; promises := promises w;
     awaiting := awaiting w; intervals := intervals w; timeouts := timeouts w;
     activeConnections := activeConnections w; clients := clients w;
     clientWebSockets := clientWebSockets w; next := next w; log := f (log w) |}.

(** One call is made: it goes to the end of the log. *)
Definition call (c : Call) : World -> World := with_log (fun l => l ++ [c]).

(** [this.field = v] on the connection object [c]. *)
Definition assign (c : nat) (f : DiscordConnection -> DiscordConnection)
  : World -> World := with_conns (alter f c).

(** ** The runtime and the [ws] library, as far as the program sees them *)

(** [ws.close()]: an open or connecting socket starts closing, a closed one
    stays closed; the [close] event comes later, from the event loop. *)
Definition closing (s : WebSocket) : WebSocket :=
  {| readyState := match readyState s with CLOSED => CLOSED | _ => CLOSING end;
     owner := owner s |}.

Definition ws_close (k : nat) (w : World) : World :=
  call (WsClose k) (with_sockets (alter closing k) w).

(** [ws.send(JSON.stringify(f))] *)
Definition ws_send (k : nat) (f : Frame) : World -> World := call (WsSend k f).

(** [ws.readyState === WebSocket.OPEN] for the socket [k]. *)
Definition isOpen (k : nat) (w : World) : bool :=
  match sockets w !! k with
  | Some s => bool_decide (readyState s = OPEN)
  | None => false
  end.

(** [this.ws && this.ws.readyState === WebSocket.OPEN] as a condition. *)
Definition connected (c : nat) (w : World) : bool :=
  match conns w !! c with
  | Some cn => match ws cn with Some k => isOpen k w | None => false end
  | None => false
  end.

(** [setInterval(callback, ms)]: a fresh handle. *)
Definition setInterval (t : TimerKind) (c : nat) (ms : Z) (w : World) : nat * World :=
  let h := next w in
  (h, call (SetInterval h t c ms)
        (with_intervals (insert h {| kind := t; timerOwner := c; delay := ms |})
           (with_next S w))).

(** [clearInterval(h)] *)
Definition clearInterval (h : nat) (w : World) : World :=
  call (ClearInterval h) (with_intervals (delete h) w).

(** [setTimeout(() => this.connect(), ms)] *)
Definition setTimeout (c : nat) (ms : Z) (w : World) : World :=
  call (SetTimeout c ms) (with_timeouts (fun l => l ++ [(c, ms)]) w).

(** [function notifyClient(sessionId, data)] *)
Definition notifyClient (sid : string) (data : ClientMessage) (w : World) : World :=
  match clientWebSockets w !! sid with
  | Some j =>
      match clients w !! j with
      | Some cs =>
          if bool_decide (clientReadyState cs = OPEN) then call (ClientSend j data) w
          else w
      | None => w
      end
  | None => w
  end.

(** An inbound gateway frame after [JSON.parse]: [op], [d.heartbeat_interval]
    (read for op 10 only), [s] and [t]; [None] is [null] or a missing key. *)
Record Payload := {
  p_op : Z;
  heartbeat_interval : Z;
  p_s : option Z;
  p_t : option string
}.

(** Truthiness of a number-or-absent value: [null] and [0] are falsy. *)
Definition truthyNumber (v : option Z) : bool :=
  match v with
  | Some z => negb (z =? 0)
  | None => false
  end.

(** How a call of a method ends. *)
Inductive Completion := Returned | Thrown.

(** Events of the event loop.  The session id of [PostConnect] is the
    outcome of [Math.random().toString(36).substring(7)]; a missing field of
    a request body is [None]. *)
Inductive Event :=
  | PostConnect (tok : option string) (sid : string)
  | PostUpdateStatus (sid : option string) (activity : option ActivityData)
  | PostDisconnect (sid : option string)
  | GetStatus (sid : string)
  | GatewayOpen (k : nat)
  | GatewayMessage (k : nat) (payload : Payload)
  | GatewayClose (k : nat)
  | GatewayError (k : nat) (message : option string)
  | IntervalFires (h : nat)
  | TimeoutFires (i : nat)
  | ClientConnection
  | ClientSays (j : nat) (ty : string) (sid : string)
  | ClientClose (j : nat).

Section Gateway.

(** [parseInt] is the built-in of the JavaScript runtime; the development
    holds for any function in its place. *)
Variable parseInt : option string -> JsNumber.

(** The activity built in [updatePresence] (the block under
    [if (activityData.name)]). *)
Definition buildAssets (activityData : ActivityData) : Assets :=
  if truthy (imageUrl activityData) then
    let imageId := extractSpotifyImageId (imageUrl activityData) in
    {| large_image :=
         if truthy imageId then Some ("spotify:" +:+ default "" imageId)
         else None;
       large_text :=
         if truthy (imageText activityData) then imageText activityData
         else None |}
  else {| large_image := None; large_text := None |}.

Definition buildActivity (activityData : ActivityData) : option Activity :=
  if truthy (name activityData) then
    Some {| a_name := name activityData;
            a_type := parseInt (type activityData);
            a_details := details activityData;
            a_state := state activityData;
            a_assets := buildAssets activityData |}
  else None.

(** [presenceUpdate] of [updatePresence]. *)
Definition presenceUpdate (activityData : ActivityData) : Frame :=
  {| op := 3;
     d := DPresence
            {| since := 0;
               activities := match buildActivity activityData with
                             | Some activity => [activity]
                             | None => []
                             end;
               status := "online";
               afk := false |} |}.

(** [presenceUpdate] of the timer of [startKeepAlive], which reads
    [this.currentActivity] and copies the image fields as they are. *)
Definition keepAlivePresence (currentActivity : option ActivityData) : Frame :=
  {| op := 3;
     d := DPresence
            {| since := 0;
               activities :=
                 match currentActivity with
                 | Some a =>
                     if truthy (name a) then
                       [ {| a_name := name a;
                            a_type := parseInt (type a);
                            a_details := details a;
                            a_state := state a;
                            a_assets :=
                              if truthy (imageUrl a) then
                                {| large_image := imageUrl a;
                                   large_text := imageText a |}
                              else {| large_image := None; large_text := None |}
                         |} ]
                     else []
                 | None => []
                 end;
               status := "online";
               afk := false |} |}.

(** ** The methods of [DiscordConnection]

    A method takes the reference [c] of its [this].  Every caller holds the
    object, so the branch for a reference without an object is never taken;
    it leaves the world as it is. *)

(** [cleanup()] *)
Definition cleanup (c : nat) (w : World) : World :=
  match conns w !! c with
  | None => w
  | Some cn =>
      let w1 := match heartbeatTask cn with
                | Some h => assign c (set_heartbeatTask None) (clearInterval h w)
                | None => w
                end in
      match keepAliveTask cn with
      | Some h => assign c (set_keepAliveTask None) (clearInterval h w1)
      | None => w1
      end
  end.

(** [connect()]: a new socket and a new promise, both numbered [k]. *)
Definition connect (c : nat) (w : World) : nat * World :=
  let k := next w in
  (k, assign c (set_ws (Some k))
        (call (NewWebSocket k)
           (with_promises (insert k Pending)
              (with_sockets (insert k {| readyState := CONNECTING; owner := c |})
                 (with_next S w))))).

(** [resolve(...)] and [reject(...)] of the promise [k]: the first one
    settles it, later ones do nothing. *)
Definition settle (k : nat) (st : PromiseState) (w : World) : World :=
  match promises w !! k with
  | Some Pending => with_promises (insert k st) w
  | _ => w
  end.

(** [updatePresence(activityData)].  With an open socket and no activity
    object, [activityData.name] throws a [TypeError]. *)
Definition updatePresence (c : nat) (activityData : option ActivityData) (w : World)
  : Completion * World :=
  let w1 := assign c (set_currentActivity activityData) w in
  match conns w1 !! c with
  | None => (Returned, w1)
  | Some cn =>
      if negb (connected c w1) then (Returned, w1)
      else
        match activityData, ws cn with
        | None, _ => (Thrown, w1)
        | Some a, Some k =>
            (Returned,
             notifyClient (sessionId cn) (status_updated (currentActivity cn))
               (ws_send k (presenceUpdate a) w1))
        | Some a, None => (Returned, w1)
        end
  end.

(** [startKeepAlive()] *)
Definition startKeepAlive (c : nat) (w : World) : World :=
  match conns w !! c with
  | None => w
  | Some cn =>
      let w1 := match keepAliveTask cn with
                | Some h => clearInterval h w
                | None => w
                end in
      let (h, w2) := setInterval KeepAliveTimer c (60 * 1000) w1 in
      assign c (set_keepAliveTask (Some h)) w2
  end.

(** The callback of the heartbeat timer set in [handleMessage]. *)
Definition heartbeatTick (c : nat) (w : World) : World :=
  match conns w !! c with
  | None => w
  | Some cn =>
      if negb (heartbeatAcked cn) then
        match ws cn with
        | Some k => ws_close k w
        | None => w
        end
      else if connected c w then
        match ws cn with
        | Some k =>
            ws_send k {| op := 1; d := DSequence (lastSequence cn) |}
              (assign c (set_heartbeatAcked false) w)
        | None => w
        end
      else w
  end.

(** The callback of the timer set in [startKeepAlive]. *)
Definition keepAliveTick (c : nat) (w : World) : World :=
  match conns w !! c with
  | None => w
  | Some cn =>
      if connected c w then
        match ws cn with
        | Some k => ws_send k (keepAlivePresence (currentActivity cn)) w
        | None => w
        end
      else w
  end.

Definition identify (tok : string) : Frame :=
  {| op := 2;
     d := DIdentify tok {| os := "Windows"; browser := "Chrome"; device := "" |} |}.

(** [handleMessage(payload, resolve, reject)], where [resolve] belongs to the
    promise [k] of the socket that received the frame. *)
Definition handleMessage (c k : nat) (payload : Payload) (w : World) : World :=
  let w0 := if truthyNumber (p_s payload)
            then assign c (set_lastSequence (p_s payload)) w else w in
  match conns w0 !! c with
  | None => w0
  | Some cn =>
      if p_op payload =? 10 then
        let w1 := assign c (set_heartbeatAcked true) w0 in
        let (h, w2) := setInterval HeartbeatTimer c (heartbeat_interval payload) w1 in
        let w3 := assign c (set_heartbeatTask (Some h)) w2 in
        match ws cn with
        | Some k' => ws_send k' (identify (token cn)) w3
        | None => w3
        end
      else if p_op payload =? 11 then assign c (set_heartbeatAcked true) w0
      else if p_op payload =? 0 then
        if bool_decide (p_t payload = Some "READY") then
          let w1 := notifyClient (sessionId cn) discord_ready w0 in
          let w2 := startKeepAlive c w1 in
          let w3 := settle k Fulfilled w2 in
          match currentActivity cn with
          | Some a => snd (updatePresence c (Some a) w3)
          | None => w3
          end
        else w0
      else if p_op payload =? 7 then
        match ws cn with
        | Some k' => ws_close k' w0
        | None => w0
        end
      else w0
  end.

(** The handler of the socket's [close] event. *)
Definition onClose (c : nat) (w : World) : World :=
  let w1 := cleanup c w in
  match conns w1 !! c with
  | None => w1
  | Some cn =>
      let w2 := notifyClient (sessionId cn) discord_disconnected w1 in
      if shouldReconnect cn then setTimeout c 5000 w2 else w2
  end.

(** [disconnect()] *)
Definition disconnect (c : nat) (w : World) : World :=
  let w1 := assign c (set_currentActivity None) (assign c (set_shouldReconnect false) w) in
  match conns w1 !! c with
  | None => w1
  | Some cn =>
      let w2 := match ws cn with
                | Some k => ws_close k w1
                | None => w1
                end in
      notifyClient (sessionId cn) session_ended (cleanup c w2)
  end.

(** ** The endpoints *)

Definition respond (code : nat) (b : Body) : World -> World :=
  call (Respond {| statusCode := code; body := b |}).

(** [app.post('/api/connect')] up to its [await]. *)
Definition postConnect (tok : option string) (sid : string) (w : World) : World :=
  match tok with
  | Some t =>
      if negb (truthy tok) then respond 400 (ErrorBody "Token is required" None) w
      else
        let c := next w in
        let w1 := with_conns (insert c (newDiscordConnection t sid)) (with_next S w) in
        let (k, w2) := connect c w1 in
        with_awaiting (insert k (sid, c)) w2
  | None => respond 400 (ErrorBody "Token is required" None) w
  end.

(** The rest of [app.post('/api/connect')], run once the promise [k] it
    awaits is settled. *)
Definition resume (k : nat) (w : World) : World :=
  match awaiting w !! k, promises w !! k with
  | Some (sid, c), Some Fulfilled =>
      respond 200 (ConnectBody sid "Connected to Discord Gateway")
        (with_activeConnections (insert sid c) (with_awaiting (delete k) w))
  | Some (sid, c), Some (Rejected msg) =>
      respond 500 (ErrorBody "Failed to connect to Discord" msg)
        (with_awaiting (delete k) w)
  | _, _ => w
  end.

(** The message of the [TypeError] that V8 raises for [activityData.name]
    when [activityData] is [undefined]. *)
Definition typeErrorMessage : string :=
  "Cannot read properties of undefined (reading 'name')".

(** [app.post('/api/update-status')] *)
Definition postUpdateStatus (sid : option string) (activity : option ActivityData)
    (w : World) : World :=
  match sid with
  | Some id =>
      if negb (truthy sid) then respond 400 (ErrorBody "Session ID is required" None) w
      else
        match activeConnections w !! id with
        | None => respond 404 (ErrorBody "Session not found" None) w
        | Some c =>
            match updatePresence c activity w with
            | (Returned, w1) => respond 200 (SuccessBody "Status updated successfully") w1
            | (Thrown, w1) =>
                respond 500 (ErrorBody "Failed to update status" (Some typeErrorMessage)) w1
            end
        end
  | None => respond 400 (ErrorBody "Session ID is required" None) w
  end.

(** [app.post('/api/disconnect')] *)
Definition postDisconnect (sid : option string) (w : World) : World :=
  match sid with
  | Some id =>
      if negb (truthy sid) then respond 400 (ErrorBody "Session ID is required" None) w
      else
        match activeConnections w !! id with
        | None => respond 404 (ErrorBody "Session not found" None) w
        | Some c =>
            respond 200 (SuccessBody "Disconnected successfully")
              (with_activeConnections (delete id) (disconnect c w))
        end
  | None => respond 400 (ErrorBody "Session ID is required" None) w
  end.

(** [connection.ws && connection.ws.readyState === WebSocket.OPEN] as a
    value. *)
Definition connectedValue (cn : DiscordConnection) (w : World) : option bool :=
  match ws cn with
  | Some k => Some (isOpen k w)
  | None => None
  end.

(** [app.get('/api/status/:sessionId')] *)
Definition getStatus (sid : string) (w : World) : World :=
  match activeConnections w !! sid with
  | None => respond 200 (StatusBody (Some false) None) w
  | Some c =>
      match conns w !! c with
      | Some cn => respond 200 (StatusBody (connectedValue cn w) (Some (currentActivity cn))) w
      | None => w
      end
  end.

(** ** The client notification socket ([wss.on('connection')]) *)

Definition clientConnection (w : World) : World :=
  let j := next w in
  call (ClientSend j hello)
    (with_clients (insert j {| clientReadyState := OPEN; clientSessionId := None |})
       (with_next S w)).

Definition clientSays (j : nat) (ty sid : string) (w : World) : World :=
  match clients w !! j with
  | None => w
  | Some cs =>
      if bool_decide (ty = "register") then
        let w1 := with_clientWebSockets (insert sid j)
                    (with_clients
                       (insert j {| clientReadyState := clientReadyState cs;
                                    clientSessionId := Some sid |}) w) in
        match activeConnections w1 !! sid with
        | Some c =>
            match conns w1 !! c with
            | Some cn =>
                call (ClientSend j (status_message (connectedValue cn w1)
                                      (currentActivity cn))) w1
            | None => w1
            end
        | None => w1
        end
      else w
  end.

Definition clientClose (j : nat) (w : World) : World :=
  match clients w !! j with
  | None => w
  | Some cs =>
      let w1 := with_clients
                  (insert j {| clientReadyState := CLOSED;
                               clientSessionId := clientSessionId cs |}) w in
      match clientSessionId cs with
      | Some sid => if truthy (Some sid) then with_clientWebSockets (delete sid) w1 else w1
      | None => w1
      end
  end.

(** ** The event loop

    For an event of a gateway socket the [ws] library first moves
    [readyState] ([open]: a connecting socket is open; [error]: the socket is
    closing; [close]: the socket is closed) and then runs the handler that
    [connect()] attached.  A settled promise resumes the endpoint awaiting it
    once the handler has returned. *)
Definition step (w : World) (e : Event) : World :=
  match e with
  | PostConnect tok sid => postConnect tok sid w
  | PostUpdateStatus sid activity => postUpdateStatus sid activity w
  | PostDisconnect sid => postDisconnect sid w
  | GetStatus sid => getStatus sid w
  | GatewayOpen k =>
      with_sockets
        (alter (fun s => {| readyState := match readyState s with
                                          | CONNECTING => OPEN
                                          | r => r
                                          end;
                            owner := owner s |}) k) w
  | GatewayMessage k payload =>
      match sockets w !! k with
      | Some s => resume k (handleMessage (owner s) k payload w)
      | None => w
      end
  | GatewayClose k =>
      match sockets w !! k with
      | Some s =>
          onClose (owner s)
            (with_sockets (insert k {| readyState := CLOSED; owner := owner s |}) w)
      | None => w
      end
  | GatewayError k message =>
      match sockets w !! k with
      | Some s =>
          resume k (settle k (Rejected message) (with_sockets (alter closing k) w))
      | None => w
      end
  | IntervalFires h =>
      match intervals w !! h with
      | Some iv =>
          match kind iv with
          | HeartbeatTimer => heartbeatTick (timerOwner iv) w
          | KeepAliveTimer => keepAliveTick (timerOwner iv) w
          end
      | None => w
      end
  | TimeoutFires i =>
      match timeouts w !! i with
      | Some (c, _) => snd (connect c (with_timeouts (delete i) w))
      | None => w
      end
  | ClientConnection => clientConnection w
  | ClientSays j ty sid => clientSays j ty sid w
  | ClientClose j => clientClose j w
  end.

(** A run of the event loop. *)
Definition run (w : World) (es : list Event) : World := foldl step w es.

End Gateway.

(** ** Notions used in the statements *)

(** [sep] does not occur in [s]. *)
Fixpoint lacks (sep : ascii) (s : string) : bool :=
  match s with
  | EmptyString => true
  | String ch rest => negb (Ascii.eqb ch sep) && lacks sep rest
  end.

(** The two prefixes [extractSpotifyImageId] tests for. *)
Definition cdnPrefix : string := "https://i.scdn.co/image/".
Definition uriPrefix : string := "spotify:".

(** The frame that clears the presence. *)
Definition clearPresence : Frame :=
  {| op := 3;
     d := DPresence {| since := 0; activities := []; status := "online"; afk := false |} |}.

(** The frames handed to [ws.send] in a log, with their sockets. *)
Definition sentFrames (l : list Call) : list (nat * Frame) :=
  omap (fun c => match c with WsSend k f => Some (k, f) | _ => None end) l.

(** The sends [notifyClient] makes: one to the subscriber of the session when
    it has one whose socket is open, none otherwise. *)
Definition deliveries (sid : string) (data : ClientMessage) (w : World) : list Call :=
  match clientWebSockets w !! sid with
  | Some j =>
      match clients w !! j with
      | Some cs =>
          if bool_decide (clientReadyState cs = OPEN) then [ClientSend j data] else []
      | None => []
      end
  | None => []
  end.

(** The connection object after [cleanup()], and the calls [cleanup()] makes
    on it. *)
Definition cleaned (cn : DiscordConnection) : DiscordConnection :=
  set_keepAliveTask None (set_heartbeatTask None cn).

Definition clears (cn : DiscordConnection) : list Call :=
  match heartbeatTask cn with Some h => [ClearInterval h] | None => [] end ++
  match keepAliveTask cn with Some h => [ClearInterval h] | None => [] end.

(** The connection object after [disconnect()], and the call [disconnect()]
    makes on its socket. *)
Definition ended (cn : DiscordConnection) : DiscordConnection :=
  cleaned (set_currentActivity None (set_shouldReconnect false cn)).

Definition closes (cn : DiscordConnection) : list Call :=
  match ws cn with Some k => [WsClose k] | None => [] end.

(** The timers without the one of the handle [h], if there is a handle. *)
Definition forget (h : option nat) (m : gmap nat Interval) : gmap nat Interval :=
  match h with Some i => delete i m | None => m end.

(** The world in which [handleMessage] runs its [switch]. *)
Definition sequenced (c : nat) (payload : Payload) (w : World) : World :=
  if truthyNumber (p_s payload) then assign c (set_lastSequence (p_s payload)) w else w.

(** [settle] on the table of promises. *)
Definition settleMap (k : nat) (st : PromiseState) (m : gmap nat PromiseState)
  : gmap nat PromiseState :=
  match m !! k with
  | Some Pending => <[k := st]> m
  | _ => m
  end.

(** Events that come from the gateway sockets and the timers, not from a
    request or a client. *)
Definition fromRuntime (e : Event) : bool :=
  match e with
  | GatewayOpen _ | GatewayMessage _ _ | GatewayClose _ | GatewayError _ _
  | IntervalFires _ | TimeoutFires _ => true
  | _ => false
  end.

(** Every endpoint suspended at [await] waits for a promise that is still
    pending. *)
Definition awaitsPending (w : World) : Prop :=
  forall k x, awaiting w !! k = Some x -> promises w !! k = Some Pending.

(** [b] is not an earlier sequence number than [a]. *)
Definition notBefore (a b : option Z) : Prop :=
  match a, b with
  | Some m, Some n => m <= n
  | None, _ => True
  | Some _, None => False
  end.

(** A projection of the connection object that the assignments to the
    volatile fields do not change. *)
Class Stable {A} (proj : DiscordConnection -> A) : Prop := {
  stable_ws : forall v cn, proj (set_ws v cn) = proj cn;
  stable_heartbeatTask : forall v cn, proj (set_heartbeatTask v cn) = proj cn;
  stable_heartbeatAcked : forall v cn, proj (set_heartbeatAcked v cn) = proj cn;
  stable_currentActivity : forall v cn, proj (set_currentActivity v cn) = proj cn;
  stable_keepAliveTask : forall v cn, proj (set_keepAliveTask v cn) = proj cn
}.

#[global] Instance shouldReconnect_stable : Stable shouldReconnect.
Proof. split; reflexivity. Qed.
#[global] Instance lastSequence_stable : Stable lastSequence.
Proof. split; reflexivity. Qed.

(** Every connection object of [w] is still there in [w'], with the same
    value of [proj]. *)
Definition keeps {A} (proj : DiscordConnection -> A) (w w' : World) : Prop :=
  forall c cn, conns w !! c = Some cn ->
    exists cn', conns w' !! c = Some cn' /\ proj cn' = proj cn.

(** [w'] has the promises, the suspended requests and the registry of [w],
    and keeps [proj]. *)
Definition steady {A} (proj : DiscordConnection -> A) (w w' : World) : Prop :=
  promises w' = promises w /\ awaiting w' = awaiting w /\
  activeConnections w' = activeConnections w /\ keeps proj w w'.

(** ** Sample runs *)

(** An instance of [parseInt] for evaluating runs: the value of a string of
    decimal digits, [NaN] for anything else. *)
Fixpoint digitsValue (acc : Z) (s : string) : option Z :=
  match s with
  | EmptyString => Some acc
  | String ch rest =>
      let n := Z.of_nat (nat_of_ascii ch) in
      if (48 <=? n) && (n <=? 57) then digitsValue (10 * acc + (n - 48)) rest
      else None
  end.

Definition parseDigits (v : option string) : JsNumber :=
  match v with
  | Some (String ch rest) =>
      match digitsValue 0 (String ch rest) with
      | Some z => Num z
      | None => NaN
      end
  | _ => NaN
  end.

(** Frames of the gateway: hello with its interval, the READY dispatch, any
    other dispatch, the reconnect request. *)
Definition helloFrame : Payload :=
  {| p_op := 10; heartbeat_interval := 41250; p_s := None; p_t := None |}.
Definition readyFrame (n : Z) : Payload :=
  {| p_op := 0; heartbeat_interval := 0; p_s := Some n; p_t := Some "READY" |}.
Definition dispatchFrame (n : Z) : Payload :=
  {| p_op := 0; heartbeat_interval := 0; p_s := Some n; p_t := Some "MESSAGE_CREATE" |}.
Definition reconnectFrame : Payload :=
  {| p_op := 7; heartbeat_interval := 0; p_s := None; p_t := None |}.

(** Two activities: one without artwork, one with an artwork reference that
    is neither a CDN URL nor a prefixed reference. *)
Definition songA : ActivityData :=
  {| name := Some "Song A"; type := Some "2"; details := None;
     state := Some "by Artist"; imageUrl := None; imageText := None |}.

Definition coverArt : ActivityData :=
  {| name := Some "Song A"; type := Some "2"; details := None;
     state := Some "by Artist"; imageUrl := Some "cover.png";
     imageText := Some "Cover" |}.

(** A session is being created: the socket 1 of connection 0 is connecting. *)
Definition connectingWorld : World :=
  run parseDigits emptyWorld [PostConnect (Some "tok") "s1"].

(** ... its socket is open and has said hello (heartbeat timer 2) ... *)
Definition identifiedWorld : World :=
  run parseDigits emptyWorld
    [PostConnect (Some "tok") "s1"; GatewayOpen 1; GatewayMessage 1 helloFrame].

(** ... and the session has reached READY (keep-alive timer 3) and is
    registered. *)
Definition readyWorld : World :=
  run parseDigits emptyWorld
    [PostConnect (Some "tok") "s1"; GatewayOpen 1; GatewayMessage 1 helloFrame;
     GatewayMessage 1 (readyFrame 1)].

Definition heartbeatTimer : Interval :=
  {| kind := HeartbeatTimer; timerOwner := 0; delay := 41250 |}.

Definition readyConnection : DiscordConnection :=
  {| token := "tok"; sessionId := "s1"; ws := Some 1%nat; heartbeatTask := Some 2%nat;
     lastSequence := Some 1; heartbeatAcked := true; shouldReconnect := true;
     currentActivity := None; keepAliveTask := Some 3%nat |}.

(** A client subscribes to the session on socket 4. *)
Definition subscribedWorld : World :=
  run parseDigits readyWorld [ClientConnection; ClientSays 4 "register" "s1"].

(** The heartbeat timer has fired once, and no acknowledgement has come. *)
Definition tickedWorld : World := run parseDigits readyWorld [IntervalFires 2].

Definition tickedConnection : DiscordConnection :=
  {| token := "tok"; sessionId := "s1"; ws := Some 1%nat; heartbeatTask := Some 2%nat;
     lastSequence := Some 1; heartbeatAcked := false; shouldReconnect := true;
     currentActivity := None; keepAliveTask := Some 3%nat |}.

(** The gateway has asked for a reconnect: the socket is closing. *)
Definition closingWorld : World :=
  run parseDigits readyWorld [GatewayMessage 1 reconnectFrame].

(** The socket of the session has closed. *)
Definition droppedWorld : World := run parseDigits readyWorld [GatewayClose 1].

Definition droppedConnection : DiscordConnection :=
  {| token := "tok"; sessionId := "s1"; ws := Some 1%nat; heartbeatTask := None;
     lastSequence := Some 1; heartbeatAcked := true; shouldReconnect := true;
     currentActivity := None; keepAliveTask := None |}.

(** After the drop an activity is stored, the reconnect timer fires and the
    new socket 4 is open and has said hello. *)
Definition reconnectedWorld : World :=
  run parseDigits droppedWorld
    [PostUpdateStatus (Some "s1") (Some songA); TimeoutFires 0; GatewayOpen 4;
     GatewayMessage 4 helloFrame].


(** The session has received the dispatch number 5, its socket has dropped,
    and the new socket 4 is open and has said hello. *)
Definition resumedWorld : World :=
  run parseDigits readyWorld
    [GatewayMessage 1 (dispatchFrame 5); GatewayClose 1; TimeoutFires 0; GatewayOpen 4;
     GatewayMessage 4 helloFrame].

(** The session loses its socket and is disconnected while the reconnect
    timer is pending; the timer fires all the same. *)
Definition orphanWorld : World :=
  run parseDigits readyWorld
    [GatewayClose 1; PostDisconnect (Some "s1"); TimeoutFires 0; GatewayOpen 4;
     GatewayMessage 4 helloFrame; GatewayMessage 4 (readyFrame 1)].

(** ** The shutdown handler *)


(** ** More sample runs *)

(** A heartbeat acknowledgement. *)
Definition ackFrame : Payload :=
  {| p_op := 11; heartbeat_interval := 0; p_s := None; p_t := None |}.

Definition identifiedConnection : DiscordConnection :=
  {| token := "tok"; sessionId := "s1"; ws := Some 1%nat; heartbeatTask := Some 2%nat;
     lastSequence := None; heartbeatAcked := true; shouldReconnect := true;
     currentActivity := None; keepAliveTask := None |}.


(** Two clients subscribe to the session one after the other, on the sockets
    4 and 5. *)
Definition secondClientWorld : World :=
  run parseDigits subscribedWorld [ClientConnection].

Definition resubscribedWorld : World :=
  step parseDigits secondClientWorld (ClientSays 5 "register" "s1").

(** The socket of a session being created fails and closes, and the
    reconnect timer fires. *)
Definition failedWorld : World :=
  run parseDigits connectingWorld
    [GatewayError 1 (Some "ECONNREFUSED"); GatewayClose 1; TimeoutFires 0].

(** The session has been disconnected through the endpoint. *)
Definition endedWorld : World :=
  run parseDigits emptyWorld
    [PostConnect (Some "tok") "s1"; GatewayOpen 1; GatewayMessage 1 helloFrame;
     GatewayMessage 1 (readyFrame 1); PostDisconnect (Some "s1")].

Definition endedConnection : DiscordConnection :=
  {| token := "tok"; sessionId := "s1"; ws := Some 1%nat; heartbeatTask := None;
     lastSequence := Some 1; heartbeatAcked := true; shouldReconnect := false;
     currentActivity := None; keepAliveTask := None |}.

(** A second session is being created under the id of the first: its
    connection 4 has the socket 5, which is open and has said hello. *)
Definition collidingWorld : World :=
  run parseDigits readyWorld
    [PostConnect (Some "tok2") "s1"; GatewayOpen 5; GatewayMessage 5 helloFrame].

Definition collidingConnection : DiscordConnection :=
  {| token := "tok2"; sessionId := "s1"; ws := Some 5%nat; heartbeatTask := Some 6%nat;
     lastSequence := None; heartbeatAcked := true; shouldReconnect := true;
     currentActivity := None; keepAliveTask := None |}.


Definition cdnArt : ActivityData :=
  {| name := Some "Song A"; type := Some "2"; details := Some "";
     state := Some "by Artist"; imageUrl := Some "https://i.scdn.co/image/ab67616d";
     imageText := Some "Song A" |}.



(** The [activities] of a presence frame, none for any other frame. *)
Definition activities_of (f : Frame) : list Activity :=
  match d f with
  | DPresence p => activities p
  | _ => []
  end.


(** ** Notions for the runs of the server *)

(** An assignment to a field that leaves the credential and the session id
    alone and does not enable reconnecting. *)
Definition fieldUpdate (f : DiscordConnection -> DiscordConnection) : Prop :=
  forall cn, token (f cn) = token cn /\ sessionId (f cn) = sessionId cn /\
             (shouldReconnect (f cn) = true -> shouldReconnect cn = true).

(** From [w] to [w'] no reference is taken back, every connection object
    stays, with its credential and its session id and without reconnecting
    being enabled, and no connection object is made. *)
Definition evolves (w w' : World) : Prop :=
  (next w <= next w')%nat /\
  (forall c cn, conns w !! c = Some cn ->
     exists cn', conns w' !! c = Some cn' /\ token cn' = token cn /\
       sessionId cn' = sessionId cn /\
       (shouldReconnect cn' = true -> shouldReconnect cn = true)) /\
  (forall c, conns w !! c = None -> conns w' !! c = None).

(** The references from [next w] on are not in use for a connection
    object. *)
Definition allocated (w : World) : Prop :=
  forall c, (next w <= c)%nat -> conns w !! c = None.

(** The registry and the suspended requests hold connection objects under
    their own session ids. *)
Definition holds (w : World) (sid : string) (c : nat) : Prop :=
  exists cn, conns w !! c = Some cn /\ sessionId cn = sid.

Definition registered (w : World) : Prop :=
  (forall sid c, activeConnections w !! sid = Some c -> holds w sid c) /\
  (forall k sid c, awaiting w !! k = Some (sid, c) -> holds w sid c).

(** From [w0] to [w] no socket has opened, the log has grown, and the frames
    handed to [send] meanwhile are heartbeats and presence updates for
    sockets that were open in [w0], or identify frames when [unguarded]
    holds. *)
Definition guarded (unguarded : Prop) (w0 w : World) : Prop :=
  (forall k, isOpen k w = true -> isOpen k w0 = true) /\
  exists l, log w = log w0 ++ l /\
    forall k f, (k, f) ∈ sentFrames l ->
      (unguarded /\ op f = 2) \/ ((op f = 1 \/ op f = 3) /\ isOpen k w0 = true).

(** The answers to requests in a log, and a change of the state during
    which no request is answered. *)
Definition responses (l : list Call) : list Response :=
  omap (fun c => match c with Respond r => Some r | _ => None end) l.

Definition unanswered (w0 w : World) : Prop :=
  exists l, log w = log w0 ++ l /\ responses l = [].

(** ** The listing of the sessions ([app.get('/api/sessions')])

    One entry for each key of [activeConnections], in the order the table
    iterates them, which [keys] supplies. *)
Record SessionEntry := {
  entryId : string;
  entryConnected : option bool;
  entryActivity : option ActivityData
}.

Definition getSessions (keys : list string) (w : World) : list SessionEntry :=
  omap (fun sid =>
          c ← activeConnections w !! sid;
          cn ← conns w !! c;
          Some {| entryId := sid; entryConnected := connectedValue cn w;
                  entryActivity := currentActivity cn |}) keys.

(** ** The track lookup ([app.get('/api/spotify-info')]) *)

(** [s.includes(sub)] *)
Fixpoint includes (s sub : string) : bool :=
  startsWith s sub ||
  match s with
  | EmptyString => false
  | String _ rest => includes rest sub
  end.

(** [s.split(sep)] for a separator that is not empty: the segments between
    the occurrences of [sep], found from left to right.  [skip] characters of
    an occurrence are still to be passed over and [cur] is the segment read so
    far. *)
Fixpoint splitFrom (sep : string) (skip : nat) (cur s : string) : list string :=
  match s with
  | EmptyString => [cur]
  | String ch rest =>
      match skip with
      | S n => splitFrom sep n cur rest
      | O =>
          if startsWith s sep
          then cur :: splitFrom sep (String.length sep - 1) EmptyString rest
          else splitFrom sep 0 (cur +:+ String ch EmptyString) rest
      end
  end.

Definition splitOn (sep s : string) : list string := splitFrom sep 0 EmptyString s.

(** A value inside a template literal: [undefined] prints as its name. *)
Definition interpolated (v : option string) : string := default "undefined" v.

(** The kind and the id the handler reads off its [url] parameter; [None]
    when it answers "Invalid Spotify URL". *)
Definition spotifyTarget (url : string) : option (string * option string) :=
  if includes url "/track/" then
    Some ("track",
          x ← splitOn "/track/" url !! 1%nat; y ← split "?" x !! 0%nat; split "/" y !! 0%nat)
  else if includes url "/album/" then
    Some ("album",
          x ← splitOn "/album/" url !! 1%nat; y ← split "?" x !! 0%nat; split "/" y !! 0%nat)
  else if includes url "spotify:track:" then
    Some ("track", splitOn "spotify:track:" url !! 1%nat)
  else if includes url "spotify:album:" then
    Some ("album", splitOn "spotify:album:" url !! 1%nat)
  else None.

(** [oembedUrl] *)
Definition oembedUrl (urlType : string) (trackId : option string) : string :=
  "https://open.spotify.com/oembed?url=https://open.spotify.com/" +:+ urlType +:+ "/"
    +:+ interpolated trackId.

(** The object the handler answers with. *)
Record SpotifyInfo := {
  songName : string;
  artistName : string;
  thumbnailUrl : string;
  spotifyImageId : option string;
  trackId : option string
}.

(** What [fetch(oembedUrl)] and [response.json()] come to: a rejection, a
    response that is not ok, or the [title] and [thumbnail_url] of the data. *)
Inductive FetchResult :=
  | FetchThrows (message : option string)
  | FetchNotOk
  | FetchOk (title thumbnail_url : option string).

Inductive LookupResponse :=
  | LookupError (code : nat) (error : string) (message : option string)
  | LookupFound (info : SpotifyInfo).

Section Lookup.

(** [trim] is the built-in of the runtime, and [fetch] the remote lookup. *)
Variable trim : string -> string.
Variable fetch : string -> FetchResult.

(** [v || ''] *)
Definition orEmpty (v : option string) : string :=
  if truthy v then default "" v else "".

(** The body of the answer, from [const title = data.title || ''] on.  When
    [title] includes the separator its split has two parts at least. *)
Definition spotifyInfo (title thumbnail_url : option string) (id : option string)
  : SpotifyInfo :=
  let title' := orEmpty title in
  let thumbnail := orEmpty thumbnail_url in
  let parts := take 2 (splitOn " - " title') in
  {| songName := if includes title' " - " then trim (default "" (parts !! 0%nat))
                 else title';
     artistName := if includes title' " - " then trim (default "" (parts !! 1%nat))
                   else "Unknown Artist";
     thumbnailUrl := thumbnail;
     spotifyImageId :=
       if truthy (Some thumbnail) && includes thumbnail "/image/"
       then splitOn "/image/" thumbnail !! 1%nat
       else None;
     trackId := id |}.

(** [app.get('/api/spotify-info')] *)
Definition getSpotifyInfo (url : option string) : LookupResponse :=
  match url with
  | Some u =>
      if negb (truthy url) then LookupError 400 "Spotify URL is required" None
      else
        match spotifyTarget u with
        | None => LookupError 400 "Invalid Spotify URL" None
        | Some (urlType, id) =>
            match fetch (oembedUrl urlType id) with
            | FetchThrows message =>
                LookupError 500 "Failed to fetch Spotify info" message
            | FetchNotOk => LookupError 404 "Spotify track not found" None
            | FetchOk title thumbnail_url => LookupFound (spotifyInfo title thumbnail_url id)
            end
        end
  | None => LookupError 400 "Spotify URL is required" None
  end.

(** ** The client script ([updateStatus]) *)

(** [fetchSpotifyInfo(url)], for a request that reaches the lookup of the
    server: the data of an ok answer, [null] otherwise. *)
Definition fetchSpotifyInfo (url : string) : option SpotifyInfo :=
  match getSpotifyInfo (Some url) with
  | LookupFound info => Some info
  | LookupError _ _ _ => None
  end.

(** The [activity] that [updateStatus] puts in the body of its request, from
    the values of the form. *)
Definition clientActivity (nameInput typeValue detailsInput stateInput spotifyUrlInput
    : string) : ActivityData :=
  let name0 := trim nameInput in
  let state0 := trim stateInput in
  let spotifyUrl := trim spotifyUrlInput in
  let info := if truthy (Some spotifyUrl) then fetchSpotifyInfo spotifyUrl else None in
  let name1 := match info with
               | Some i => if truthy (Some name0) then name0 else songName i
               | None => name0
               end in
  let state1 := match info with
                | Some i => if truthy (Some state0) then state0 else "by " +:+ artistName i
                | None => state0
                end in
  let art := match info with
             | Some i => if truthy (spotifyImageId i)
                         then Some ("spotify:" +:+ interpolated (spotifyImageId i), songName i)
                         else None
             | None => None
             end in
  if truthy (Some name1) then
    {| name := Some name1; type := Some typeValue; details := Some (trim detailsInput);
       state := Some state1; imageUrl := fst <$> art; imageText := snd <$> art |}
  else
    {| name := None; type := None; details := None; state := None;
       imageUrl := None; imageText := None |}.

End Lookup.

(** A sample [trim], which strips the blanks of ASCII text, and a sample
    endpoint that knows one track. *)
Definition blank (ch : ascii) : bool :=
  let n := nat_of_ascii ch in ((9 <=? n) && (n <=? 13) || (n =? 32))%nat.

Fixpoint trimStart (s : string) : string :=
  match s with
  | EmptyString => EmptyString
  | String ch rest => if blank ch then trimStart rest else s
  end.

Fixpoint trimEnd (s : string) : string :=
  match s with
  | EmptyString => EmptyString
  | String ch rest =>
      match trimEnd rest with
      | EmptyString => if blank ch then EmptyString else String ch EmptyString
      | t => String ch t
      end
  end.

Definition trimBlanks (s : string) : string := trimEnd (trimStart s).

Definition sampleEndpoint (url : string) : FetchResult :=
  if String.eqb url "https://open.spotify.com/oembed?url=https://open.spotify.com/track/4uLU6hMC"
  then FetchOk (Some "Song A - Artist") (Some "https://i.scdn.co/image/ab67616d")
  else FetchNotOk.

(** [sep] does not occur in [pre +:+ sep] before its end. *)
Fixpoint noEarlier (sep pre : string) : bool :=
  match pre with
  | EmptyString => true
  | String _ rest => negb (startsWith (pre +:+ sep) sep) && noEarlier sep rest
  end.

(** ** Notions for an activity that waits for the next READY *)






(** * Properties *)

(** ** Artwork normalization *)

Example extract_cdn :
  extractSpotifyImageId (Some "https://i.scdn.co/image/abc123") = Some "abc123".
Proof. reflexivity. Qed.

Example extract_uri : extractSpotifyImageId (Some "spotify:abc123") = Some "abc123".
Proof. reflexivity. Qed.

Lemma split_nonempty sep s : split sep s <> [].
Proof.
  destruct s as [|ch rest]; simpl; [discriminate|].
  destruct (Ascii.eqb ch sep); [discriminate|].
  destruct (split sep rest); discriminate.
Qed.

Lemma split_lacks sep s : lacks sep s = true -> split sep s = [s].
Proof.
  induction s as [|ch rest IH]; simpl; [reflexivity|].
  intros [Hch Hrest]%andb_prop.
  destruct (Ascii.eqb ch sep); [discriminate|].
  rewrite (IH Hrest). reflexivity.
Qed.

Lemma split_after sep pre s :
  exists seg segs,
    split sep (pre +:+ String sep s) = seg :: segs /\ segs <> [] /\
    last segs = last (split sep s).
Proof.
  pose proof (split_nonempty sep s) as Hne.
  induction pre as [|ch pre (seg & segs & E & Hsegs & Hlast)].
  - simpl. rewrite Ascii.eqb_refl. eexists _, _. split; [reflexivity|]. split; [exact Hne|reflexivity].
  - change (String ch pre +:+ String sep s) with (String ch (pre +:+ String sep s)).
    simpl. rewrite E. destruct (Ascii.eqb ch sep).
    + eexists _, _. split; [reflexivity|]. split; [discriminate|].
      destruct segs; [congruence|]. rewrite last_cons_cons. exact Hlast.
    + eexists _, _. split; [reflexivity|]. split; [exact Hsegs|exact Hlast].
Qed.

(** The last segment of a string is what follows its last separator. *)
Lemma pop_split_after sep pre s :
  pop (split sep (pre +:+ String sep s)) = pop (split sep s).
Proof.
  destruct (split_after sep pre s) as (seg & segs & E & Hsegs & Hlast).
  unfold pop. rewrite E. destruct segs; [congruence|].
  rewrite last_cons_cons. exact Hlast.
Qed.

Lemma pop_split_trailing sep pre s :
  lacks sep s = true -> pop (split sep (pre +:+ String sep s)) = Some s.
Proof.
  intros H. rewrite pop_split_after, (split_lacks _ _ H). reflexivity.
Qed.

Lemma extract_cdn_segment id :
  lacks "/" id = true -> extractSpotifyImageId (Some (cdnPrefix +:+ id)) = Some id.
Proof.
  intros H. unfold extractSpotifyImageId, cdnPrefix.
  change ("https://i.scdn.co/image/" +:+ id)
    with ("https://i.scdn.co/image" +:+ String "/" id).
  rewrite pop_split_trailing by exact H. cbv. reflexivity.
Qed.

Lemma extract_uri_segment id :
  lacks ":" id = true -> extractSpotifyImageId (Some (uriPrefix +:+ id)) = Some id.
Proof.
  intros H. unfold extractSpotifyImageId, uriPrefix.
  change ("spotify:" +:+ id) with ("spotify" +:+ String ":" id).
  rewrite pop_split_trailing by exact H. cbv. reflexivity.
Qed.

Lemma extract_other u :
  startsWith u cdnPrefix = false -> startsWith u uriPrefix = false ->
  extractSpotifyImageId (Some u) = None.
Proof.
  unfold extractSpotifyImageId, cdnPrefix, uriPrefix. intros -> ->.
  destruct (negb (truthy (Some u))); reflexivity.
Qed.

(** C6 (as amended).  A CDN image URL [https://i.scdn.co/image/<id>] is
    normalized to [<id>], a reference [spotify:<id>] to [<id>], and any string
    with neither prefix to no id.  The assets of the composed activity are
    empty unless an artwork reference was supplied; when one was, the large
    image is [spotify:<id>] for a non-empty normalized id and missing
    otherwise, and the large text is the alt text when present, whether or not
    the reference was normalized. *)
Theorem artwork_normalization :
  (forall id, lacks "/" id = true ->
     extractSpotifyImageId (Some (cdnPrefix +:+ id)) = Some id) /\
  (forall id, lacks ":" id = true ->
     extractSpotifyImageId (Some (uriPrefix +:+ id)) = Some id) /\
  (forall u, startsWith u cdnPrefix = false -> startsWith u uriPrefix = false ->
     extractSpotifyImageId (Some u) = None) /\
  (forall a, truthy (imageUrl a) = false ->
     buildAssets a = {| large_image := None; large_text := None |}) /\
  (forall a, truthy (imageUrl a) = true ->
     large_image (buildAssets a) =
       match extractSpotifyImageId (imageUrl a) with
       | Some id => if String.eqb id "" then None else Some ("spotify:" +:+ id)
       | None => None
       end /\
     large_text (buildAssets a) =
       if truthy (imageText a) then imageText a else None).
Proof.
  split; [exact extract_cdn_segment|].
  split; [exact extract_uri_segment|].
  split; [exact extract_other|].
  split.
  - intros a H. unfold buildAssets. rewrite H. reflexivity.
  - intros a H. unfold buildAssets. rewrite H. simpl. split; [|reflexivity].
    destruct (extractSpotifyImageId (imageUrl a)) as [id|]; simpl; [|reflexivity].
    destruct (String.eqb id ""); reflexivity.
Qed.

(** The examples of the claim are not normalized by the code, and an
    unrelated artwork string with an alt text still yields a large text. *)
Lemma artwork_counterexample :
  extractSpotifyImageId (Some "https://cdn.example/image/abc123") <> Some "abc123" /\
  extractSpotifyImageId (Some "proto:abc123") <> Some "abc123" /\
  extractSpotifyImageId (Some "cover.png") = None /\
  buildAssets coverArt <> {| large_image := None; large_text := None |}.
Proof. repeat split; try discriminate. Qed.

Lemma artwork_normalization_witness :
  extractSpotifyImageId (Some "https://i.scdn.co/image/abc123") = Some "abc123" /\
  extractSpotifyImageId (Some "spotify:abc123") = Some "abc123" /\
  extractSpotifyImageId (Some "cover.png") = None /\
  buildAssets songA = {| large_image := None; large_text := None |} /\
  large_text (buildAssets coverArt) = Some "Cover".
Proof.
  destruct artwork_normalization as (Hcdn & Huri & Hother & Hnone & Hsome).
  split; [exact (Hcdn "abc123" eq_refl)|].
  split; [exact (Huri "abc123" eq_refl)|].
  split; [exact (Hother "cover.png" eq_refl eq_refl)|].
  split; [exact (Hnone songA eq_refl)|].
  exact (proj2 (Hsome coverArt eq_refl)).
Defined.

(** ** Bookkeeping: what each operation leaves alone *)

Lemma with_log_nil (w : World) : with_log (fun l => l ++ []) w = w.
Proof. destruct w. unfold with_log. simpl. rewrite app_nil_r. reflexivity. Qed.

Lemma notifyClient_eq sid data w :
  notifyClient sid data w = with_log (fun l => l ++ deliveries sid data w) w.
Proof.
  unfold notifyClient, deliveries.
  destruct (clientWebSockets w !! sid) as [j|]; [|symmetry; apply with_log_nil].
  destruct (clients w !! j) as [cs|]; [|symmetry; apply with_log_nil].
  destruct (bool_decide (clientReadyState cs = OPEN)); [reflexivity|].
  symmetry; apply with_log_nil.
Qed.

Lemma cleanup_conn c w cn :
  conns w !! c = Some cn -> conns (cleanup c w) !! c = Some (cleaned cn).
Proof.
  intros H. unfold cleanup. rewrite H.
  destruct cn as [tok sid so hb sq ack rc act ka]. unfold cleaned. simpl.
  destruct hb, ka; simpl; rewrite ?lookup_alter_eq, ?H; reflexivity.
Qed.

(** [cleanup()] touches the connection object, the timers and the log. *)
Lemma cleanup_rest c w :
  sockets (cleanup c w) = sockets w /\ promises (cleanup c w) = promises w /\
  awaiting (cleanup c w) = awaiting w /\ timeouts (cleanup c w) = timeouts w /\
  activeConnections (cleanup c w) = activeConnections w /\
  clients (cleanup c w) = clients w /\
  clientWebSockets (cleanup c w) = clientWebSockets w /\ next (cleanup c w) = next w.
Proof.
  unfold cleanup. destruct (conns w !! c) as [cn|]; [|repeat split].
  destruct (heartbeatTask cn), (keepAliveTask cn); repeat split.
Qed.

(** ** Status of a session *)

Section Status.

Variable parseInt : option string -> JsNumber.

(** C10.  The status of a session id that is not in the registry is answered
    with code 200 and the body [{connected: false}], without the property
    [currentActivity]; a registered session whose socket is not open is
    answered with code 200 and [connected: false] as well, so the status code
    does not tell the two apart. *)
Theorem status_of_unknown_session (w : World) (sid : string) :
  activeConnections w !! sid = None ->
  step parseInt w (GetStatus sid) = respond 200 (StatusBody (Some false) None) w /\
  (forall sid' c cn k,
     activeConnections w !! sid' = Some c -> conns w !! c = Some cn ->
     ws cn = Some k -> isOpen k w = false ->
     step parseInt w (GetStatus sid') =
       respond 200 (StatusBody (Some false) (Some (currentActivity cn))) w).
Proof.
  intros Hnone. split.
  - simpl. unfold getStatus. rewrite Hnone. reflexivity.
  - intros sid' c cn k Hreg Hcn Hws Hclosed. simpl. unfold getStatus.
    rewrite Hreg, Hcn. unfold connectedValue. rewrite Hws, Hclosed. reflexivity.
Qed.

End Status.

Lemma status_of_unknown_session_witness :
  step parseDigits droppedWorld (GetStatus "nope") =
    respond 200 (StatusBody (Some false) None) droppedWorld /\
  step parseDigits droppedWorld (GetStatus "s1") =
    respond 200 (StatusBody (Some false) (Some None)) droppedWorld.
Proof.
  destruct (status_of_unknown_session parseDigits droppedWorld "nope") as [Hunknown Hdropped];
    [vm_compute; reflexivity|].
  split; [exact Hunknown|].
  apply (Hdropped "s1" 0%nat droppedConnection 1%nat); vm_compute; reflexivity.
Defined.

(** ** The heartbeat timer *)

Section Heartbeat.

Variable parseInt : option string -> JsNumber.

(** The handler of [close] schedules one connect after 5000 ms when
    reconnect is enabled, and none otherwise. *)
Lemma onClose_timeouts c w cn :
  conns w !! c = Some cn ->
  timeouts (onClose c w) =
    timeouts w ++ (if shouldReconnect cn then [(c, 5000)] else []).
Proof.
  intros H. unfold onClose. rewrite (cleanup_conn _ _ _ H), notifyClient_eq.
  destruct (cleanup_rest c w) as (_ & _ & _ & Ht & _).
  destruct cn as [tok sid so hb sq ack rc act ka]. simpl.
  destruct rc; simpl; rewrite Ht, ?app_nil_r; reflexivity.
Qed.

(** C1 (as amended).  A tick of a running heartbeat timer whose previous
    heartbeat was not acknowledged calls [close] on the socket of the session,
    which is then not open, sends nothing and schedules nothing; the
    reconnect is scheduled by the handler of the [close] event that follows:
    one connect after 5000 ms when reconnect is enabled, none otherwise.  A
    tick after an acknowledged heartbeat marks the heartbeat as pending and
    sends one heartbeat frame when the socket is open, and does nothing when
    it is not. *)
Theorem heartbeat_tick (w : World) (h : nat) (iv : Interval)
    (cn : DiscordConnection) (k : nat) (s : WebSocket) :
  intervals w !! h = Some iv -> kind iv = HeartbeatTimer ->
  conns w !! timerOwner iv = Some cn -> ws cn = Some k ->
  sockets w !! k = Some s -> owner s = timerOwner iv ->
  let w' := step parseInt w (IntervalFires h) in
  if heartbeatAcked cn then
    if isOpen k w then
      w' = call (WsSend k {| op := 1; d := DSequence (lastSequence cn) |})
             (assign (timerOwner iv) (set_heartbeatAcked false) w)
    else w' = w
  else
    w' = ws_close k w /\ isOpen k w' = false /\
    timeouts (step parseInt w' (GatewayClose k)) =
      timeouts w ++ (if shouldReconnect cn then [(timerOwner iv, 5000)] else []).
Proof.
  intros Hiv Hkind Hcn Hws Hs Howner w'. subst w'. simpl.
  rewrite Hiv, Hkind. unfold heartbeatTick. rewrite Hcn.
  destruct (heartbeatAcked cn) eqn:Hack; simpl.
  - unfold connected. rewrite Hcn, Hws.
    destruct (isOpen k w); reflexivity.
  - rewrite Hws. split; [reflexivity|]. split.
    + unfold isOpen, ws_close. simpl. rewrite lookup_alter_eq, Hs. simpl.
      destruct (readyState s); reflexivity.
    + unfold ws_close at 2. simpl. rewrite lookup_alter_eq, Hs. simpl.
      rewrite Howner. erewrite onClose_timeouts by exact Hcn. reflexivity.
Qed.

End Heartbeat.

(** The server has asked for a reconnect and the socket is closing; the last
    heartbeat was acknowledged, the timer still runs, and its tick neither
    sends a heartbeat nor marks one as pending. *)
Lemma heartbeat_tick_counterexample :
  intervals closingWorld !! 2%nat = Some heartbeatTimer /\
  heartbeatAcked <$> conns closingWorld !! 0%nat = Some true /\
  step parseDigits closingWorld (IntervalFires 2) = closingWorld.
Proof. vm_compute. repeat split. Qed.

Lemma heartbeat_tick_witness :
  let w' := step parseDigits tickedWorld (IntervalFires 2) in
  w' = ws_close 1 tickedWorld /\ isOpen 1 w' = false /\
  timeouts (step parseDigits w' (GatewayClose 1)) = timeouts tickedWorld ++ [(0%nat, 5000)].
Proof.
  apply (heartbeat_tick parseDigits tickedWorld 2 heartbeatTimer tickedConnection 1
           {| readyState := OPEN; owner := 0 |});
    vm_compute; reflexivity.
Defined.

(** ** Presence updates *)

Lemma sentFrames_app l l' : sentFrames (l ++ l') = sentFrames l ++ sentFrames l'.
Proof. apply omap_app. Qed.

Section Presence.
Variable parseInt : option string -> JsNumber.

Lemma updatePresence_store c d w cn :
  conns w !! c = Some cn ->
  conns (snd (updatePresence parseInt c d w)) !! c = Some (set_currentActivity d cn).
Proof.
  intros H. unfold updatePresence. simpl. rewrite lookup_alter_eq, H. simpl.
  destruct (negb _); simpl; [rewrite lookup_alter_eq, H; reflexivity|].
  destruct d as [a|]; simpl; [|rewrite lookup_alter_eq, H; reflexivity].
  destruct (ws cn) as [k|]; simpl; [|rewrite lookup_alter_eq, H; reflexivity].
  rewrite notifyClient_eq. simpl. rewrite lookup_alter_eq, H. reflexivity.
Qed.

Lemma updatePresence_open c a w cn k :
  conns w !! c = Some cn -> ws cn = Some k -> isOpen k w = true ->
  updatePresence parseInt c (Some a) w =
    (Returned,
     notifyClient (sessionId cn) (status_updated (Some a))
       (ws_send k (presenceUpdate parseInt a) (assign c (set_currentActivity (Some a)) w))).
Proof.
  intros H Hws Hopen. unfold updatePresence, connected. simpl.
  rewrite lookup_alter_eq, H. simpl. rewrite Hws. 
  change (isOpen k (assign c (set_currentActivity (Some a)) w)) with (isOpen k w).
  rewrite Hopen. reflexivity.
Qed.


End Presence.

Lemma startKeepAlive_conn c w cn :
  conns w !! c = Some cn ->
  conns (startKeepAlive c w) !! c = Some (set_keepAliveTask (Some (next w)) cn).
Proof.
  intros H. unfold startKeepAlive. rewrite H.
  destruct (keepAliveTask cn); simpl; rewrite lookup_alter_eq, H; reflexivity.
Qed.

Lemma startKeepAlive_rest c w :
  sockets (startKeepAlive c w) = sockets w /\
  promises (startKeepAlive c w) = promises w /\
  awaiting (startKeepAlive c w) = awaiting w /\
  timeouts (startKeepAlive c w) = timeouts w /\
  activeConnections (startKeepAlive c w) = activeConnections w /\
  clients (startKeepAlive c w) = clients w /\
  clientWebSockets (startKeepAlive c w) = clientWebSockets w /\
  sentFrames (log (startKeepAlive c w)) = sentFrames (log w).
Proof.
  unfold startKeepAlive. destruct (conns w !! c) as [cn|]; [|repeat split].
  destruct (keepAliveTask cn); simpl; rewrite ?sentFrames_app, ?app_nil_r; repeat split.
Qed.

Lemma settle_rest k st w :
  conns (settle k st w) = conns w /\ sockets (settle k st w) = sockets w /\
  awaiting (settle k st w) = awaiting w /\ timeouts (settle k st w) = timeouts w /\
  activeConnections (settle k st w) = activeConnections w /\
  clients (settle k st w) = clients w /\
  clientWebSockets (settle k st w) = clientWebSockets w /\
  intervals (settle k st w) = intervals w /\ log (settle k st w) = log w.
Proof.
  unfold settle. destruct (promises w !! k) as [[]|]; repeat split.
Qed.

Lemma resume_sentFrames k w : sentFrames (log (resume k w)) = sentFrames (log w).
Proof.
  unfold resume. destruct (awaiting w !! k) as [[sid c]|]; [|reflexivity].
  destruct (promises w !! k) as [[]|]; simpl; rewrite ?sentFrames_app, ?app_nil_r; reflexivity.
Qed.

Section Ready.
Variable parseInt : option string -> JsNumber.

End Ready.

(** ** Disconnecting *)

(** [disconnect()] in one step. *)
Lemma disconnect_eq c w cn :
  conns w !! c = Some cn ->
  disconnect c w =
    {| conns := <[c := ended cn]> (conns w);
       sockets := match ws cn with
                  | Some k => alter closing k (sockets w)
                  | None => sockets w
                  end;
       promises := promises w; awaiting := awaiting w;
       intervals := forget (keepAliveTask cn) (forget (heartbeatTask cn) (intervals w));
       timeouts := timeouts w; activeConnections := activeConnections w;
       clients := clients w; clientWebSockets := clientWebSockets w;
       next := next w;
       log := log w ++ closes cn ++ clears cn ++ deliveries (sessionId cn) session_ended w |}.
Proof.
  intros H. unfold disconnect. simpl. rewrite !lookup_alter_eq, H. simpl.
  rewrite notifyClient_eq.
  destruct cn as [tok sid so hb sq ack rc act ka]. unfold ended, cleaned, closes, clears. simpl.
  destruct so as [k|], hb as [hh|], ka as [kh|]; unfold cleanup; simpl;
    rewrite ?lookup_alter_eq, ?H; simpl; unfold with_log; simpl; f_equal;
    rewrite <- ?app_assoc; simpl; try reflexivity.
  all: unfold assign, with_conns; simpl.
  all: apply map_eq; intros i; destruct (decide (c = i)) as [<-|Hne];
    [rewrite ?lookup_alter_eq, ?lookup_insert_eq, H; reflexivity
    |rewrite ?lookup_alter_ne, ?lookup_insert_ne by exact Hne; reflexivity].
Qed.

Lemma ended_idem cn : ended (ended cn) = ended cn.
Proof. destruct cn; reflexivity. Qed.

Lemma closing_idem s : closing (closing s) = closing s.
Proof. destruct s as [[] o]; reflexivity. Qed.

(** The session after [disconnect()]: reconnect disabled, no activity, both
    timers released, the socket not open. *)
Lemma disconnect_result w c cn :
  conns w !! c = Some cn ->
  exists cn1,
    conns (disconnect c w) !! c = Some cn1 /\ shouldReconnect cn1 = false /\
    currentActivity cn1 = None /\ heartbeatTask cn1 = None /\
    keepAliveTask cn1 = None /\ ws cn1 = ws cn /\
    forall k, ws cn = Some k -> isOpen k (disconnect c w) = false.
Proof.
  intros H. exists (ended cn). rewrite (disconnect_eq _ _ _ H). simpl.
  split; [apply lookup_insert_eq|].
  destruct cn as [tok sid so hb sq ack rc act ka]. simpl. repeat split.
  intros k ->. unfold isOpen. simpl.
  rewrite lookup_alter_eq. destruct (sockets w !! k) as [[[] o]|]; reflexivity.
Qed.

(** C3 (as amended).  A second [disconnect()] leaves every part of the state
    as the first one left it and clears no timer, but it calls [close] on the
    socket again and publishes the session-ended notification again; the
    first call leaves reconnect disabled, both timers released, and the socket
    not open. *)
Theorem disconnect_twice (w : World) (c : nat) (cn : DiscordConnection) :
  conns w !! c = Some cn ->
  let w1 := disconnect c w in
  disconnect c w1 =
    with_log (fun l => l ++ closes cn ++ deliveries (sessionId cn) session_ended w) w1 /\
  exists cn1,
    conns w1 !! c = Some cn1 /\ shouldReconnect cn1 = false /\
    currentActivity cn1 = None /\ heartbeatTask cn1 = None /\
    keepAliveTask cn1 = None /\ ws cn1 = ws cn /\
    forall k, ws cn = Some k -> isOpen k w1 = false.
Proof.
  intros H w1. split; [|apply disconnect_result; exact H].
  assert (conns w1 !! c = Some (ended cn)) as H1.
  { subst w1. rewrite (disconnect_eq _ _ _ H). simpl. apply lookup_insert_eq. }
  rewrite (disconnect_eq _ _ _ H1). subst w1. rewrite (disconnect_eq _ _ _ H).
  unfold with_log. simpl. rewrite ended_idem, insert_insert_eq.
  destruct cn as [tok sid so hb sq ack rc act ka]. unfold closes, clears. simpl.
  f_equal.
  destruct so as [k|]; [|reflexivity].
  apply map_eq. intros i. destruct (decide (k = i)) as [<-|Hne].
  - rewrite !lookup_alter_eq. destruct (sockets w !! k) as [s|]; [|reflexivity].
    simpl. rewrite closing_idem. reflexivity.
  - rewrite !lookup_alter_ne by exact Hne. reflexivity.
Qed.

(** With a subscriber listening, the second [disconnect()] publishes the
    session-ended notification a second time. *)
Lemma disconnect_twice_counterexample :
  let once := disconnect 0 subscribedWorld in
  let twice := disconnect 0 once in
  log once = log subscribedWorld ++
    [WsClose 1; ClearInterval 2; ClearInterval 3; ClientSend 4 session_ended] /\
  log twice = log once ++ [WsClose 1; ClientSend 4 session_ended].
Proof. vm_compute. split; reflexivity. Qed.

Lemma disconnect_twice_witness :
  disconnect 0 (disconnect 0 subscribedWorld) =
    with_log (fun l => l ++ [WsClose 1; ClientSend 4 session_ended])
      (disconnect 0 subscribedWorld).
Proof.
  destruct (disconnect_twice subscribedWorld 0 readyConnection) as [Htwice _];
    [vm_compute; reflexivity|].
  exact Htwice.
Defined.

(** ** Applying an activity *)

Section Contract.

Variable parseInt : option string -> JsNumber.

(** With an open socket [updatePresence] returns after one call of [send],
    with the frame composed from the descriptor. *)
Lemma updatePresence_sends w c cn a k :
  conns w !! c = Some cn -> ws cn = Some k -> isOpen k w = true ->
  fst (updatePresence parseInt c (Some a) w) = Returned /\
  sentFrames (log (snd (updatePresence parseInt c (Some a) w))) =
    sentFrames (log w) ++ [(k, presenceUpdate parseInt a)].
Proof.
  intros H Hws Hopen. rewrite (updatePresence_open parseInt c a w cn k H Hws Hopen).
  simpl. split; [reflexivity|]. rewrite notifyClient_eq. simpl.
  rewrite !sentFrames_app. simpl.
  unfold deliveries. repeat case_match; simpl; rewrite ?app_nil_r; reflexivity.
Qed.

(** A descriptor without a name is composed to the frame that clears the
    presence. *)
Lemma presenceUpdate_clear a :
  truthy (name a) = false -> presenceUpdate parseInt a = clearPresence.
Proof. intros H. unfold presenceUpdate, buildActivity. rewrite H. reflexivity. Qed.

(** The frame [updatePresence] sends is a function of the descriptor alone:
    two sessions in any two states send the same frame for the same
    descriptor. *)
Lemma presence_frame_of_descriptor a w1 c1 cn1 k1 w2 c2 cn2 k2 :
  conns w1 !! c1 = Some cn1 -> ws cn1 = Some k1 -> isOpen k1 w1 = true ->
  conns w2 !! c2 = Some cn2 -> ws cn2 = Some k2 -> isOpen k2 w2 = true ->
  exists f,
    sentFrames (log (snd (updatePresence parseInt c1 (Some a) w1))) =
      sentFrames (log w1) ++ [(k1, f)] /\
    sentFrames (log (snd (updatePresence parseInt c2 (Some a) w2))) =
      sentFrames (log w2) ++ [(k2, f)].
Proof.
  intros H1 Hws1 Ho1 H2 Hws2 Ho2. exists (presenceUpdate parseInt a).
  split; eapply updatePresence_sends; eassumption.
Qed.

End Contract.

(** C5.  A status update without an activity object for a connected session
    makes [updatePresence] throw at [activityData.name]: no presence frame is
    composed or sent and the endpoint answers with code 500, whereas the
    keep-alive timer composes the frame with an empty activities list from an
    absent activity. *)
Theorem update_without_activity :
  connected 0 readyWorld = true /\
  fst (updatePresence parseDigits 0 None readyWorld) = Thrown /\
  sentFrames (log (step parseDigits readyWorld (PostUpdateStatus (Some "s1") None))) =
    sentFrames (log readyWorld) /\
  log (step parseDigits readyWorld (PostUpdateStatus (Some "s1") None)) =
    log readyWorld ++
    [Respond {| statusCode := 500;
                body := ErrorBody "Failed to update status" (Some typeErrorMessage) |}] /\
  keepAlivePresence parseDigits None = clearPresence.
Proof. vm_compute. repeat split. Qed.

(** ** What the handlers leave alone *)

Section Steady.

Context {A : Type} (proj : DiscordConnection -> A) `{!Stable proj}.

Lemma keeps_refl w : keeps proj w w.
Proof. intros c cn H. eauto. Qed.

Lemma keeps_trans w1 w2 w3 : keeps proj w1 w2 -> keeps proj w2 w3 -> keeps proj w1 w3.
Proof.
  intros H12 H23 c cn H. destruct (H12 c cn H) as (cn2 & H2 & E2).
  destruct (H23 c cn2 H2) as (cn3 & H3 & E3). exists cn3. split; [exact H3|congruence].
Qed.

Lemma keeps_same_conns w w' : conns w' = conns w -> keeps proj w w'.
Proof. intros E c cn H. rewrite E. eauto. Qed.

Lemma keeps_assign c f w :
  (forall cn, proj (f cn) = proj cn) -> keeps proj w (assign c f w).
Proof.
  intros Hf c' cn H. simpl. destruct (decide (c = c')) as [->|Hne].
  - rewrite lookup_alter_eq, H. simpl. eauto.
  - rewrite lookup_alter_ne by exact Hne. eauto.
Qed.

Lemma steady_refl w : steady proj w w.
Proof. repeat split. apply keeps_refl. Qed.

Lemma steady_trans w1 w2 w3 : steady proj w1 w2 -> steady proj w2 w3 -> steady proj w1 w3.
Proof.
  intros (P12 & A12 & R12 & K12) (P23 & A23 & R23 & K23).
  repeat split; try congruence. eapply keeps_trans; eassumption.
Qed.

Lemma steady_same w w' :
  conns w' = conns w -> promises w' = promises w -> awaiting w' = awaiting w ->
  activeConnections w' = activeConnections w -> steady proj w w'.
Proof. intros Hc Hp Ha Hr. repeat split; try assumption. apply keeps_same_conns, Hc. Qed.

Lemma steady_assign c f w :
  (forall cn, proj (f cn) = proj cn) -> steady proj w (assign c f w).
Proof. intros Hf. repeat split. apply keeps_assign, Hf. Qed.

Lemma steady_notifyClient sid data w : steady proj w (notifyClient sid data w).
Proof. rewrite notifyClient_eq. apply steady_same; reflexivity. Qed.

Lemma steady_cleanup c w : steady proj w (cleanup c w).
Proof.
  unfold cleanup. destruct (conns w !! c) as [cn|]; [|apply steady_refl].
  assert (forall w0 h, steady proj w0 (clearInterval h w0)) as Hclear
    by (intros; apply steady_same; reflexivity).
  destruct (heartbeatTask cn) as [h|], (keepAliveTask cn) as [h'|];
    repeat first [ apply steady_refl
                 | eapply steady_trans; [|apply steady_assign; first [apply stable_heartbeatTask|apply stable_keepAliveTask]]
                 | eapply steady_trans; [|apply Hclear] ].
Qed.

Lemma steady_startKeepAlive c w : steady proj w (startKeepAlive c w).
Proof.
  unfold startKeepAlive. destruct (conns w !! c) as [cn|]; [|apply steady_refl].
  simpl. eapply steady_trans; [|apply steady_assign, stable_keepAliveTask].
  destruct (keepAliveTask cn); apply steady_same; reflexivity.
Qed.

Lemma steady_heartbeatTick c w : steady proj w (heartbeatTick c w).
Proof.
  unfold heartbeatTick. destruct (conns w !! c) as [cn|]; [|apply steady_refl].
  destruct (negb (heartbeatAcked cn)).
  - destruct (ws cn); [apply steady_same; reflexivity|apply steady_refl].
  - destruct (connected c w); [|apply steady_refl].
    destruct (ws cn); [|apply steady_refl].
    eapply steady_trans; [apply steady_assign, stable_heartbeatAcked|].
    apply steady_same; reflexivity.
Qed.

Lemma steady_onClose c w : steady proj w (onClose c w).
Proof.
  unfold onClose. eapply steady_trans; [apply steady_cleanup|].
  destruct (conns (cleanup c w) !! c) as [cn|]; [|apply steady_refl].
  eapply steady_trans; [apply steady_notifyClient|].
  destruct (shouldReconnect cn); [apply steady_same; reflexivity|apply steady_refl].
Qed.

Lemma steady_settle_conns k st w : keeps proj w (settle k st w).
Proof. apply keeps_same_conns. apply (settle_rest k st w). Qed.

End Steady.

Section SteadyPresence.

Variable parseInt : option string -> JsNumber.
Context {A : Type} (proj : DiscordConnection -> A) `{!Stable proj}.

Lemma steady_updatePresence c d w :
  steady proj w (snd (updatePresence parseInt c d w)).
Proof.
  unfold updatePresence.
  assert (steady proj w (assign c (set_currentActivity d) w)) as Hst
    by apply steady_assign, stable_currentActivity.
  destruct (conns _ !! c) as [cn|]; [|exact Hst].
  destruct (negb _); [exact Hst|].
  destruct d as [a|]; [|exact Hst]. destruct (ws cn) as [k|]; [|exact Hst].
  simpl. eapply steady_trans; [exact Hst|].
  eapply steady_trans; [|apply steady_notifyClient]. apply steady_same; reflexivity.
Qed.

Lemma steady_keepAliveTick c w : steady proj w (keepAliveTick parseInt c w).
Proof.
  unfold keepAliveTick. destruct (conns w !! c) as [cn|]; [|apply steady_refl].
  destruct (connected c w); [|apply steady_refl].
  destruct (ws cn); [apply steady_same; reflexivity|apply steady_refl].
Qed.

(** Apart from the sequence number, [handleMessage] is steady, except that a
    READY frame settles the promise of its socket on the way. *)
Lemma handleMessage_shape c k payload w :
  steady proj (sequenced c payload w) (handleMessage parseInt c k payload w) \/
  (p_op payload = 0 /\ p_t payload = Some "READY" /\
   exists w2, steady proj (sequenced c payload w) w2 /\
              steady proj (settle k Fulfilled w2) (handleMessage parseInt c k payload w)).
Proof.
  unfold handleMessage. fold (sequenced c payload w). set (w0 := sequenced c payload w).
  destruct (conns w0 !! c) as [cn|]; [|left; apply steady_refl].
  destruct (p_op payload =? 10).
  { left. simpl.
    eapply steady_trans with (w2 := assign c _ (call _ (with_intervals _ (with_next S (assign c _ w0))))).
    - eapply steady_trans; [apply steady_assign, stable_heartbeatAcked|].
      eapply steady_trans; [|apply steady_assign, stable_heartbeatTask].
      apply steady_same; reflexivity.
    - destruct (ws cn); [apply steady_same; reflexivity|apply steady_refl]. }
  destruct (p_op payload =? 11).
  { left. apply steady_assign, stable_heartbeatAcked. }
  destruct (p_op payload =? 0) eqn:Hop.
  { case_bool_decide as Ht; [|left; apply steady_refl].
    right. apply Z.eqb_eq in Hop. split; [exact Hop|]. split; [exact Ht|].
    exists (startKeepAlive c (notifyClient (sessionId cn) discord_ready w0)). split.
    - eapply steady_trans; [apply steady_notifyClient|apply steady_startKeepAlive; assumption].
    - destruct (currentActivity cn); [apply steady_updatePresence|apply steady_refl]. }
  destruct (p_op payload =? 7); [|left; apply steady_refl].
  left. destruct (ws cn); [apply steady_same; reflexivity|apply steady_refl].
Qed.

End SteadyPresence.

Lemma settle_promises k st w : promises (settle k st w) = settleMap k st (promises w).
Proof. unfold settle, settleMap. destruct (promises w !! k) as [[]|]; reflexivity. Qed.

Lemma resume_rest k w :
  conns (resume k w) = conns w /\ sockets (resume k w) = sockets w /\
  promises (resume k w) = promises w /\ timeouts (resume k w) = timeouts w /\
  intervals (resume k w) = intervals w.
Proof.
  unfold resume. destruct (awaiting w !! k) as [[sid c]|]; [|repeat split].
  destruct (promises w !! k) as [[]|]; repeat split.
Qed.

Lemma disconnect_tables c w :
  promises (disconnect c w) = promises w /\ awaiting (disconnect c w) = awaiting w /\
  activeConnections (disconnect c w) = activeConnections w.
Proof.
  unfold disconnect. destruct (conns _ !! c) as [cn|]; [|repeat split].
  rewrite notifyClient_eq. simpl.
  set (w2 := match ws cn with Some _ => _ | None => _ end).
  destruct (cleanup_rest c w2) as (_ & -> & -> & _ & -> & _).
  subst w2. destruct (ws cn); repeat split.
Qed.

Section Tables.

Variable parseInt : option string -> JsNumber.

Lemma sequenced_keeps {A} (proj : DiscordConnection -> A) c payload w :
  (forall v cn, proj (set_lastSequence v cn) = proj cn) ->
  steady proj w (sequenced c payload w).
Proof.
  intros Hp. unfold sequenced. destruct (truthyNumber _); [|apply steady_refl].
  apply steady_assign. intros cn. apply Hp.
Qed.

Lemma handleMessage_tables c k payload w :
  awaiting (handleMessage parseInt c k payload w) = awaiting w /\
  activeConnections (handleMessage parseInt c k payload w) = activeConnections w /\
  (promises (handleMessage parseInt c k payload w) = promises w \/
   p_op payload = 0 /\ p_t payload = Some "READY" /\
   promises (handleMessage parseInt c k payload w) = settleMap k Fulfilled (promises w)).
Proof.
  destruct (sequenced_keeps shouldReconnect c payload w) as (P0 & A0 & R0 & _);
    [reflexivity|].
  destruct (handleMessage_shape parseInt shouldReconnect c k payload w)
    as [(P & A & R & _)|(Hop & Ht & w2 & (P2 & A2 & R2 & _) & (P & A & R & _))].
  - repeat split; [congruence..|left; congruence].
  - destruct (settle_rest k Fulfilled w2) as (_ & _ & As & _ & Rs & _).
    repeat split; [congruence..|].
    right. repeat split; try assumption.
    rewrite P, settle_promises. congruence.
Qed.

Lemma handleMessage_keeps {A} (proj : DiscordConnection -> A) `{!Stable proj} c k payload w :
  keeps proj (sequenced c payload w) (handleMessage parseInt c k payload w).
Proof.
  destruct (handleMessage_shape parseInt proj c k payload w)
    as [(_ & _ & _ & K)|(_ & _ & w2 & (_ & _ & _ & K2) & (_ & _ & _ & K))];
    [exact K|].
  eapply keeps_trans; [exact K2|]. eapply keeps_trans; [|exact K].
  apply steady_settle_conns.
Qed.

Lemma handleMessage_lastSequence c k payload w cn :
  conns w !! c = Some cn ->
  exists cn', conns (handleMessage parseInt c k payload w) !! c = Some cn' /\
    lastSequence cn' =
      if truthyNumber (p_s payload) then p_s payload else lastSequence cn.
Proof.
  intros H.
  assert (exists cn0, conns (sequenced c payload w) !! c = Some cn0 /\
            lastSequence cn0 =
              if truthyNumber (p_s payload) then p_s payload else lastSequence cn)
    as (cn0 & H0 & E0).
  { unfold sequenced. destruct (truthyNumber _).
    - simpl. rewrite lookup_alter_eq, H. simpl. eauto.
    - eauto. }
  destruct (handleMessage_keeps lastSequence c k payload w c cn0 H0) as (cn' & H' & E').
  exists cn'. split; [exact H'|congruence].
Qed.

End Tables.

(** ** Socket drops and the registry *)

(** What [resume] does to the registry: nothing, or it stores the session
    of the endpoint that awaited the fulfilled promise. *)
Lemma resume_registry k w :
  activeConnections (resume k w) = activeConnections w \/
  exists sid c,
    awaiting w !! k = Some (sid, c) /\ promises w !! k = Some Fulfilled /\
    activeConnections (resume k w) = <[sid := c]> (activeConnections w).
Proof.
  unfold resume. destruct (awaiting w !! k) as [[sid c]|]; [|left; reflexivity].
  destruct (promises w !! k) as [[]|]; try (left; reflexivity).
  right. exists sid, c. repeat split.
Qed.

(** What the disconnect endpoint does to the registry: nothing, or it
    deletes the id it was given. *)
Lemma postDisconnect_registry sid w :
  activeConnections (postDisconnect sid w) = activeConnections w \/
  exists id, sid = Some id /\
    activeConnections (postDisconnect sid w) = delete id (activeConnections w).
Proof.
  unfold postDisconnect. destruct sid as [id|]; [|left; reflexivity].
  destruct (negb _); [left; reflexivity|].
  destruct (activeConnections w !! id) as [c|]; [|left; reflexivity].
  right. exists id. split; [reflexivity|]. simpl.
  destruct (disconnect_tables c w) as (_ & _ & ->). reflexivity.
Qed.

Lemma connect_keeps {A} (proj : DiscordConnection -> A) `{!Stable proj} c w :
  keeps proj w (snd (connect c w)) /\
  awaiting (snd (connect c w)) = awaiting w /\
  activeConnections (snd (connect c w)) = activeConnections w.
Proof.
  unfold connect. simpl. repeat split.
  eapply keeps_trans; [|apply keeps_assign, stable_ws]. apply keeps_same_conns. reflexivity.
Qed.

Section Drops.

Variable parseInt : option string -> JsNumber.

(** The promises, the suspended endpoints and the registry are written by
    the connect and disconnect endpoints, by the handlers of frames and errors
    and by the reconnect timer; every other step leaves them as they are. *)
Lemma step_tables w e :
  match e with
  | PostConnect _ _ | PostDisconnect _ | GatewayMessage _ _ | GatewayError _ _
  | TimeoutFires _ => True
  | _ => promises (step parseInt w e) = promises w /\
         awaiting (step parseInt w e) = awaiting w /\
         activeConnections (step parseInt w e) = activeConnections w
  end.
Proof.
  assert (forall w', steady shouldReconnect w w' ->
            promises w' = promises w /\ awaiting w' = awaiting w /\
            activeConnections w' = activeConnections w) as Hst
    by (intros w' (P & Aw & R & _); auto).
  destruct e as [tok sid0|sid0 act|sid0|sid0|k|k payload|k|k msg|h|i| |j ty sid0|j];
    simpl; try exact I; try (repeat split; fail).
  - unfold postUpdateStatus. destruct sid0 as [id|]; [|repeat split].
    destruct (negb _); [repeat split|].
    destruct (activeConnections w !! id) as [c0|]; [|repeat split].
    pose proof (Hst _ (steady_updatePresence parseInt shouldReconnect c0 act w)) as R.
    destruct (updatePresence parseInt c0 act w) as [[] w1]; exact R.
  - unfold getStatus. destruct (activeConnections w !! sid0) as [c0|]; [|repeat split].
    destruct (conns w !! c0); repeat split.
  - destruct (sockets w !! k) as [s|]; [|repeat split].
    destruct (steady_onClose shouldReconnect (owner s)
                (with_sockets (insert k {| readyState := CLOSED; owner := owner s |}) w))
      as (P & Aw & R & _). auto.
  - destruct (intervals w !! h) as [iv|]; [|repeat split]. destruct (kind iv); apply Hst.
    + apply steady_heartbeatTick; apply _.
    + apply steady_keepAliveTick; apply _.
  - unfold clientSays. destruct (clients w !! j) as [cs|]; [|repeat split].
    case_bool_decide; [|repeat split]. simpl.
    destruct (activeConnections w !! sid0) as [c0|]; [|repeat split].
    destruct (conns w !! c0); repeat split.
  - unfold clientClose. destruct (clients w !! j) as [cs|]; [|repeat split].
    destruct (clientSessionId cs); [|repeat split]. destruct (truthy _); repeat split.
Qed.

Lemma step_registry_same w e :
  match e with
  | PostDisconnect _ | GatewayMessage _ _ | GatewayError _ _ => True
  | _ => activeConnections (step parseInt w e) = activeConnections w
  end.
Proof.
  pose proof (step_tables w e) as H.
  destruct e as [tok sid0|sid0 act|sid0|sid0|k|k payload|k|k msg|h|i| |j ty sid0|j];
    try exact I; try apply H; simpl.
  - unfold postConnect. destruct tok as [t|]; [|reflexivity].
    destruct (negb _); reflexivity.
  - destruct (timeouts w !! i) as [[c0 ms]|]; reflexivity.
Qed.

(** After a frame or an error on the socket [k], the registry is that of
    [resume k] on a world with the registry and the suspended endpoints of
    [w]. *)
Lemma step_gateway_registry w e k :
  (exists payload, e = GatewayMessage k payload) \/ (exists msg, e = GatewayError k msg) ->
  activeConnections (step parseInt w e) = activeConnections w \/
  exists w1, awaiting w1 = awaiting w /\ activeConnections w1 = activeConnections w /\
    step parseInt w e = resume k w1 /\
    ((exists payload, e = GatewayMessage k payload /\
        (promises w1 = promises w \/
         p_op payload = 0 /\ p_t payload = Some "READY" /\
         promises w1 = settleMap k Fulfilled (promises w))) \/
     (exists msg, e = GatewayError k msg /\
        promises w1 = settleMap k (Rejected msg) (promises w))).
Proof.
  intros [[payload ->]|[msg ->]]; simpl;
    (destruct (sockets w !! k) as [s|]; [right|left; reflexivity]).
  - exists (handleMessage parseInt (owner s) k payload w).
    destruct (handleMessage_tables parseInt (owner s) k payload w) as (Aw & Rw & HP).
    repeat split; try assumption. left. exists payload. split; [reflexivity|exact HP].
  - exists (settle k (Rejected msg) (with_sockets (alter closing k) w)).
    destruct (settle_rest k (Rejected msg) (with_sockets (alter closing k) w))
      as (_ & _ & Aw & _ & Rw & _).
    repeat split; try assumption. right. exists msg. split; [reflexivity|].
    apply (settle_promises k (Rejected msg) (with_sockets (alter closing k) w)).
Qed.

(** Every step but an explicit disconnect keeps the keys of the registry. *)
Lemma step_registry w e sid c :
  activeConnections w !! sid = Some c ->
  activeConnections (step parseInt w e) !! sid = None ->
  e = PostDisconnect (Some sid).
Proof.
  intros H Hgone.
  assert (activeConnections (step parseInt w e) = activeConnections w -> False) as Hsame
    by (intros E; rewrite E, H in Hgone; discriminate).
  assert (forall k w1, activeConnections w1 = activeConnections w ->
            step parseInt w e = resume k w1 -> False) as Hresume.
  { intros k w1 Rw E. rewrite E in Hgone.
    destruct (resume_registry k w1) as [R|(sid' & c' & _ & _ & R)];
      rewrite R, Rw in Hgone; [congruence|].
    destruct (decide (sid' = sid)) as [->|Hne].
    - rewrite lookup_insert_eq in Hgone. discriminate.
    - rewrite lookup_insert_ne in Hgone by exact Hne. congruence. }
  pose proof (step_registry_same w e) as Hrest.
  destruct e as [tok sid0|sid0 act|sid0|sid0|k|k payload|k|k msg|h|i| |j ty sid0|j];
    try (exfalso; exact (Hsame Hrest)).
  - simpl in Hgone. destruct (postDisconnect_registry sid0 w) as [R|(id & -> & R)];
      [exfalso; exact (Hsame R)|].
    rewrite R in Hgone. destruct (decide (id = sid)) as [->|Hne]; [reflexivity|].
    rewrite lookup_delete_ne in Hgone by exact Hne. congruence.
  - exfalso. destruct (step_gateway_registry w (GatewayMessage k payload) k)
      as [R|(w1 & _ & Rw & E & _)]; eauto.
  - exfalso. destruct (step_gateway_registry w (GatewayError k msg) k)
      as [R|(w1 & _ & Rw & E & _)]; eauto.
Qed.

(** No event of a socket or a timer changes the reconnect flag. *)
Lemma step_keeps_reconnect w e :
  fromRuntime e = true -> keeps shouldReconnect w (step parseInt w e).
Proof.
  destruct e as [tok sid0|sid0 act|sid0|sid0|k|k payload|k|k msg|h|i| |j ty sid0|j];
    try discriminate; intros _; simpl.
  - apply keeps_same_conns. reflexivity.
  - destruct (sockets w !! k) as [s|]; [|apply keeps_refl].
    eapply keeps_trans; [|apply keeps_same_conns, resume_rest].
    eapply keeps_trans; [|apply (handleMessage_keeps parseInt shouldReconnect)].
    apply (sequenced_keeps shouldReconnect). reflexivity.
  - destruct (sockets w !! k) as [s|]; [|apply keeps_refl].
    eapply keeps_trans; [|apply (steady_onClose shouldReconnect)].
    apply keeps_same_conns. reflexivity.
  - destruct (sockets w !! k) as [s|]; [|apply keeps_refl].
    eapply keeps_trans; [|apply keeps_same_conns, resume_rest].
    eapply keeps_trans; [|apply steady_settle_conns]. apply keeps_same_conns. reflexivity.
  - destruct (intervals w !! h) as [iv|]; [|apply keeps_refl].
    destruct (kind iv).
    + apply (steady_heartbeatTick shouldReconnect).
    + apply (steady_keepAliveTick parseInt shouldReconnect).
  - destruct (timeouts w !! i) as [[c0 ms]|]; [|apply keeps_refl].
    eapply keeps_trans;
      [|apply (proj1 (connect_keeps shouldReconnect c0 (with_timeouts (delete i) w)))].
    apply keeps_same_conns. reflexivity.
Qed.

(** A step other than the disconnect request for [sid] leaves the entry
    of [sid] as it is, provided no session being created was given the same
    id. *)
Lemma step_registry_entry w e sid c :
  activeConnections w !! sid = Some c ->
  (forall k c', awaiting w !! k <> Some (sid, c')) ->
  e <> PostDisconnect (Some sid) ->
  activeConnections (step parseInt w e) !! sid = Some c.
Proof.
  intros H Hfresh Hne.
  assert (forall k w1, awaiting w1 = awaiting w ->
            activeConnections w1 = activeConnections w ->
            activeConnections (resume k w1) !! sid = Some c) as Hresume.
  { intros k w1 Aw Rw.
    destruct (resume_registry k w1) as [R|(sid' & c' & Hk & _ & R)];
      rewrite R, Rw; [exact H|].
    rewrite Aw in Hk. destruct (decide (sid' = sid)) as [->|Hsid].
    - destruct (Hfresh k c' Hk).
    - rewrite lookup_insert_ne by exact Hsid. exact H. }
  pose proof (step_registry_same w e) as Hrest.
  destruct e as [tok sid0|sid0 act|sid0|sid0|k|k payload|k|k msg|h|i| |j ty sid0|j];
    try (rewrite Hrest; exact H).
  - simpl. destruct (postDisconnect_registry sid0 w) as [R|(id & -> & R)];
      rewrite R; [exact H|].
    rewrite lookup_delete_ne; [exact H|]. congruence.
  - destruct (step_gateway_registry w (GatewayMessage k payload) k)
      as [R|(w1 & Aw & Rw & E & _)]; [eauto|rewrite R; exact H|].
    rewrite E. apply Hresume; assumption.
  - destruct (step_gateway_registry w (GatewayError k msg) k)
      as [R|(w1 & Aw & Rw & E & _)]; [eauto|rewrite R; exact H|].
    rewrite E. apply Hresume; assumption.
Qed.

(** C4.  Whatever happens to the gateway socket, the registry keeps the entry
    of a session: the only step after which an id is no longer registered is
    the disconnect request for that id, and every other step leaves the id
    with its session (as long as no session being created was given the same
    id).  No event of a socket or a timer (a close, an error, a frame such as
    the reconnect request op 7) changes the reconnect flag of any session.
    The handler of a socket's close schedules one fresh connect after 5000 ms
    when the reconnect flag of the session is set, and none when it is not. *)
Theorem socket_drop_keeps_session (w : World) (e : Event) :
  (forall sid c,
     activeConnections w !! sid = Some c ->
     activeConnections (step parseInt w e) !! sid = None ->
     e = PostDisconnect (Some sid)) /\
  (forall sid c,
     activeConnections w !! sid = Some c ->
     (forall k c', awaiting w !! k <> Some (sid, c')) ->
     e <> PostDisconnect (Some sid) ->
     activeConnections (step parseInt w e) !! sid = Some c) /\
  (fromRuntime e = true ->
   forall c cn, conns w !! c = Some cn ->
     exists cn', conns (step parseInt w e) !! c = Some cn' /\
                 shouldReconnect cn' = shouldReconnect cn) /\
  (forall k s cn,
     e = GatewayClose k -> sockets w !! k = Some s -> conns w !! owner s = Some cn ->
     timeouts (step parseInt w e) =
       timeouts w ++ (if shouldReconnect cn then [(owner s, 5000)] else [])).
Proof.
  split; [intros sid c; apply step_registry|].
  split; [intros sid c; apply step_registry_entry|].
  split; [intros He; apply step_keeps_reconnect; exact He|].
  intros k s cn -> Hs Hcn. simpl. rewrite Hs.
  erewrite onClose_timeouts by exact Hcn. reflexivity.
Qed.

End Drops.

Lemma socket_drop_keeps_session_witness :
  activeConnections (step parseDigits closingWorld (GatewayClose 1)) !! "s1" = Some 0%nat /\
  (exists cn', conns (step parseDigits readyWorld (GatewayMessage 1 reconnectFrame)) !! 0%nat
                 = Some cn' /\ shouldReconnect cn' = true) /\
  timeouts (step parseDigits closingWorld (GatewayClose 1)) = [(0%nat, 5000)].
Proof.
  destruct (socket_drop_keeps_session parseDigits closingWorld (GatewayClose 1))
    as (_ & Hentry & _ & Hclose).
  split; [|split].
  - apply Hentry; [vm_compute; reflexivity| |discriminate].
    intros k c' Hk.
    assert (awaiting closingWorld = ∅) as Hnone by (vm_compute; reflexivity).
    rewrite Hnone, lookup_empty in Hk. discriminate Hk.
  - destruct (socket_drop_keeps_session parseDigits readyWorld
                (GatewayMessage 1 reconnectFrame)) as (_ & _ & Hflag & _).
    apply (Hflag eq_refl 0%nat readyConnection). vm_compute; reflexivity.
  - apply (Hclose 1%nat {| readyState := CLOSING; owner := 0 |} readyConnection);
      vm_compute; reflexivity.
Defined.

(** ** Creating a session *)

Lemma awaitsPending_same w w' :
  promises w' = promises w -> awaiting w' = awaiting w ->
  awaitsPending w -> awaitsPending w'.
Proof. intros P A Inv k x. rewrite P, A. apply Inv. Qed.

Lemma settleMap_ne k k' st m : k <> k' -> settleMap k st m !! k' = m !! k'.
Proof.
  intros Hne. unfold settleMap. destruct (m !! k) as [[]|]; try reflexivity.
  apply lookup_insert_ne, Hne.
Qed.

Lemma awaitsPending_resume k st w w' :
  st <> Pending -> awaitsPending w ->
  awaiting w' = awaiting w -> promises w' = settleMap k st (promises w) ->
  awaitsPending (resume k w').
Proof.
  intros Hst Inv Aw Pw k' x. unfold resume. rewrite Aw, Pw.
  destruct (awaiting w !! k) as [[sid c]|] eqn:Hk.
  - assert (settleMap k st (promises w) !! k = Some st) as ->
      by (unfold settleMap; rewrite (Inv k _ Hk); apply lookup_insert_eq).
    assert (forall w2, awaiting w2 = delete k (awaiting w) ->
              promises w2 = settleMap k st (promises w) ->
              awaiting w2 !! k' = Some x -> promises w2 !! k' = Some Pending) as Hdel.
    { intros w2 A2 P2. rewrite A2, P2. destruct (decide (k = k')) as [<-|Hne].
      - rewrite lookup_delete_eq. discriminate.
      - rewrite lookup_delete_ne, settleMap_ne by exact Hne. apply Inv. }
    destruct st as [| |msg]; [congruence|..]; apply Hdel; simpl;
      rewrite ?Aw, ?Pw; reflexivity.
  - rewrite Aw, Pw. intros Hx.
    destruct (decide (k = k')) as [<-|Hne]; [congruence|].
    rewrite settleMap_ne by exact Hne. apply (Inv k' x Hx).
Qed.

Section Creation.

Variable parseInt : option string -> JsNumber.

Lemma awaitsPending_step w e : awaitsPending w -> awaitsPending (step parseInt w e).
Proof.
  intros Inv. pose proof (step_tables parseInt w e) as Hquiet.
  destruct e as [tok sid0|sid0 act|sid0|sid0|k|k payload|k|k msg|h|i| |j ty sid0|j];
    try (destruct Hquiet as (P & Aw & _);
         eapply awaitsPending_same; [exact P|exact Aw|exact Inv]);
    simpl.
  - unfold postConnect. destruct tok as [t|]; [|exact Inv].
    destruct (negb _); [exact Inv|]. intros k x. simpl.
    destruct (decide (S (next w) = k)) as [<-|Hne].
    + rewrite !lookup_insert_eq. reflexivity.
    + rewrite !lookup_insert_ne by exact Hne. apply Inv.
  - unfold postDisconnect. destruct sid0 as [id|]; [|exact Inv].
    destruct (negb _); [exact Inv|].
    destruct (activeConnections w !! id) as [c0|]; [|exact Inv].
    destruct (disconnect_tables c0 w) as (P & Aw & _).
    eapply awaitsPending_same; [| |exact Inv]; assumption.
  - destruct (sockets w !! k) as [s|]; [|exact Inv].
    destruct (handleMessage_tables parseInt (owner s) k payload w)
      as (Aw & _ & [P|(_ & _ & P)]).
    + assert (awaitsPending (handleMessage parseInt (owner s) k payload w)) as Inv'
        by (eapply awaitsPending_same; [exact P|exact Aw|exact Inv]).
      intros k' x. unfold resume.
      destruct (awaiting _ !! k) as [[sid c]|] eqn:Hk; [|apply Inv'].
      rewrite (Inv' k _ Hk). apply Inv'.
    + apply (awaitsPending_resume k Fulfilled w); [discriminate|assumption..].
  - destruct (sockets w !! k) as [s|]; [|exact Inv].
    apply (awaitsPending_resume k (Rejected msg) w); [discriminate|exact Inv|..].
    + apply (settle_rest k (Rejected msg) (with_sockets (alter closing k) w)).
    + apply (settle_promises k (Rejected msg) (with_sockets (alter closing k) w)).
  - destruct (timeouts w !! i) as [[c0 ms]|]; [|exact Inv]. intros k x Hx. simpl in *.
    destruct (decide (next w = k)) as [<-|Hne].
    + rewrite lookup_insert_eq. reflexivity.
    + rewrite lookup_insert_ne by exact Hne. apply (Inv k x Hx).
Qed.

Lemma awaitsPending_run es w : awaitsPending w -> awaitsPending (run parseInt w es).
Proof.
  revert w. induction es as [|e es IH]; intros w Inv; [exact Inv|].
  simpl. apply IH, awaitsPending_step, Inv.
Qed.

Lemma awaitsPending_empty : awaitsPending emptyWorld.
Proof. intros k x H. simpl in H. rewrite lookup_empty in H. discriminate. Qed.

(** A step that adds an id to the registry is the handling of a READY frame
    on the socket whose promise an endpoint awaits. *)
Lemma step_registers w e sid :
  awaitsPending w ->
  activeConnections w !! sid = None ->
  is_Some (activeConnections (step parseInt w e) !! sid) ->
  exists k payload c,
    e = GatewayMessage k payload /\ p_op payload = 0 /\ p_t payload = Some "READY" /\
    awaiting w !! k = Some (sid, c) /\
    activeConnections (step parseInt w e) !! sid = Some c.
Proof.
  intros Inv Hnone [c Hsome].
  assert (activeConnections (step parseInt w e) = activeConnections w -> False) as Hsame
    by (intros E; rewrite E, Hnone in Hsome; discriminate).
  assert (forall k,
            (exists payload, e = GatewayMessage k payload) \/
            (exists msg, e = GatewayError k msg) ->
            exists payload, e = GatewayMessage k payload /\ p_op payload = 0 /\
              p_t payload = Some "READY" /\ awaiting w !! k = Some (sid, c) /\
              activeConnections (step parseInt w e) !! sid = Some c) as Hgate.
  { intros k He.
    destruct (step_gateway_registry parseInt w e k He)
      as [R|(w1 & Aw & Rw & E & Hp)]; [destruct (Hsame R)|].
    destruct (resume_registry k w1) as [R|(sid' & c' & Hk & Hful & R)];
      [rewrite E, R, Rw in Hsame; destruct (Hsame eq_refl)|].
    rewrite Aw in Hk. pose proof (Inv k _ Hk) as Hpending.
    assert (settleMap k Fulfilled (promises w) !! k = Some Fulfilled) as Hset
      by (unfold settleMap; rewrite Hpending; apply lookup_insert_eq).
    destruct Hp as [(payload & -> & [P|(Hop & Ht & P)])|(msg & -> & P)].
    - rewrite P in Hful. congruence.
    - exists payload. rewrite E in Hsome |- *. rewrite R, Rw in Hsome |- *.
      destruct (decide (sid' = sid)) as [->|Hne].
      + rewrite lookup_insert_eq in Hsome. injection Hsome as ->.
        rewrite lookup_insert_eq. repeat split; assumption.
      + rewrite lookup_insert_ne in Hsome by exact Hne. congruence.
    - rewrite P in Hful. unfold settleMap in Hful.
      rewrite Hpending, lookup_insert_eq in Hful. discriminate. }
  pose proof (step_registry_same parseInt w e) as Hrest.
  destruct e as [tok sid0|sid0 act|sid0|sid0|k|k payload|k|k msg|h|i| |j ty sid0|j];
    try (destruct (Hsame Hrest)).
  - exfalso. simpl in Hsome.
    destruct (postDisconnect_registry sid0 w) as [R|(id & -> & R)]; [exact (Hsame R)|].
    rewrite R in Hsome. apply lookup_delete_Some in Hsome as [_ Hsome]. congruence.
  - destruct (Hgate k) as (payload' & E & H); [eauto|].
    injection E as <-. exists k, payload, c. split; [reflexivity|exact H].
  - destruct (Hgate k) as (payload' & E & _); [eauto|]. discriminate.
Qed.

(** C8.  When the socket of a session being created reports an error while
    the promise of its [connect()] is still pending, the endpoint answers
    with code 500 and the error, and the registry is left as it was.  In any
    run of the server from its start, a step that adds a session id to the
    registry is the handling of a READY frame on the socket whose promise the
    endpoint of that session awaits. *)
Theorem create_session_failure :
  (forall w k s sid c msg,
     sockets w !! k = Some s -> awaiting w !! k = Some (sid, c) ->
     promises w !! k = Some Pending ->
     let w' := step parseInt w (GatewayError k msg) in
     log w' = log w ++ [Respond {| statusCode := 500;
                                   body := ErrorBody "Failed to connect to Discord" msg |}] /\
     activeConnections w' = activeConnections w /\
     awaiting w' !! k = None /\ promises w' !! k = Some (Rejected msg)) /\
  (forall es e sid,
     let w := run parseInt emptyWorld es in
     activeConnections w !! sid = None ->
     is_Some (activeConnections (step parseInt w e) !! sid) ->
     exists k payload c,
       e = GatewayMessage k payload /\ p_op payload = 0 /\
       p_t payload = Some "READY" /\ awaiting w !! k = Some (sid, c) /\
       activeConnections (step parseInt w e) !! sid = Some c).
Proof.
  split.
  - intros w k s sid c msg Hs Hk Hp. simpl. rewrite Hs.
    unfold resume, settle. simpl. rewrite Hp. simpl.
    rewrite Hk, lookup_insert_eq. simpl.
    rewrite lookup_delete_eq, lookup_insert_eq. repeat split.
  - intros es e sid w. apply step_registers.
    apply awaitsPending_run, awaitsPending_empty.
Qed.

End Creation.

Lemma create_session_failure_witness :
  log (step parseDigits connectingWorld (GatewayError 1 (Some "ECONNREFUSED"))) =
    [NewWebSocket 1;
     Respond {| statusCode := 500;
                body := ErrorBody "Failed to connect to Discord" (Some "ECONNREFUSED") |}] /\
  activeConnections (step parseDigits connectingWorld (GatewayError 1 (Some "ECONNREFUSED")))
    = activeConnections connectingWorld /\
  exists k payload c,
    GatewayMessage 1 (readyFrame 1) = GatewayMessage k payload /\ p_op payload = 0 /\
    p_t payload = Some "READY" /\ awaiting identifiedWorld !! k = Some ("s1", c) /\
    activeConnections (step parseDigits identifiedWorld (GatewayMessage 1 (readyFrame 1)))
      !! "s1" = Some c.
Proof.
  destruct (create_session_failure parseDigits) as [Herror Hready].
  destruct (Herror connectingWorld 1%nat {| readyState := CONNECTING; owner := 0 |}
              "s1" 0%nat (Some "ECONNREFUSED"))
    as (Hlog & Hreg & _); [vm_compute; reflexivity..|].
  split; [exact Hlog|]. split; [exact Hreg|].
  refine (Hready [PostConnect (Some "tok") "s1"; GatewayOpen 1; GatewayMessage 1 helloFrame]
            (GatewayMessage 1 (readyFrame 1)) "s1" _ _).
  - vm_compute; reflexivity.
  - exists 0%nat. vm_compute; reflexivity.
Defined.

(** ** Sequence numbers *)

Section Sequence.

Variable parseInt : option string -> JsNumber.

(** C9 (as amended).  Handling an inbound frame sets the stored sequence to
    the number on the frame when that number is not zero, and leaves it as it
    was when the frame has no number or the number zero.  The code does not
    compare numbers: the stored sequence does not go down on a frame whose
    number is not below the stored one, and it is not reset when the session
    reconnects.  A heartbeat frame carries the stored sequence. *)
Theorem sequence_tracking (w : World) (k : nat) (s : WebSocket)
    (cn : DiscordConnection) (payload : Payload) :
  sockets w !! k = Some s -> conns w !! owner s = Some cn ->
  (exists cn',
     conns (step parseInt w (GatewayMessage k payload)) !! owner s = Some cn' /\
     lastSequence cn' =
       (if truthyNumber (p_s payload) then p_s payload else lastSequence cn) /\
     (forall n, p_s payload = Some n -> n <> 0 -> lastSequence cn' = Some n) /\
     ((forall m n, lastSequence cn = Some m -> p_s payload = Some n -> m <= n) ->
      notBefore (lastSequence cn) (lastSequence cn'))) /\
  (forall h iv k2,
     intervals w !! h = Some iv -> kind iv = HeartbeatTimer ->
     timerOwner iv = owner s -> heartbeatAcked cn = true ->
     ws cn = Some k2 -> isOpen k2 w = true ->
     log (step parseInt w (IntervalFires h)) =
       log w ++ [WsSend k2 {| op := 1; d := DSequence (lastSequence cn) |}]).
Proof.
  intros Hs Hcn. split.
  - destruct (handleMessage_lastSequence parseInt (owner s) k payload w cn Hcn)
      as (cn' & Hcn' & Hseq).
    exists cn'. simpl. rewrite Hs.
    destruct (resume_rest k (handleMessage parseInt (owner s) k payload w)) as (-> & _).
    split; [exact Hcn'|]. split; [exact Hseq|]. split.
    + intros n Hn Hnz. rewrite Hseq, Hn. simpl.
      destruct (Z.eqb_spec n 0); [contradiction|reflexivity].
    + intros Hmono. rewrite Hseq. unfold notBefore.
      destruct (lastSequence cn) as [m|] eqn:Hm; [|exact I].
      destruct (p_s payload) as [n|] eqn:Hn; simpl; [|lia].
      destruct (n =? 0); simpl; [lia|]. apply Hmono; reflexivity.
  - intros h iv k2 Hiv Hkind Hown Hack Hws Hopen. simpl.
    rewrite Hiv, Hkind, Hown. unfold heartbeatTick, connected.
    rewrite Hcn, Hack, Hws, Hopen. reflexivity.
Qed.

End Sequence.

(** A frame with the sequence number 0 does not change the stored sequence,
    and the READY frame of a reconnected session lowers it from 5 to 1 while
    the new socket is open. *)
Lemma sequence_counterexample :
  lastSequence <$>
    conns (run parseDigits readyWorld
             [GatewayMessage 1 (dispatchFrame 5); GatewayMessage 1 (dispatchFrame 0)])
      !! 0%nat = Some (Some 5) /\
  connected 0 resumedWorld = true /\
  lastSequence <$> conns resumedWorld !! 0%nat = Some (Some 5) /\
  lastSequence <$> conns (step parseDigits resumedWorld (GatewayMessage 4 (readyFrame 1)))
      !! 0%nat = Some (Some 1).
Proof. vm_compute. repeat split. Qed.

Lemma sequence_tracking_witness :
  (exists cn',
     conns (step parseDigits readyWorld (GatewayMessage 1 (dispatchFrame 5))) !! 0%nat
       = Some cn' /\ lastSequence cn' = Some 5) /\
  log (step parseDigits readyWorld (IntervalFires 2)) =
    log readyWorld ++ [WsSend 1 {| op := 1; d := DSequence (Some 1) |}].
Proof.
  destruct (sequence_tracking parseDigits readyWorld 1 {| readyState := OPEN; owner := 0 |}
              readyConnection (dispatchFrame 5)) as [(cn' & Hcn' & Hseq & _) Hbeat];
    [vm_compute; reflexivity..|].
  split; [exists cn'; split; [exact Hcn'|exact Hseq]|].
  apply (Hbeat 2%nat heartbeatTimer 1%nat); vm_compute; reflexivity.
Defined.

(** ** Removing a session *)

Section Removal.

Variable parseInt : option string -> JsNumber.

(** C7 (as amended).  The disconnect request for a non-empty id that is not
    in the registry is answered with code 404 and changes nothing but the
    log; without an id, or with the empty one, it is answered with code 400
    and changes nothing either.  For a non-empty id in the registry the
    handler calls [disconnect()] on the session held there and then deletes
    the entry: afterwards the id is not registered, the reconnect flag of the
    session is off and its socket is not open. *)
Theorem remove_session (w : World) :
  (forall sid, truthy (Some sid) = true -> activeConnections w !! sid = None ->
     step parseInt w (PostDisconnect (Some sid)) =
       respond 404 (ErrorBody "Session not found" None) w) /\
  (forall sid, truthy sid = false ->
     step parseInt w (PostDisconnect sid) =
       respond 400 (ErrorBody "Session ID is required" None) w) /\
  (forall sid c cn,
     truthy (Some sid) = true -> activeConnections w !! sid = Some c ->
     conns w !! c = Some cn ->
     let w' := step parseInt w (PostDisconnect (Some sid)) in
     w' = respond 200 (SuccessBody "Disconnected successfully")
            (with_activeConnections (delete sid) (disconnect c w)) /\
     activeConnections w' !! sid = None /\
     exists cn', conns w' !! c = Some cn' /\ shouldReconnect cn' = false /\
       forall k, ws cn' = Some k -> isOpen k w' = false).
Proof.
  split; [|split].
  - intros sid Hsid Hnone. cbn [step]. unfold postDisconnect. rewrite Hsid, Hnone. reflexivity.
  - intros [sid|] Hsid; cbn [step]; unfold postDisconnect; [rewrite Hsid|]; reflexivity.
  - intros sid c cn Hsid Hreg Hcn w'. subst w'. cbn [step]. unfold postDisconnect.
    rewrite Hsid, Hreg. cbn [negb]. split; [reflexivity|].
    split; [apply lookup_delete_eq|].
    destruct (disconnect_result w c cn Hcn) as (cn1 & Hcn1 & Hoff & _ & _ & _ & Hws & Hopen).
    exists cn1. split; [exact Hcn1|]. split; [exact Hoff|].
    intros k Hk. apply Hopen. congruence.
Qed.

End Removal.

(** The disconnect request with the empty id is answered with code 400, not
    with the not-found code 404. *)
Lemma remove_session_counterexample :
  activeConnections readyWorld !! "" = None /\
  log (step parseDigits readyWorld (PostDisconnect (Some ""))) =
    log readyWorld ++
    [Respond {| statusCode := 400; body := ErrorBody "Session ID is required" None |}].
Proof. vm_compute. split; reflexivity. Qed.

Lemma remove_session_witness :
  step parseDigits readyWorld (PostDisconnect (Some "nope")) =
    respond 404 (ErrorBody "Session not found" None) readyWorld /\
  activeConnections (step parseDigits readyWorld (PostDisconnect (Some "s1"))) !! "s1" = None /\
  isOpen 1 (step parseDigits readyWorld (PostDisconnect (Some "s1"))) = false.
Proof.
  destruct (remove_session parseDigits readyWorld) as (Habsent & _ & Hpresent).
  split; [apply Habsent; vm_compute; reflexivity|].
  destruct (Hpresent "s1" 0%nat readyConnection) as (_ & Hgone & cn' & Hcn' & _ & Hclosed);
    [vm_compute; reflexivity..|].
  split; [exact Hgone|]. apply Hclosed.
  vm_compute in Hcn'. injection Hcn' as <-. reflexivity.
Defined.

(** A disconnect request does not cancel a pending reconnect: the timer
    opens a new socket for the removed session, which completes the handshake
    with no entry in the registry. *)
Example orphan_after_remove :
  activeConnections orphanWorld = ∅ /\ connected 0 orphanWorld = true /\
  shouldReconnect <$> conns orphanWorld !! 0%nat = Some false.
Proof. vm_compute. repeat split. Qed.

(** * Further properties of the session engine *)

(** ** The handshake *)

Section Handshake.

Variable parseInt : option string -> JsNumber.

(** X1.  Handling a hello frame hands one frame to the current socket of the
    session, the identify frame with its credential; starts a heartbeat timer
    with the interval of the frame, which becomes [heartbeatTask]; marks the
    heartbeat as acknowledged; and stops no timer: a timer that was running
    keeps running. *)
Theorem hello_identifies (w : World) (k : nat) (s : WebSocket)
    (cn : DiscordConnection) (k' : nat) (payload : Payload) :
  sockets w !! k = Some s -> conns w !! owner s = Some cn -> ws cn = Some k' ->
  p_op payload = 10 ->
  let w' := step parseInt w (GatewayMessage k payload) in
  sentFrames (log w') = sentFrames (log w) ++ [(k', identify (token cn))] /\
  intervals w' !! next w =
    Some {| kind := HeartbeatTimer; timerOwner := owner s;
            delay := heartbeat_interval payload |} /\
  (exists cn', conns w' !! owner s = Some cn' /\ heartbeatAcked cn' = true /\
     heartbeatTask cn' = Some (next w)) /\
  (forall h iv, h <> next w -> intervals w !! h = Some iv -> intervals w' !! h = Some iv).
Proof.
  intros Hs Hcn Hws Hop w'. subst w'. simpl. rewrite Hs.
  destruct (resume_rest k (handleMessage parseInt (owner s) k payload w))
    as (-> & _ & _ & _ & ->).
  rewrite resume_sentFrames. unfold handleMessage. rewrite Hop. simpl.
  assert (exists cn0, conns (sequenced (owner s) payload w) !! owner s = Some cn0 /\
            ws cn0 = Some k' /\ token cn0 = token cn) as (cn0 & Hcn0 & Hws0 & Htok).
  { unfold sequenced. destruct (truthyNumber _).
    - simpl. rewrite lookup_alter_eq, Hcn. simpl. eauto.
    - eauto. }
  fold (sequenced (owner s) payload w). rewrite Hcn0, Hws0, Htok.
  assert (next (sequenced (owner s) payload w) = next w /\
          intervals (sequenced (owner s) payload w) = intervals w /\
          log (sequenced (owner s) payload w) = log w) as (Hn & Hi & Hl)
    by (unfold sequenced; destruct (truthyNumber _); repeat split).
  simpl. rewrite Hn, Hi, Hl. repeat split.
  - rewrite !sentFrames_app. simpl. rewrite app_nil_r. reflexivity.
  - apply lookup_insert_eq.
  - rewrite !lookup_alter_eq, Hcn0. simpl. eauto.
  - intros h iv Hne Hiv. rewrite lookup_insert_ne by congruence. exact Hiv.
Qed.

(** X2.  A heartbeat that is acknowledged before the next tick is followed by
    another heartbeat: over a tick, an acknowledgement and a second tick the
    session sends two heartbeat frames on its open socket, the second with the
    sequence stored by then, and no socket changes state. *)
Theorem acknowledged_heartbeat (w : World) (h : nat) (iv : Interval)
    (cn : DiscordConnection) (k k2 : nat) (s2 : WebSocket) (ack : Payload) :
  intervals w !! h = Some iv -> kind iv = HeartbeatTimer ->
  conns w !! timerOwner iv = Some cn -> heartbeatAcked cn = true ->
  ws cn = Some k -> isOpen k w = true ->
  sockets w !! k2 = Some s2 -> owner s2 = timerOwner iv -> p_op ack = 11 ->
  let w3 := run parseInt w [IntervalFires h; GatewayMessage k2 ack; IntervalFires h] in
  sentFrames (log w3) =
    sentFrames (log w) ++
    [(k, {| op := 1; d := DSequence (lastSequence cn) |});
     (k, {| op := 1;
            d := DSequence (if truthyNumber (p_s ack) then p_s ack
                            else lastSequence cn) |})] /\
  sockets w3 = sockets w.
Proof.
  intros Hiv Hkind Hcn Hack Hws Hopen Hs2 Hown Hop w3. subst w3.
  set (c := timerOwner iv) in *.
  change (run parseInt w [IntervalFires h; GatewayMessage k2 ack; IntervalFires h])
    with (step parseInt (step parseInt (step parseInt w (IntervalFires h))
                           (GatewayMessage k2 ack)) (IntervalFires h)).
  (* first tick *)
  assert (step parseInt w (IntervalFires h) =
          call (WsSend k {| op := 1; d := DSequence (lastSequence cn) |})
            (assign c (set_heartbeatAcked false) w)) as ->.
  { simpl. rewrite Hiv, Hkind. unfold heartbeatTick, connected.
    fold c. rewrite Hcn, Hack, Hws, Hopen. reflexivity. }
  set (w1 := call _ (assign c (set_heartbeatAcked false) w)).
  assert (conns w1 !! c = Some (set_heartbeatAcked false cn)) as Hcn1
    by (subst w1; simpl; rewrite lookup_alter_eq, Hcn; reflexivity).
  assert (sockets w1 = sockets w /\ intervals w1 = intervals w /\
          log w1 = log w ++ [WsSend k {| op := 1; d := DSequence (lastSequence cn) |}])
    as (Hsock1 & Hint1 & Hlog1) by (subst w1; repeat split).
  clearbody w1.
  (* the acknowledgement *)
  assert (exists cn2,
            conns (step parseInt w1 (GatewayMessage k2 ack)) !! c = Some cn2 /\
            heartbeatAcked cn2 = true /\ ws cn2 = Some k /\
            lastSequence cn2 =
              (if truthyNumber (p_s ack) then p_s ack else lastSequence cn) /\
            sockets (step parseInt w1 (GatewayMessage k2 ack)) = sockets w /\
            intervals (step parseInt w1 (GatewayMessage k2 ack)) = intervals w /\
            sentFrames (log (step parseInt w1 (GatewayMessage k2 ack))) =
              sentFrames (log w1))
    as (cn2 & Hcn2 & Hack2 & Hws2 & Hseq2 & Hsock2 & Hint2 & Hlog2).
  { simpl. rewrite Hsock1, Hs2, Hown.
    destruct (resume_rest k2 (handleMessage parseInt c k2 ack w1))
      as (-> & -> & _ & _ & ->).
    rewrite resume_sentFrames. unfold handleMessage. rewrite Hop.
    destruct (truthyNumber (p_s ack)); simpl;
      rewrite ?lookup_alter_eq, Hcn1; simpl;
      rewrite ?lookup_alter_eq, ?Hcn1; simpl; eexists; repeat split; assumption. }
  set (w2 := step parseInt w1 (GatewayMessage k2 ack)) in *. clearbody w2.
  (* second tick *)
  simpl. rewrite Hint2, Hiv, Hkind. unfold heartbeatTick, connected. fold c.
  rewrite Hcn2, Hack2, Hws2. unfold isOpen in *. rewrite Hsock2.
  destruct (sockets w !! k) as [sk|]; [|discriminate]. rewrite Hopen. simpl.
  rewrite Hsock2. split; [|reflexivity].
  rewrite sentFrames_app, Hlog2, Hlog1, sentFrames_app. simpl.
  rewrite Hseq2, <- app_assoc. reflexivity.
Qed.

End Handshake.

Lemma hello_identifies_witness :
  sentFrames (log identifiedWorld) = [(1%nat, identify "tok")] /\
  intervals identifiedWorld !! 2%nat = Some heartbeatTimer.
Proof.
  destruct (hello_identifies parseDigits
              (run parseDigits emptyWorld [PostConnect (Some "tok") "s1"; GatewayOpen 1])
              1%nat {| readyState := OPEN; owner := 0 |}
              {| token := "tok"; sessionId := "s1"; ws := Some 1%nat;
                 heartbeatTask := None; lastSequence := None; heartbeatAcked := true;
                 shouldReconnect := true; currentActivity := None;
                 keepAliveTask := None |}
              1%nat helloFrame) as (Hsent & Htimer & _);
    [vm_compute; reflexivity..|].
  split; [exact Hsent|exact Htimer].
Defined.

Lemma acknowledged_heartbeat_witness :
  sentFrames (log (run parseDigits readyWorld
                     [IntervalFires 2; GatewayMessage 1 ackFrame; IntervalFires 2])) =
    sentFrames (log readyWorld) ++
    [(1%nat, {| op := 1; d := DSequence (Some 1) |});
     (1%nat, {| op := 1; d := DSequence (Some 1) |})].
Proof.
  destruct (acknowledged_heartbeat parseDigits readyWorld 2%nat heartbeatTimer
              readyConnection 1%nat 1%nat {| readyState := OPEN; owner := 0 |} ackFrame)
    as [Hsent _]; [vm_compute; reflexivity..|].
  exact Hsent.
Defined.

(** ** The notification channel *)

Section Hub.

Variable parseInt : option string -> JsNumber.

(** X3.  A [register] message makes its socket the subscriber of the session
    id, whoever was subscribed before: from then on [notifyClient] for that id
    sends to this socket when it is open, and to no other.  The socket is
    sent a status snapshot at once exactly when the id is registered. *)
Theorem register_replaces_subscriber (w : World) (j : nat) (cs : ClientSocket)
    (sid : string) :
  clients w !! j = Some cs ->
  let w' := step parseInt w (ClientSays j "register" sid) in
  clientWebSockets w' !! sid = Some j /\
  (forall data,
     notifyClient sid data w' =
       if bool_decide (clientReadyState cs = OPEN) then call (ClientSend j data) w'
       else w') /\
  log w' = log w ++
    match activeConnections w !! sid with
    | Some c =>
        match conns w !! c with
        | Some cn => [ClientSend j (status_message (connectedValue cn w) (currentActivity cn))]
        | None => []
        end
    | None => []
    end.
Proof.
  intros Hj w'. subst w'. simpl. unfold clientSays. rewrite Hj. simpl.
  set (w1 := with_clientWebSockets _ _).
  assert (forall w2, clientWebSockets w2 = clientWebSockets w1 ->
            clients w2 = clients w1 ->
            clientWebSockets w2 !! sid = Some j /\
            forall data, notifyClient sid data w2 =
              if bool_decide (clientReadyState cs = OPEN)
              then call (ClientSend j data) w2 else w2) as Hsub.
  { intros w2 E1 E2. assert (clientWebSockets w2 !! sid = Some j) as Hsid
      by (rewrite E1; subst w1; simpl; apply lookup_insert_eq).
    split; [exact Hsid|]. intros data. unfold notifyClient. rewrite Hsid, E2.
    subst w1. simpl. rewrite lookup_insert_eq. reflexivity. }
  destruct (activeConnections w !! sid) as [c|];
    [destruct (conns w !! c) as [cn|]|].
  - destruct (Hsub (call (ClientSend j (status_message (connectedValue cn w1)
                                          (currentActivity cn))) w1) eq_refl eq_refl)
      as [H1 H2].
    split; [exact H1|]. split; [exact H2|]. reflexivity.
  - destruct (Hsub w1 eq_refl eq_refl) as [H1 H2].
    split; [exact H1|]. split; [exact H2|]. simpl. rewrite app_nil_r. reflexivity.
  - destruct (Hsub w1 eq_refl eq_refl) as [H1 H2].
    split; [exact H1|]. split; [exact H2|]. simpl. rewrite app_nil_r. reflexivity.
Qed.

(** X4.  When a client socket that once registered a session id closes, the
    subscription of that id is deleted whichever socket holds it by then: a
    notification for the id is dropped afterwards, also when another socket
    had registered the id in the meantime and is still open. *)
Theorem stale_close_unsubscribes (w : World) (j : nat) (cs : ClientSocket)
    (sid : string) :
  clients w !! j = Some cs -> clientSessionId cs = Some sid -> sid <> "" ->
  let w' := step parseInt w (ClientClose j) in
  clientWebSockets w' = delete sid (clientWebSockets w) /\
  forall data, notifyClient sid data w' = w'.
Proof.
  intros Hj Hsid Hne w'. subst w'. simpl. unfold clientClose. rewrite Hj, Hsid.
  assert (truthy (Some sid) = true) as ->.
  { simpl. destruct (String.eqb_spec sid ""); [contradiction|reflexivity]. }
  split; [reflexivity|]. intros data. unfold notifyClient. simpl.
  rewrite lookup_delete_eq. reflexivity.
Qed.

End Hub.

Lemma register_replaces_subscriber_witness :
  clientWebSockets resubscribedWorld !! "s1" = Some 5%nat /\
  notifyClient "s1" discord_ready resubscribedWorld =
    call (ClientSend 5 discord_ready) resubscribedWorld.
Proof.
  unfold resubscribedWorld.
  destruct (register_replaces_subscriber parseDigits secondClientWorld 5%nat
              {| clientReadyState := OPEN; clientSessionId := None |} "s1")
    as (Hsub & Hnotify & _); [vm_compute; reflexivity|].
  split; [exact Hsub|]. exact (Hnotify discord_ready).
Defined.

Lemma stale_close_unsubscribes_witness :
  clientWebSockets resubscribedWorld !! "s1" = Some 5%nat /\
  notifyClient "s1" discord_ready (step parseDigits resubscribedWorld (ClientClose 4)) =
    step parseDigits resubscribedWorld (ClientClose 4).
Proof.
  split; [vm_compute; reflexivity|].
  destruct (stale_close_unsubscribes parseDigits resubscribedWorld 4%nat
              {| clientReadyState := OPEN; clientSessionId := Some "s1" |} "s1")
    as [_ Hdrop]; [vm_compute; reflexivity|reflexivity|discriminate|].
  exact (Hdrop discord_ready).
Defined.

(** ** The keep-alive timer *)

Section KeepAlive.

Variable parseInt : option string -> JsNumber.



(** X6.  For an activity whose artwork is a CDN image URL the two composers
    disagree: [updatePresence] sends the large image [spotify:<id>], the
    keep-alive timer sends the URL as it is. *)
Theorem keepAlive_sends_raw_url (a : ActivityData) (id : string) :
  truthy (name a) = true -> imageUrl a = Some (cdnPrefix +:+ id) ->
  lacks "/" id = true -> id <> "" ->
  (exists act, activities_of (presenceUpdate parseInt a) = [act] /\
     large_image (a_assets act) = Some (uriPrefix +:+ id)) /\
  (exists act, activities_of (keepAlivePresence parseInt (Some a)) = [act] /\
     large_image (a_assets act) = Some (cdnPrefix +:+ id)) /\
  keepAlivePresence parseInt (Some a) <> presenceUpdate parseInt a.
Proof.
  intros Hname Hurl Hlacks Hid.
  set (image := fun f => (fun act => large_image (a_assets act)) <$> activities_of f).
  assert (truthy (Some (cdnPrefix +:+ id)) = true) as Hcdn by reflexivity.
  assert (truthy (Some id) = true) as Htid.
  { simpl. destruct (String.eqb_spec id ""); [contradiction|reflexivity]. }
  assert (large_image (buildAssets a) = Some (uriPrefix +:+ id)) as Hlarge.
  { unfold buildAssets. rewrite Hurl, Hcdn, (extract_cdn_segment id Hlacks), Htid.
    reflexivity. }
  split; [|split].
  - unfold presenceUpdate, buildActivity. rewrite Hname. simpl.
    eexists. split; [reflexivity|]. exact Hlarge.
  - unfold keepAlivePresence. rewrite Hname, Hurl, Hcdn. simpl.
    eexists. split; [reflexivity|]. reflexivity.
  - intros E. apply (f_equal image) in E. revert E.
    unfold image, keepAlivePresence, presenceUpdate, buildActivity.
    rewrite Hname, Hurl, Hcdn. simpl. rewrite <- Hurl, Hlarge, Hurl.
    intros E. injection E as E. cbv in E. discriminate E.
Qed.

End KeepAlive.


Lemma keepAlive_sends_raw_url_witness :
  keepAlivePresence parseDigits (Some cdnArt) <> presenceUpdate parseDigits cdnArt.
Proof.
  destruct (keepAlive_sends_raw_url parseDigits cdnArt "ab67616d") as (_ & _ & Hne);
    [reflexivity|reflexivity|reflexivity|discriminate|].
  exact Hne.
Defined.

(** ** Disconnecting and shutting down *)

Section Shutdown.

Variable parseInt : option string -> JsNumber.

(** X7.  [disconnect()] does not cancel a reconnect that the close handler
    has already scheduled: the pending timeout is still there afterwards, and
    when it fires it opens a new socket for the session although its reconnect
    flag is off. *)
Theorem pending_reconnect_survives_disconnect (w : World) (c : nat)
    (cn : DiscordConnection) (i : nat) (ms : Z) :
  conns w !! c = Some cn -> timeouts w !! i = Some (c, ms) ->
  let w1 := disconnect c w in
  let w2 := step parseInt w1 (TimeoutFires i) in
  timeouts w1 = timeouts w /\
  log w2 = log w1 ++ [NewWebSocket (next w)] /\
  sockets w2 !! next w = Some {| readyState := CONNECTING; owner := c |} /\
  exists cn2, conns w2 !! c = Some cn2 /\ ws cn2 = Some (next w) /\
              shouldReconnect cn2 = false.
Proof.
  intros Hcn Hi w1 w2. subst w2 w1. rewrite (disconnect_eq c w cn Hcn). simpl.
  rewrite Hi. simpl. split; [reflexivity|]. split; [reflexivity|].
  split; [apply lookup_insert_eq|].
  rewrite lookup_alter_eq, lookup_insert_eq. simpl. eexists. split; [reflexivity|].
  destruct cn. split; reflexivity.
Qed.




(** X9.  Once the disconnect request for a registered id has been handled,
    the id is unknown to the other endpoints: the status request answers
    [{connected: false}] without an activity, and the update request answers
    404 and changes nothing else. *)
Theorem removed_session_is_unknown (w : World) (sid : string) (c : nat) :
  truthy (Some sid) = true -> activeConnections w !! sid = Some c ->
  let w1 := step parseInt w (PostDisconnect (Some sid)) in
  step parseInt w1 (GetStatus sid) = respond 200 (StatusBody (Some false) None) w1 /\
  forall activity,
    step parseInt w1 (PostUpdateStatus (Some sid) activity) =
      respond 404 (ErrorBody "Session not found" None) w1.
Proof.
  intros Hsid Hreg w1.
  assert (activeConnections w1 !! sid = None) as Hgone.
  { subst w1. cbn [step]. unfold postDisconnect. rewrite Hsid, Hreg. simpl.
    apply lookup_delete_eq. }
  clearbody w1. split.
  - cbn [step]. unfold getStatus. rewrite Hgone. reflexivity.
  - intros activity. cbn [step]. unfold postUpdateStatus. rewrite Hsid, Hgone. reflexivity.
Qed.

End Shutdown.

Lemma pending_reconnect_survives_disconnect_witness :
  timeouts (disconnect 0 droppedWorld) = [(0%nat, 5000)] /\
  sockets (step parseDigits (disconnect 0 droppedWorld) (TimeoutFires 0)) !! 4%nat =
    Some {| readyState := CONNECTING; owner := 0 |}.
Proof.
  destruct (pending_reconnect_survives_disconnect parseDigits droppedWorld 0%nat
              droppedConnection 0%nat 5000) as (Hkept & _ & Hsocket & _);
    [vm_compute; reflexivity..|].
  split; [exact Hkept|exact Hsocket].
Defined.


Lemma removed_session_is_unknown_witness :
  let w1 := step parseDigits readyWorld (PostDisconnect (Some "s1")) in
  step parseDigits w1 (GetStatus "s1") = respond 200 (StatusBody (Some false) None) w1.
Proof.
  destruct (removed_session_is_unknown parseDigits readyWorld "s1" 0%nat) as [Hstatus _];
    [vm_compute; reflexivity..|].
  exact Hstatus.
Defined.

(** ** The keep-alive timer of a session *)

Lemma startKeepAlive_intervals c w cn :
  conns w !! c = Some cn ->
  intervals (startKeepAlive c w) =
    <[next w := {| kind := KeepAliveTimer; timerOwner := c; delay := 60000 |}]>
      (forget (keepAliveTask cn) (intervals w)).
Proof.
  intros H. unfold startKeepAlive. rewrite H.
  destruct (keepAliveTask cn); reflexivity.
Qed.

Section Renewal.

Variable parseInt : option string -> JsNumber.

Lemma updatePresence_intervals c d w :
  intervals (snd (updatePresence parseInt c d w)) = intervals w.
Proof.
  unfold updatePresence. repeat case_match; cbn [snd]; rewrite ?notifyClient_eq; reflexivity.
Qed.

(** X10.  Handling a READY frame replaces the keep-alive timer of the
    session: the timer it had is cleared, a new one with a period of 60000 ms is
    started and becomes [keepAliveTask], and every other timer, the heartbeat
    timer among them, is left running. *)
Theorem ready_replaces_keepAlive (w : World) (k : nat) (s : WebSocket)
    (cn : DiscordConnection) (payload : Payload) :
  sockets w !! k = Some s -> conns w !! owner s = Some cn ->
  p_op payload = 0 -> p_t payload = Some "READY" ->
  let w' := step parseInt w (GatewayMessage k payload) in
  intervals w' =
    <[next w := {| kind := KeepAliveTimer; timerOwner := owner s; delay := 60000 |}]>
      (forget (keepAliveTask cn) (intervals w)) /\
  exists cn', conns w' !! owner s = Some cn' /\ keepAliveTask cn' = Some (next w) /\
    heartbeatTask cn' = heartbeatTask cn.
Proof.
  intros Hs Hcn Hop Ht w'. subst w'. cbn [step]. rewrite Hs.
  destruct (resume_rest k (handleMessage parseInt (owner s) k payload w))
    as (-> & _ & _ & _ & ->).
  unfold handleMessage. rewrite Hop, Ht. fold (sequenced (owner s) payload w).
  assert (exists cn0, conns (sequenced (owner s) payload w) !! owner s = Some cn0 /\
            keepAliveTask cn0 = keepAliveTask cn /\ heartbeatTask cn0 = heartbeatTask cn)
    as (cn0 & Hcn0 & Hka0 & Hhb0).
  { unfold sequenced. destruct (truthyNumber _).
    - simpl. rewrite lookup_alter_eq, Hcn. simpl. eauto.
    - eauto. }
  assert (next (sequenced (owner s) payload w) = next w /\
          intervals (sequenced (owner s) payload w) = intervals w) as (Hn & Hi)
    by (unfold sequenced; destruct (truthyNumber _); repeat split).
  rewrite Hcn0. simpl.
  set (w1 := notifyClient (sessionId cn0) discord_ready (sequenced (owner s) payload w)).
  assert (conns w1 !! owner s = Some cn0 /\ next w1 = next w /\ intervals w1 = intervals w)
    as (Hcn1 & Hn1 & Hi1)
    by (subst w1; rewrite notifyClient_eq; simpl; rewrite Hn, Hi; auto).
  clearbody w1.
  set (w3 := settle k Fulfilled (startKeepAlive (owner s) w1)).
  assert (conns w3 !! owner s = Some (set_keepAliveTask (Some (next w)) cn0) /\
          intervals w3 =
            <[next w := {| kind := KeepAliveTimer; timerOwner := owner s; delay := 60000 |}]>
              (forget (keepAliveTask cn) (intervals w))) as (Hcn3 & Hi3).
  { subst w3. destruct (settle_rest k Fulfilled (startKeepAlive (owner s) w1))
      as (-> & _ & _ & _ & _ & _ & _ & -> & _).
    rewrite (startKeepAlive_conn _ _ _ Hcn1), (startKeepAlive_intervals _ _ _ Hcn1).
    rewrite Hn1, Hi1, Hka0. split; reflexivity. }
  clearbody w3.
  destruct (currentActivity cn0) as [a|].
  - rewrite updatePresence_intervals, (updatePresence_store _ _ _ _ _ Hcn3).
    split; [exact Hi3|]. eexists. split; [reflexivity|]. split; [reflexivity|exact Hhb0].
  - split; [exact Hi3|]. eexists. split; [exact Hcn3|]. split; [reflexivity|exact Hhb0].
Qed.

End Renewal.

Lemma ready_replaces_keepAlive_witness :
  intervals (step parseDigits readyWorld (GatewayMessage 1 (readyFrame 2))) =
    <[next readyWorld := {| kind := KeepAliveTimer; timerOwner := 0; delay := 60000 |}]>
      (forget (keepAliveTask readyConnection) (intervals readyWorld)).
Proof.
  refine (proj1 (ready_replaces_keepAlive parseDigits readyWorld 1%nat
                   {| readyState := OPEN; owner := 0 |} readyConnection (readyFrame 2)
                   _ _ eq_refl eq_refl));
    vm_compute; reflexivity.
Defined.

(** ** Timers and sessions that nobody holds *)

Section Leaks.

Variable parseInt : option string -> JsNumber.

(** X11.  A hello frame for a session whose heartbeat timer is running
    starts a second timer and forgets the handle of the first: the first
    timer is still running after [disconnect()], which clears the second. *)
Theorem second_hello_leaks_timer (w : World) (k : nat) (s : WebSocket)
    (cn : DiscordConnection) (payload : Payload) (h0 : nat) (iv0 : Interval) :
  sockets w !! k = Some s -> conns w !! owner s = Some cn ->
  heartbeatTask cn = Some h0 -> intervals w !! h0 = Some iv0 -> h0 <> next w ->
  keepAliveTask cn <> Some h0 -> p_op payload = 10 ->
  let w1 := step parseInt w (GatewayMessage k payload) in
  let w2 := disconnect (owner s) w1 in
  (exists cn1, conns w1 !! owner s = Some cn1 /\ heartbeatTask cn1 = Some (next w)) /\
  intervals w1 !! h0 = Some iv0 /\
  intervals w2 !! next w = None /\
  intervals w2 !! h0 = Some iv0 /\
  (forall cn2, conns w2 !! owner s = Some cn2 -> heartbeatTask cn2 = None).
Proof.
  intros Hs Hcn Hhb Hiv Hfresh Hka Hop w1 w2.
  assert (exists cn1, conns w1 !! owner s = Some cn1 /\
            heartbeatTask cn1 = Some (next w) /\ keepAliveTask cn1 = keepAliveTask cn /\
            intervals w1 =
              <[next w := {| kind := HeartbeatTimer; timerOwner := owner s;
                             delay := heartbeat_interval payload |}]> (intervals w))
    as (cn1 & Hcn1 & Hhb1 & Hka1 & Hiv1).
  { subst w1. cbn [step]. rewrite Hs.
    destruct (resume_rest k (handleMessage parseInt (owner s) k payload w))
      as (-> & _ & _ & _ & ->).
    unfold handleMessage. rewrite Hop. simpl.
    assert (exists cn0, conns (sequenced (owner s) payload w) !! owner s = Some cn0 /\
              keepAliveTask cn0 = keepAliveTask cn) as (cn0 & Hcn0 & Hka0).
    { unfold sequenced. destruct (truthyNumber _).
      - simpl. rewrite lookup_alter_eq, Hcn. simpl. eauto.
      - eauto. }
    fold (sequenced (owner s) payload w). rewrite Hcn0.
    assert (next (sequenced (owner s) payload w) = next w /\
            intervals (sequenced (owner s) payload w) = intervals w) as (Hn & Hi)
      by (unfold sequenced; destruct (truthyNumber _); repeat split).
    destruct (ws cn0); simpl; rewrite Hn, Hi, !lookup_alter_eq, Hcn0; simpl;
      eexists; (split; [reflexivity|]); repeat split; exact Hka0. }
  clearbody w1. subst w2. rewrite (disconnect_eq _ _ _ Hcn1). simpl.
  rewrite Hhb1, Hiv1, Hka1. simpl.
  split; [eauto|]. split; [rewrite lookup_insert_ne by congruence; exact Hiv|].
  assert (forall m : gmap nat Interval, forget (keepAliveTask cn) m !! h0 = m !! h0) as Hkeep.
  { intros m. destruct (keepAliveTask cn) as [h|]; [|reflexivity]. simpl.
    apply lookup_delete_ne. congruence. }
  split; [|split].
  - destruct (keepAliveTask cn) as [h|]; simpl.
    + destruct (decide (h = next w)) as [->|Hne].
      * apply lookup_delete_eq.
      * rewrite lookup_delete_ne by exact Hne. apply lookup_delete_eq.
    + apply lookup_delete_eq.
  - rewrite Hkeep, lookup_delete_ne, lookup_insert_ne by congruence. exact Hiv.
  - intros cn2. rewrite lookup_insert_eq. intros [= <-]. destruct cn1; reflexivity.
Qed.

(** X12.  When the socket of a session being created fails, the endpoint
    answers 500 and registers nothing, and the connection object lives on with
    reconnect enabled: the close that follows the error schedules a connect,
    which opens a new socket for a session that no session id reaches. *)
Theorem failed_session_keeps_reconnecting (w : World) (k : nat) (s : WebSocket)
    (sid : string) (cn : DiscordConnection) (msg : option string) :
  sockets w !! k = Some s -> awaiting w !! k = Some (sid, owner s) ->
  promises w !! k = Some Pending ->
  conns w !! owner s = Some cn -> shouldReconnect cn = true ->
  let w1 := step parseInt w (GatewayError k msg) in
  let w2 := step parseInt w1 (GatewayClose k) in
  let w3 := step parseInt w2 (TimeoutFires (length (timeouts w))) in
  log w1 = log w ++ [Respond {| statusCode := 500;
                                body := ErrorBody "Failed to connect to Discord" msg |}] /\
  activeConnections w3 = activeConnections w /\
  timeouts w2 = timeouts w ++ [(owner s, 5000)] /\
  sockets w3 !! next w = Some {| readyState := CONNECTING; owner := owner s |} /\
  exists cn3, conns w3 !! owner s = Some cn3 /\ ws cn3 = Some (next w) /\
              shouldReconnect cn3 = true /\ token cn3 = token cn.
Proof.
  intros Hs Hk Hp Hcn Hrc w1 w2 w3.
  assert (conns w1 = conns w /\ sockets w1 !! k = Some (closing s) /\
          timeouts w1 = timeouts w /\ activeConnections w1 = activeConnections w /\
          next w1 = next w /\
          log w1 = log w ++ [Respond {| statusCode := 500;
                                        body := ErrorBody "Failed to connect to Discord"
                                                  msg |}])
    as (C1 & S1 & T1 & R1 & N1 & L1).
  { subst w1. cbn [step]. rewrite Hs. unfold resume, settle. simpl. rewrite Hp. simpl.
    rewrite Hk, lookup_insert_eq. simpl. rewrite lookup_alter_eq, Hs. repeat split. }
  clearbody w1.
  assert (conns w2 !! owner s = Some (cleaned cn) /\
          timeouts w2 = timeouts w ++ [(owner s, 5000)] /\
          activeConnections w2 = activeConnections w /\ next w2 = next w)
    as (C2 & T2 & R2 & N2).
  { subst w2. cbn [step]. rewrite S1. cbn [owner closing].
    set (w1' := with_sockets _ w1).
    assert (conns w1' !! owner s = Some cn) as Hcn' by (subst w1'; simpl; congruence).
    split; [|split; [|split]].
    - unfold onClose. rewrite (cleanup_conn _ _ _ Hcn'), notifyClient_eq.
      destruct cn as [tok sid' so hb sq ack rc act ka]. simpl in Hrc. subst rc. simpl.
      apply (cleanup_conn _ _ _ Hcn').
    - rewrite (onClose_timeouts _ _ _ Hcn'), Hrc. subst w1'. simpl. rewrite T1.
      reflexivity.
    - destruct (steady_onClose shouldReconnect (owner s) w1') as (_ & _ & -> & _).
      subst w1'. simpl. exact R1.
    - unfold onClose. rewrite (cleanup_conn _ _ _ Hcn'), notifyClient_eq.
      destruct (cleanup_rest (owner s) w1') as (_ & _ & _ & _ & _ & _ & _ & Hn).
      destruct cn as [tok sid' so hb sq ack rc act ka]. simpl in Hrc. subst rc. simpl.
      rewrite Hn. subst w1'. simpl. exact N1. }
  clearbody w2. subst w3. cbn [step]. rewrite T2.
  rewrite lookup_app_r by lia. rewrite Nat.sub_diag. simpl.
  rewrite N2, R2. split; [exact L1|]. split; [reflexivity|]. split; [reflexivity|].
  split; [apply lookup_insert_eq|].
  rewrite lookup_alter_eq, C2. simpl. eexists. split; [reflexivity|].
  destruct cn. simpl in *. repeat split. exact Hrc.
Qed.

End Leaks.

Lemma second_hello_leaks_timer_witness :
  intervals (disconnect 0 (step parseDigits identifiedWorld (GatewayMessage 1 helloFrame)))
    !! 2%nat = Some heartbeatTimer.
Proof.
  destruct (second_hello_leaks_timer parseDigits identifiedWorld 1%nat
              {| readyState := OPEN; owner := 0 |} identifiedConnection helloFrame
              2%nat heartbeatTimer) as (_ & _ & _ & Hleak & _);
    [vm_compute; reflexivity|vm_compute; reflexivity|reflexivity|vm_compute; reflexivity
    |vm_compute; lia|discriminate|reflexivity|].
  exact Hleak.
Defined.

Lemma failed_session_keeps_reconnecting_witness :
  activeConnections failedWorld = activeConnections connectingWorld /\
  sockets failedWorld !! 2%nat = Some {| readyState := CONNECTING; owner := 0 |}.
Proof.
  destruct (failed_session_keeps_reconnecting parseDigits connectingWorld 1%nat
              {| readyState := CONNECTING; owner := 0 |} "s1"
              (set_ws (Some 1%nat) (newDiscordConnection "tok" "s1"))
              (Some "ECONNREFUSED")) as (_ & Hreg & _ & Hsocket & _);
    [vm_compute; reflexivity..|].
  split; [exact Hreg|exact Hsocket].
Defined.

(** ** The listing of the sessions *)

Section Listing.

Variable parseInt : option string -> JsNumber.

(** X13.  The listing has an entry for a registered session whose id is
    among the keys, with the connected value and the activity that the status
    endpoint answers for that id; and every entry of the listing is that of a
    registered id. *)
Theorem sessions_agree_with_status (w : World) (keys : list string) :
  (forall sid c cn, sid ∈ keys -> activeConnections w !! sid = Some c ->
     conns w !! c = Some cn ->
     {| entryId := sid; entryConnected := connectedValue cn w;
        entryActivity := currentActivity cn |} ∈ getSessions keys w /\
     step parseInt w (GetStatus sid) =
       respond 200 (StatusBody (connectedValue cn w) (Some (currentActivity cn))) w) /\
  (forall entry, entry ∈ getSessions keys w ->
     entryId entry ∈ keys /\
     exists c cn, activeConnections w !! entryId entry = Some c /\
       conns w !! c = Some cn /\ entryConnected entry = connectedValue cn w /\
       entryActivity entry = currentActivity cn).
Proof.
  split.
  - intros sid c cn Hin Hreg Hcn. split.
    + unfold getSessions. apply list_elem_of_omap. exists sid. split; [exact Hin|].
      rewrite Hreg. simpl. rewrite Hcn. reflexivity.
    + cbn [step]. unfold getStatus. rewrite Hreg, Hcn. reflexivity.
  - intros entry Hin. unfold getSessions in Hin.
    apply list_elem_of_omap in Hin as (sid & Hsid & Hentry).
    destruct (activeConnections w !! sid) as [c|] eqn:Hreg; [|discriminate].
    simpl in Hentry. destruct (conns w !! c) as [cn|] eqn:Hcn; [|discriminate].
    injection Hentry as <-. simpl. split; [exact Hsid|]. exists c, cn. repeat split.
    + exact Hreg.
    + exact Hcn.
Qed.

End Listing.

(** ** The track lookup *)

Lemma append_cons a s t : String a s +:+ t = String a (s +:+ t).
Proof. reflexivity. Qed.

Lemma append_empty_r s : s +:+ "" = s.
Proof. induction s as [|a s IH]; [reflexivity|]. rewrite append_cons, IH. reflexivity. Qed.

Lemma append_assoc s t u : (s +:+ t) +:+ u = s +:+ (t +:+ u).
Proof. induction s as [|a s IH]; [reflexivity|]. rewrite !append_cons, IH. reflexivity. Qed.

Lemma startsWith_append p t : startsWith (p +:+ t) p = true.
Proof.
  induction p as [|a p IH]; [reflexivity|].
  rewrite append_cons. simpl. rewrite Ascii.eqb_refl. exact IH.
Qed.

(** Whether [s] starts with [p] is decided by the first characters of [s],
    as many as [p] has. *)
Lemma startsWith_longer s t p :
  (String.length p <= String.length s)%nat -> startsWith (s +:+ t) p = startsWith s p.
Proof.
  revert s. induction p as [|a p IH]; intros s Hlen; [reflexivity|].
  destruct s as [|b s]; simpl in Hlen; [lia|].
  rewrite append_cons. simpl. rewrite IH by lia. reflexivity.
Qed.

Lemma length_append s t :
  String.length (s +:+ t) = (String.length s + String.length t)%nat.
Proof. induction s as [|a s IH]; [reflexivity|]. rewrite append_cons. simpl. lia. Qed.

(** The characters of an occurrence are passed over. *)
Lemma splitFrom_skip sep x tail cur :
  splitFrom sep (String.length x) cur (x +:+ tail) = splitFrom sep 0 cur tail.
Proof.
  induction x as [|a x IH]; [destruct tail; reflexivity|].
  rewrite append_cons. simpl. exact IH.
Qed.

(** The split at the first occurrence of the separator. *)
Lemma splitFrom_first sep pre tail cur :
  sep <> "" -> noEarlier sep pre = true ->
  splitFrom sep 0 cur (pre +:+ sep +:+ tail) = (cur +:+ pre) :: splitFrom sep 0 "" tail.
Proof.
  intros Hsep. revert cur. induction pre as [|a pre IH]; intros cur Hpre.
  - rewrite append_empty_r. destruct sep as [|c sep']; [contradiction|].
    change ("" +:+ String c sep' +:+ tail) with (String c (sep' +:+ tail)).
    cbn [splitFrom].
    change (String c (sep' +:+ tail)) with (String c sep' +:+ tail).
    rewrite startsWith_append. f_equal.
    cbn [String.length]. rewrite Nat.sub_succ, Nat.sub_0_r. apply splitFrom_skip.
  - cbn [noEarlier] in Hpre. apply andb_prop in Hpre as [Hhere Hrest].
    rewrite append_cons. cbn [splitFrom].
    change (String a (pre +:+ sep +:+ tail)) with (String a pre +:+ sep +:+ tail).
    rewrite <- append_assoc, startsWith_longer
      by (rewrite length_append; lia).
    apply negb_true_iff in Hhere. rewrite Hhere.
    rewrite (IH _ Hrest), append_assoc. reflexivity.
Qed.

(** A string without the separator is one segment. *)
Lemma splitFrom_none sep s cur :
  includes s sep = false -> splitFrom sep 0 cur s = [cur +:+ s].
Proof.
  revert cur. induction s as [|a s IH]; intros cur Hs.
  - rewrite append_empty_r. reflexivity.
  - cbn [includes] in Hs. apply orb_false_iff in Hs as [Hhere Hrest].
    cbn [splitFrom]. rewrite Hhere, (IH _ Hrest), append_assoc. reflexivity.
Qed.

Lemma includes_append sep pre tail : includes (pre +:+ sep +:+ tail) sep = true.
Proof.
  induction pre as [|a pre IH].
  - change ("" +:+ sep +:+ tail) with (sep +:+ tail).
    destruct (sep +:+ tail) eqn:E; cbn [includes]; rewrite <- E, startsWith_append;
      reflexivity.
  - rewrite append_cons. cbn [includes]. rewrite IH. apply orb_true_r.
Qed.

(** A string that includes the separator splits in two parts at least, so
    the second part the handler reads is there. *)
Lemma splitFrom_includes sep s cur :
  sep <> "" -> includes s sep = true ->
  exists second, splitFrom sep 0 cur s !! 1%nat = Some second.
Proof.
  intros Hsep. revert cur. induction s as [|a s IH]; intros cur Hs.
  - destruct sep; [contradiction|discriminate].
  - cbn [splitFrom]. destruct (startsWith (String a s) sep) eqn:Hhere.
    + assert (forall n cur' t, exists x, head (splitFrom sep n cur' t) = Some x) as Hhead.
      { intros n cur' t. revert n cur'. induction t as [|b t IHt]; intros n cur'.
        - simpl. eauto.
        - cbn [splitFrom]. destruct n; [|apply IHt].
          destruct (startsWith (String b t) sep); [simpl; eauto|apply IHt]. }
      destruct (Hhead (String.length sep - 1)%nat "" s) as [x Hx].
      exists x. destruct (splitFrom sep _ "" s); [discriminate|]. exact Hx.
    + cbn [includes] in Hs. rewrite Hhere in Hs. apply IH. exact Hs.
Qed.

(** A string that lacks a character of [p] does not start with [p] and
    does not include it. *)
Lemma startsWith_lacks c s p :
  lacks c s = true -> lacks c p = false -> startsWith s p = false.
Proof.
  revert s. induction p as [|a p IH]; intros s Hs Hp; [discriminate|].
  destruct s as [|b s]; [reflexivity|]. simpl in *.
  apply andb_prop in Hs as [Hb Hs].
  destruct (Ascii.eqb_spec a b) as [->|Hab]; [|reflexivity]. simpl.
  rewrite Hb in Hp. simpl in Hp. apply IH; assumption.
Qed.

Lemma includes_lacks c s p :
  lacks c s = true -> lacks c p = false -> includes s p = false.
Proof.
  intros Hs Hp. induction s as [|b s IH].
  - simpl. rewrite (startsWith_lacks c "" p); auto.
  - cbn [includes]. rewrite (startsWith_lacks c _ p Hs Hp). simpl.
    simpl in Hs. apply andb_prop in Hs as [_ Hs]. apply IH, Hs.
Qed.

Lemma lacks_append c s t : lacks c (s +:+ t) = lacks c s && lacks c t.
Proof.
  induction s as [|a s IH]; [reflexivity|].
  rewrite append_cons. simpl. rewrite IH, andb_assoc. reflexivity.
Qed.

(** No occurrence of a separator starts inside a string that lacks its first
    character. *)
Lemma splitFrom_lacks c sep' id rest cur :
  lacks c id = true ->
  splitFrom (String c sep') 0 cur (id +:+ rest) =
    splitFrom (String c sep') 0 (cur +:+ id) rest.
Proof.
  revert cur. induction id as [|a id IH]; intros cur Hid.
  - rewrite append_empty_r. reflexivity.
  - simpl in Hid. apply andb_prop in Hid as [Ha Hid].
    rewrite append_cons. cbn [splitFrom startsWith].
    rewrite Ascii.eqb_sym. apply negb_true_iff in Ha. rewrite Ha. simpl.
    rewrite (IH _ Hid), append_assoc. reflexivity.
Qed.

(** The first segment is what was read so far and then a prefix of the rest:
    nothing, or something that begins as the rest does. *)
Lemma splitFrom_head sep s cur :
  exists y, splitFrom sep 0 cur s !! 0%nat = Some (cur +:+ y) /\
    (y = "" \/ exists b r y', s = String b r /\ y = String b y').
Proof.
  revert cur. induction s as [|b s IH]; intros cur.
  - exists "". rewrite append_empty_r. split; [reflexivity|left; reflexivity].
  - cbn [splitFrom]. destruct (startsWith (String b s) sep).
    + exists "". rewrite append_empty_r. split; [reflexivity|left; reflexivity].
    + destruct (IH (cur +:+ String b "")) as (y & Hy & _).
      exists (String b y). rewrite Hy, append_assoc. split; [reflexivity|].
      right. eauto.
Qed.

(** The first segment of [s.split(ch)] for a string that begins with a part
    without [ch]. *)
Lemma split_first_lacks ch id y :
  lacks ch id = true ->
  split ch (id +:+ y) !! 0%nat = (fun z => id +:+ z) <$> split ch y !! 0%nat.
Proof.
  intros Hid. induction id as [|a id IH].
  - change ("" +:+ y) with y. destruct (split ch y !! 0%nat); reflexivity.
  - simpl in Hid. apply andb_prop in Hid as [Ha Hid]. apply negb_true_iff in Ha.
    rewrite append_cons. cbn [split]. rewrite Ha. specialize (IH Hid).
    pose proof (split_nonempty ch (id +:+ y)) as Hne.
    destruct (split ch (id +:+ y)) as [|seg segs]; [contradiction|].
    simpl in IH. simpl.
    destruct (split ch y !! 0%nat) as [z|]; simpl in *; [|discriminate].
    injection IH as ->. reflexivity.
Qed.

Lemma split_first_empty ch : split ch "" !! 0%nat = Some "".
Proof. reflexivity. Qed.

Lemma split_first_stop ch y : split ch (String ch y) !! 0%nat = Some "".
Proof. simpl. rewrite Ascii.eqb_refl. reflexivity. Qed.

Lemma split_first_other ch b y :
  Ascii.eqb b ch = false -> exists z, split ch (String b y) !! 0%nat = Some (String b z).
Proof.
  intros Hb. simpl. rewrite Hb. destruct (split ch y) as [|seg segs]; simpl; eauto.
Qed.

(** The id the handler reads off a link: what follows the first [sep], up to
    the next [?] or [/]. *)
Lemma link_id sep' pre id rest :
  noEarlier (String "/" sep') pre = true ->
  lacks "/" id = true -> lacks "?" id = true ->
  rest = "" \/ (exists r, rest = String "?" r) \/ (exists r, rest = String "/" r) ->
  (x ← splitOn (String "/" sep') (pre +:+ String "/" sep' +:+ id +:+ rest) !! 1%nat;
   y ← split "?" x !! 0%nat; split "/" y !! 0%nat) = Some id.
Proof.
  intros Hpre Hslash Hquery Hrest. unfold splitOn.
  rewrite splitFrom_first by (discriminate || exact Hpre).
  change ((("" +:+ pre) :: splitFrom (String "/" sep') 0 "" (id +:+ rest)) !! 1%nat)
    with (splitFrom (String "/" sep') 0 "" (id +:+ rest) !! 0%nat).
  rewrite (splitFrom_lacks "/" sep' id rest "" Hslash).
  destruct (splitFrom_head (String "/" sep') rest ("" +:+ id)) as (y & -> & Hy).
  change ("" +:+ id) with id. simpl.
  rewrite (split_first_lacks "?" id y Hquery).
  destruct Hy as [->|(b & r & y' & Hb & ->)].
  - rewrite split_first_empty. simpl. rewrite (split_first_lacks "/" id "" Hslash).
    rewrite split_first_empty. simpl. rewrite append_empty_r. reflexivity.
  - destruct Hrest as [->|[[r0 ->]|[r0 ->]]]; [discriminate|..]; injection Hb as <- <-.
    + rewrite split_first_stop. simpl. rewrite (split_first_lacks "/" id "" Hslash).
      rewrite split_first_empty. simpl. rewrite append_empty_r. reflexivity.
    + destruct (split_first_other "?" "/" y' eq_refl) as [z ->]. simpl.
      rewrite (split_first_lacks "/" id (String "/" z) Hslash), split_first_stop.
      simpl. rewrite append_empty_r. reflexivity.
Qed.

(** The target of a link to a track, and of one to an album. *)
Lemma track_link_target pre id rest :
  noEarlier "/track/" pre = true ->
  lacks "/" id = true -> lacks "?" id = true ->
  rest = "" \/ (exists r, rest = String "?" r) \/ (exists r, rest = String "/" r) ->
  spotifyTarget (pre +:+ "/track/" +:+ id +:+ rest) = Some ("track", Some id).
Proof.
  intros Hpre Hslash Hquery Hrest. unfold spotifyTarget. rewrite includes_append.
  rewrite (link_id "track/" pre id rest Hpre Hslash Hquery Hrest). reflexivity.
Qed.

Lemma album_link_target pre id rest :
  noEarlier "/album/" pre = true ->
  includes (pre +:+ "/album/" +:+ id +:+ rest) "/track/" = false ->
  lacks "/" id = true -> lacks "?" id = true ->
  rest = "" \/ (exists r, rest = String "?" r) \/ (exists r, rest = String "/" r) ->
  spotifyTarget (pre +:+ "/album/" +:+ id +:+ rest) = Some ("album", Some id).
Proof.
  intros Hpre Hnotrack Hslash Hquery Hrest. unfold spotifyTarget.
  rewrite Hnotrack, includes_append.
  rewrite (link_id "album/" pre id rest Hpre Hslash Hquery Hrest). reflexivity.
Qed.

(** The target of a URI [spotify:track:<id>]. *)
Lemma uri_target id :
  lacks "/" id = true -> lacks ":" id = true ->
  spotifyTarget ("spotify:track:" +:+ id) = Some ("track", Some id).
Proof.
  intros Hslash Hcolon. unfold spotifyTarget.
  assert (lacks "/" ("spotify:track:" +:+ id) = true) as Hurl
    by (rewrite lacks_append, Hslash; reflexivity).
  rewrite (includes_lacks "/" _ "/track/" Hurl eq_refl).
  rewrite (includes_lacks "/" _ "/album/" Hurl eq_refl).
  change ("spotify:track:" +:+ id) with ("" +:+ "spotify:track:" +:+ id).
  rewrite includes_append. unfold splitOn.
  rewrite splitFrom_first by (discriminate || reflexivity).
  rewrite (splitFrom_none "spotify:track:" id "")
    by (apply (includes_lacks ":" id); [exact Hcolon|reflexivity]).
  reflexivity.
Qed.

Lemma truthy_append_sep pre c sep tail :
  truthy (Some (pre +:+ String c sep +:+ tail)) = true.
Proof. destruct pre; reflexivity. Qed.

Section LookupProperties.

Variable trim : string -> string.
Variable fetch : string -> FetchResult.

(** X14.  The lookup reads the id of a track link as what follows the first
    [/track/] up to the next [?] or [/], and that of an album link likewise
    when the link has no [/track/]; it asks the oEmbed endpoint for the
    canonical link of that kind and id, and answers 404 when the endpoint's
    answer is not ok. *)
Theorem link_target (pre id rest : string) :
  lacks "/" id = true -> lacks "?" id = true ->
  rest = "" \/ (exists r, rest = String "?" r) \/ (exists r, rest = String "/" r) ->
  (noEarlier "/track/" pre = true ->
   spotifyTarget (pre +:+ "/track/" +:+ id +:+ rest) = Some ("track", Some id) /\
   (fetch ("https://open.spotify.com/oembed?url=https://open.spotify.com/track/" +:+ id)
      = FetchNotOk ->
    getSpotifyInfo trim fetch (Some (pre +:+ "/track/" +:+ id +:+ rest)) =
      LookupError 404 "Spotify track not found" None)) /\
  (noEarlier "/album/" pre = true ->
   includes (pre +:+ "/album/" +:+ id +:+ rest) "/track/" = false ->
   spotifyTarget (pre +:+ "/album/" +:+ id +:+ rest) = Some ("album", Some id) /\
   (fetch ("https://open.spotify.com/oembed?url=https://open.spotify.com/album/" +:+ id)
      = FetchNotOk ->
    getSpotifyInfo trim fetch (Some (pre +:+ "/album/" +:+ id +:+ rest)) =
      LookupError 404 "Spotify track not found" None)).
Proof.
  intros Hslash Hquery Hrest. split.
  - intros Hpre.
    pose proof (track_link_target pre id rest Hpre Hslash Hquery Hrest) as Htarget.
    split; [exact Htarget|]. intros Hfetch. unfold getSpotifyInfo.
    rewrite truthy_append_sep, Htarget. cbn [negb].
    change (oembedUrl "track" (Some id))
      with ("https://open.spotify.com/oembed?url=https://open.spotify.com/track/" +:+ id).
    rewrite Hfetch. reflexivity.
  - intros Hpre Hnotrack.
    pose proof (album_link_target pre id rest Hpre Hnotrack Hslash Hquery Hrest)
      as Htarget.
    split; [exact Htarget|]. intros Hfetch. unfold getSpotifyInfo.
    rewrite truthy_append_sep, Htarget. cbn [negb].
    change (oembedUrl "album" (Some id))
      with ("https://open.spotify.com/oembed?url=https://open.spotify.com/album/" +:+ id).
    rewrite Hfetch. reflexivity.
Qed.

(** X15.  The lookup answers the same for the URI [spotify:track:<id>] as
    for a link to the track, whatever the remote endpoint returns. *)
Theorem uri_as_link (pre id rest : string) :
  noEarlier "/track/" pre = true ->
  lacks "/" id = true -> lacks "?" id = true -> lacks ":" id = true ->
  rest = "" \/ (exists r, rest = String "?" r) \/ (exists r, rest = String "/" r) ->
  getSpotifyInfo trim fetch (Some ("spotify:track:" +:+ id)) =
  getSpotifyInfo trim fetch (Some (pre +:+ "/track/" +:+ id +:+ rest)).
Proof.
  intros Hpre Hslash Hquery Hcolon Hrest. unfold getSpotifyInfo.
  rewrite (uri_target id Hslash Hcolon).
  rewrite (track_link_target pre id rest Hpre Hslash Hquery Hrest).
  rewrite truthy_append_sep. reflexivity.
Qed.

End LookupProperties.

Lemma orEmpty_Some t : orEmpty (Some t) = t.
Proof. unfold orEmpty. simpl. destruct (String.eqb_spec t ""); subst; reflexivity. Qed.

Lemma truthy_eqb s : truthy (Some s) = negb (String.eqb s "").
Proof. reflexivity. Qed.

Lemma truthy_nonempty s : s <> "" -> truthy (Some s) = true.
Proof. intros H. simpl. destruct (String.eqb_spec s ""); [contradiction|reflexivity]. Qed.

Section TrackData.

Variable trim : string -> string.
Variable fetch : string -> FetchResult.
Variable parseInt : option string -> JsNumber.

(** X16.  A title without [" - "] is the song name as it is, and the artist
    is "Unknown Artist"; otherwise the song name is what precedes the first
    [" - "] and the artist what lies between the first and the second, both
    trimmed: what follows a second [" - "] is dropped. *)
Theorem title_split (t : string) (thumbnail_url id : option string) :
  let info := spotifyInfo trim (Some t) thumbnail_url id in
  (includes t " - " = false ->
   songName info = t /\ artistName info = "Unknown Artist") /\
  (forall a b, t = a +:+ " - " +:+ b -> noEarlier " - " a = true ->
     songName info = trim a /\
     (includes b " - " = false -> artistName info = trim b) /\
     (forall b1 b2, b = b1 +:+ " - " +:+ b2 -> noEarlier " - " b1 = true ->
        artistName info = trim b1)).
Proof.
  intros info. subst info. unfold spotifyInfo. rewrite orEmpty_Some. cbn [songName artistName].
  split.
  - intros ->. split; reflexivity.
  - intros a b -> Ha. rewrite includes_append. unfold splitOn.
    rewrite splitFrom_first by (discriminate || exact Ha).
    split; [reflexivity|]. split.
    + intros Hb. rewrite (splitFrom_none " - " b "" Hb). reflexivity.
    + intros b1 b2 -> Hb1. rewrite splitFrom_first by (discriminate || exact Hb1).
      reflexivity.
Qed.

(** The image id of a thumbnail address. *)
Lemma thumbnail_id title pre x id :
  noEarlier "/image/" pre = true -> includes x "/image/" = false ->
  spotifyImageId (spotifyInfo trim title (Some (pre +:+ "/image/" +:+ x)) id) = Some x.
Proof.
  intros Hpre Hx. unfold spotifyInfo. rewrite orEmpty_Some. cbn [spotifyImageId].
  rewrite truthy_append_sep, includes_append. cbn [andb]. unfold splitOn.
  rewrite splitFrom_first by (discriminate || exact Hpre).
  rewrite (splitFrom_none "/image/" x "" Hx). reflexivity.
Qed.

(** X17.  The image id of the answer is what follows the first [/image/] of
    the thumbnail address, and [null] for a thumbnail without [/image/]; for
    an address of the image CDN it is the id [extractSpotifyImageId] reads off
    that address. *)
Theorem thumbnail_image_id (title id : option string) (u : string) :
  let info := spotifyInfo trim title (Some u) id in
  (includes u "/image/" = false -> spotifyImageId info = None) /\
  (forall pre x, u = pre +:+ "/image/" +:+ x -> noEarlier "/image/" pre = true ->
     includes x "/image/" = false -> spotifyImageId info = Some x) /\
  (forall x, u = cdnPrefix +:+ x -> lacks "/" x = true ->
     spotifyImageId info = extractSpotifyImageId (Some u)).
Proof.
  intros info. subst info. split; [|split].
  - intros Hu. unfold spotifyInfo. rewrite orEmpty_Some. cbn [spotifyImageId].
    rewrite Hu, andb_false_r. reflexivity.
  - intros pre x -> Hpre Hx. apply thumbnail_id; assumption.
  - intros x -> Hx. rewrite (extract_cdn_segment x Hx).
    apply (thumbnail_id title "https://i.scdn.co" x id); [reflexivity|].
    apply (includes_lacks "/" x); [exact Hx|reflexivity].
Qed.

(** X18.  When the lookup finds the track and its image id (not empty, no
    colon) and song name (not empty), the activity the client script submits
    carries the artwork [spotify:<id>] with the song name as its text; it is
    named by the form's name, or by the song when that is blank.  The
    gateway composer passes that artwork on as it is, and the keep-alive timer
    repeats the same frame. *)
Theorem lookup_artwork_reaches_gateway
    (nameInput typeValue detailsInput stateInput spotifyUrlInput : string)
    (info : SpotifyInfo) (id : string) :
  trim spotifyUrlInput <> "" ->
  getSpotifyInfo trim fetch (Some (trim spotifyUrlInput)) = LookupFound info ->
  spotifyImageId info = Some id -> id <> "" -> lacks ":" id = true ->
  songName info <> "" ->
  let a := clientActivity trim fetch nameInput typeValue detailsInput stateInput
             spotifyUrlInput in
  name a = Some (if String.eqb (trim nameInput) "" then songName info else trim nameInput) /\
  imageUrl a = Some ("spotify:" +:+ id) /\
  buildAssets a =
    {| large_image := Some ("spotify:" +:+ id); large_text := Some (songName info) |} /\
  keepAlivePresence parseInt (Some a) = presenceUpdate parseInt a.
Proof.
  intros Hurl Hfound Hid Hne Hcolon Hsong a.
  assert (a = {| name := Some (if String.eqb (trim nameInput) "" then songName info
                               else trim nameInput);
                 type := Some typeValue; details := Some (trim detailsInput);
                 state := Some (if String.eqb (trim stateInput) ""
                                then "by " +:+ artistName info else trim stateInput);
                 imageUrl := Some ("spotify:" +:+ id);
                 imageText := Some (songName info) |}) as Ha.
  { subst a. unfold clientActivity, fetchSpotifyInfo.
    rewrite (truthy_nonempty _ Hurl), Hfound, Hid, (truthy_nonempty _ Hne).
    rewrite (truthy_eqb (trim nameInput)), (truthy_eqb (trim stateInput)).
    destruct (String.eqb (trim nameInput) "") eqn:Ename,
      (String.eqb (trim stateInput) "");
      cbn [negb]; rewrite ?(truthy_nonempty _ Hsong), ?truthy_eqb, ?Ename; reflexivity. }
  clearbody a. subst a. cbn [name imageUrl].
  split; [reflexivity|]. split; [reflexivity|].
  assert (buildAssets
            {| name := Some (if String.eqb (trim nameInput) "" then songName info
                             else trim nameInput);
               type := Some typeValue; details := Some (trim detailsInput);
               state := Some (if String.eqb (trim stateInput) ""
                              then "by " +:+ artistName info else trim stateInput);
               imageUrl := Some ("spotify:" +:+ id);
               imageText := Some (songName info) |} =
          {| large_image := Some ("spotify:" +:+ id);
             large_text := Some (songName info) |}) as Hassets.
  { unfold buildAssets. cbn [imageUrl imageText].
    change ("spotify:" +:+ id) with (uriPrefix +:+ id).
    rewrite (extract_uri_segment id Hcolon), (truthy_nonempty _ Hne),
      (truthy_nonempty _ Hsong).
    assert (truthy (Some (uriPrefix +:+ id)) = true) as -> by reflexivity.
    reflexivity. }
  split; [exact Hassets|].
  unfold keepAlivePresence, presenceUpdate, buildActivity. rewrite Hassets.
  cbn [name imageUrl imageText type details state].
  assert (truthy (Some ("spotify:" +:+ id)) = true) as -> by reflexivity.
  destruct (truthy _); reflexivity.
Qed.

(** X19.  With a blank name and no track found (no address given, or a
    lookup that fails), the client script submits the empty object whatever
    the other fields of the form say, and [updatePresence] composes the frame
    that clears the presence from it. *)
Theorem blank_form_clears
    (nameInput typeValue detailsInput stateInput spotifyUrlInput : string) :
  trim nameInput = "" ->
  trim spotifyUrlInput = "" \/
    (forall info, getSpotifyInfo trim fetch (Some (trim spotifyUrlInput)) <> LookupFound info) ->
  let a := clientActivity trim fetch nameInput typeValue detailsInput stateInput
             spotifyUrlInput in
  a = {| name := None; type := None; details := None; state := None;
         imageUrl := None; imageText := None |} /\
  presenceUpdate parseInt a = clearPresence.
Proof.
  intros Hname Hlookup a.
  assert (a = {| name := None; type := None; details := None; state := None;
                 imageUrl := None; imageText := None |}) as ->.
  { subst a. unfold clientActivity, fetchSpotifyInfo. rewrite Hname.
    destruct Hlookup as [->|Hnone]; [reflexivity|].
    destruct (truthy (Some (trim spotifyUrlInput))); [|reflexivity].
    destruct (getSpotifyInfo trim fetch (Some (trim spotifyUrlInput))) as [? ? ?|info] eqn:E;
      [reflexivity|]. exfalso. exact (Hnone info eq_refl). }
  split; reflexivity.
Qed.

End TrackData.

Lemma link_target_witness :
  spotifyTarget "https://open.spotify.com/track/4uLU6hMC?si=abc" =
    Some ("track", Some "4uLU6hMC") /\
  getSpotifyInfo trimBlanks (fun _ => FetchNotOk)
    (Some "https://open.spotify.com/track/4uLU6hMC?si=abc") =
    LookupError 404 "Spotify track not found" None.
Proof.
  destruct (link_target trimBlanks (fun _ => FetchNotOk)
              "https://open.spotify.com" "4uLU6hMC" "?si=abc") as [Htrack _];
    [reflexivity|reflexivity|right; left; eexists; reflexivity|].
  destruct (Htrack eq_refl) as [Htarget Hmissing].
  split; [exact Htarget|exact (Hmissing eq_refl)].
Defined.

Lemma uri_as_link_witness :
  getSpotifyInfo trimBlanks sampleEndpoint (Some "spotify:track:4uLU6hMC") =
  getSpotifyInfo trimBlanks sampleEndpoint
    (Some "https://open.spotify.com/track/4uLU6hMC?si=abc").
Proof.
  apply (uri_as_link trimBlanks sampleEndpoint "https://open.spotify.com" "4uLU6hMC"
           "?si=abc"); try reflexivity.
  right; left; eexists; reflexivity.
Defined.

Lemma title_split_witness :
  songName (spotifyInfo trimBlanks (Some "Song A  - Artist - Live") None None) = "Song A" /\
  artistName (spotifyInfo trimBlanks (Some "Song A  - Artist - Live") None None) = "Artist".
Proof.
  destruct (title_split trimBlanks "Song A  - Artist - Live" None None) as [_ Hsplit].
  destruct (Hsplit "Song A " "Artist - Live" eq_refl eq_refl) as (Hsong & _ & Hartist).
  split; [exact Hsong|]. exact (Hartist "Artist" "Live" eq_refl eq_refl).
Defined.

Lemma thumbnail_image_id_witness :
  spotifyImageId (spotifyInfo trimBlanks None (Some "https://i.scdn.co/image/ab67616d") None) =
    extractSpotifyImageId (Some "https://i.scdn.co/image/ab67616d").
Proof.
  destruct (thumbnail_image_id trimBlanks None None "https://i.scdn.co/image/ab67616d")
    as (_ & _ & Hcdn).
  exact (Hcdn "ab67616d" eq_refl eq_refl).
Defined.

Lemma lookup_artwork_reaches_gateway_witness :
  buildAssets
    (clientActivity trimBlanks sampleEndpoint "" "2" "" ""
       " https://open.spotify.com/track/4uLU6hMC?si=abc ") =
    {| large_image := Some "spotify:ab67616d"; large_text := Some "Song A" |}.
Proof.
  destruct (lookup_artwork_reaches_gateway trimBlanks sampleEndpoint parseDigits
              "" "2" "" "" " https://open.spotify.com/track/4uLU6hMC?si=abc "
              {| songName := "Song A"; artistName := "Artist";
                 thumbnailUrl := "https://i.scdn.co/image/ab67616d";
                 spotifyImageId := Some "ab67616d"; trackId := Some "4uLU6hMC" |}
              "ab67616d")
    as (_ & _ & Hassets & _);
    [discriminate|vm_compute; reflexivity|reflexivity|discriminate|reflexivity
    |discriminate|].
  exact Hassets.
Defined.

Lemma blank_form_clears_witness :
  presenceUpdate parseDigits (clientActivity trimBlanks sampleEndpoint "  " "0" "x" "y" "") =
    clearPresence.
Proof.
  destruct (blank_form_clears trimBlanks sampleEndpoint parseDigits "  " "0" "x" "y" "")
    as [_ Hclear]; [reflexivity|left; reflexivity|].
  exact Hclear.
Defined.

(** ** What the lookup asks and what it rejects *)

Section LookupGuards.

Variable trim : string -> string.

(** X20.  Whatever address the lookup is given, the answer depends on the
    remote endpoint only through addresses that begin with the oEmbed address
    of open.spotify.com: the server asks no other host. *)
Theorem lookup_asks_spotify_only (fetch fetch' : string -> FetchResult)
    (url : option string) :
  (forall a, startsWith a "https://open.spotify.com/oembed?url=https://open.spotify.com/"
             = true -> fetch a = fetch' a) ->
  getSpotifyInfo trim fetch url = getSpotifyInfo trim fetch' url.
Proof.
  intros Hsame. unfold getSpotifyInfo. destruct url as [u|]; [|reflexivity].
  destruct (negb _); [reflexivity|].
  destruct (spotifyTarget u) as [[urlType id]|]; [|reflexivity].
  rewrite (Hsame (oembedUrl urlType id)); [reflexivity|].
  unfold oembedUrl. apply startsWith_append.
Qed.

(** X21.  The lookup rejects a missing or empty address, and an address
    with no slash and no colon, with code 400, whatever the remote endpoint
    would say. *)
Theorem lookup_rejects (fetch : string -> FetchResult) (url : option string) :
  (truthy url = false ->
   getSpotifyInfo trim fetch url = LookupError 400 "Spotify URL is required" None) /\
  (forall u, url = Some u -> u <> "" -> lacks "/" u = true -> lacks ":" u = true ->
   getSpotifyInfo trim fetch url = LookupError 400 "Invalid Spotify URL" None).
Proof.
  split.
  - intros Hurl. unfold getSpotifyInfo. destruct url as [u|]; [|reflexivity].
    rewrite Hurl. reflexivity.
  - intros u -> Hu Hslash Hcolon. unfold getSpotifyInfo, spotifyTarget.
    rewrite (truthy_nonempty u Hu). cbn [negb].
    rewrite (includes_lacks "/" u "/track/" Hslash eq_refl).
    rewrite (includes_lacks "/" u "/album/" Hslash eq_refl).
    rewrite (includes_lacks ":" u "spotify:track:" Hcolon eq_refl).
    rewrite (includes_lacks ":" u "spotify:album:" Hcolon eq_refl).
    reflexivity.
Qed.

End LookupGuards.

Lemma lookup_asks_spotify_only_witness :
  getSpotifyInfo trimBlanks sampleEndpoint (Some "spotify:track:4uLU6hMC") =
  getSpotifyInfo trimBlanks
    (fun a => if startsWith a "https://open.spotify.com/" then sampleEndpoint a
              else FetchThrows None)
    (Some "spotify:track:4uLU6hMC").
Proof.
  apply lookup_asks_spotify_only. intros a Ha.
  assert (startsWith a "https://open.spotify.com/" = true) as ->; [|reflexivity].
  change "https://open.spotify.com/oembed?url=https://open.spotify.com/"
    with ("https://open.spotify.com/" +:+ "oembed?url=https://open.spotify.com/") in Ha.
  revert Ha. generalize "oembed?url=https://open.spotify.com/".
  generalize "https://open.spotify.com/". intros p. revert a.
  induction p as [|ch p IH]; intros a q H; [reflexivity|].
  destruct a as [|b a]; [discriminate|]. simpl in H |- *.
  destruct (Ascii.eqb ch b); [|discriminate]. simpl in H |- *. exact (IH a q H).
Defined.

Lemma lookup_rejects_witness :
  getSpotifyInfo trimBlanks sampleEndpoint (Some "4uLU6hMC") =
    LookupError 400 "Invalid Spotify URL" None.
Proof.
  destruct (lookup_rejects trimBlanks sampleEndpoint (Some "4uLU6hMC")) as [_ H].
  apply (H "4uLU6hMC"); [reflexivity|discriminate|reflexivity|reflexivity].
Defined.

(** ** A client socket that registers twice *)

Lemma clientSays_tables j sid w cs :
  clients w !! j = Some cs ->
  clients (clientSays j "register" sid w) =
    <[j := {| clientReadyState := clientReadyState cs; clientSessionId := Some sid |}]>
      (clients w) /\
  clientWebSockets (clientSays j "register" sid w) = <[sid := j]> (clientWebSockets w).
Proof.
  intros Hj. unfold clientSays. rewrite Hj. simpl.
  repeat case_match; split; reflexivity.
Qed.

Section Resubscription.

Variable parseInt : option string -> JsNumber.

(** X22.  A client socket that registers a second session id stays the
    subscriber of the first: it is notified for both while it is open, and when
    it closes only the id it registered last is unsubscribed; the first id
    keeps pointing at the closed socket, so its notifications are dropped. *)
Theorem reregister_leaves_stale_subscription (w : World) (j : nat) (cs : ClientSocket)
    (sid1 sid2 : string) :
  clients w !! j = Some cs -> sid1 <> sid2 -> sid2 <> "" ->
  let w2 := run parseInt w [ClientSays j "register" sid1; ClientSays j "register" sid2] in
  let w3 := step parseInt w2 (ClientClose j) in
  clientWebSockets w2 !! sid1 = Some j /\ clientWebSockets w2 !! sid2 = Some j /\
  clientWebSockets w3 !! sid1 = Some j /\ clientWebSockets w3 !! sid2 = None /\
  forall data, notifyClient sid1 data w3 = w3 /\ notifyClient sid2 data w3 = w3.
Proof.
  intros Hj Hne Hsid2 w2 w3.
  assert (clients w2 !! j =
            Some {| clientReadyState := clientReadyState cs; clientSessionId := Some sid2 |} /\
          clientWebSockets w2 = <[sid2 := j]> (<[sid1 := j]> (clientWebSockets w)))
    as (Hj2 & Hsubs).
  { subst w2.
    change (run parseInt w [ClientSays j "register" sid1; ClientSays j "register" sid2])
      with (clientSays j "register" sid2 (clientSays j "register" sid1 w)).
    destruct (clientSays_tables j sid1 w cs Hj) as (C1 & S1).
    assert (clients (clientSays j "register" sid1 w) !! j =
              Some {| clientReadyState := clientReadyState cs;
                      clientSessionId := Some sid1 |}) as Hj1
      by (rewrite C1; apply lookup_insert_eq).
    destruct (clientSays_tables j sid2 _ _ Hj1) as (C2 & S2).
    rewrite C2, S2, S1. split; [apply lookup_insert_eq|reflexivity]. }
  clearbody w2.
  assert (clients w3 !! j =
            Some {| clientReadyState := CLOSED; clientSessionId := Some sid2 |} /\
          clientWebSockets w3 = delete sid2 (clientWebSockets w2)) as (Hj3 & Hsubs3).
  { subst w3. cbn [step]. unfold clientClose. rewrite Hj2. cbn [clientSessionId].
    rewrite (truthy_nonempty sid2 Hsid2). simpl. split; [apply lookup_insert_eq|reflexivity]. }
  clearbody w3. rewrite Hsubs3, Hsubs.
  split; [rewrite lookup_insert_ne by congruence; apply lookup_insert_eq|].
  split; [apply lookup_insert_eq|].
  assert (delete sid2 (<[sid2:=j]> (<[sid1:=j]> (clientWebSockets w))) !! sid1 = Some j)
    as Hstale.
  { rewrite lookup_delete_ne by congruence.
    rewrite lookup_insert_ne by congruence. apply lookup_insert_eq. }
  split; [exact Hstale|]. split; [apply lookup_delete_eq|].
  intros data. unfold notifyClient. rewrite Hsubs3, Hsubs, Hstale, Hj3, lookup_delete_eq.
  split; reflexivity.
Qed.

End Resubscription.

Lemma reregister_leaves_stale_subscription_witness :
  clientWebSockets
    (step parseDigits
       (run parseDigits secondClientWorld
          [ClientSays 5 "register" "s1"; ClientSays 5 "register" "s2"])
       (ClientClose 5)) !! "s1" = Some 5%nat.
Proof.
  destruct (reregister_leaves_stale_subscription parseDigits secondClientWorld 5%nat
              {| clientReadyState := OPEN; clientSessionId := None |} "s1" "s2")
    as (_ & _ & Hstale & _); [vm_compute; reflexivity|discriminate|discriminate|].
  exact Hstale.
Defined.

(** ** Runs of the server *)

Lemma evolves_refl w : evolves w w.
Proof.
  split; [lia|]. split; [|auto]. intros c cn H. exists cn. repeat split; auto.
Qed.

Lemma evolves_trans w1 w2 w3 : evolves w1 w2 -> evolves w2 w3 -> evolves w1 w3.
Proof.
  intros (N1 & F1 & B1) (N2 & F2 & B2). split; [lia|]. split.
  - intros c cn H. destruct (F1 c cn H) as (cn2 & H2 & T2 & S2 & R2).
    destruct (F2 c cn2 H2) as (cn3 & H3 & T3 & S3 & R3).
    exists cn3. repeat split; [exact H3|congruence|congruence|auto].
  - auto.
Qed.

(** A step that leaves the connection objects alone. *)
Lemma evolves_quiet w0 w1 w2 :
  conns w2 = conns w1 -> (next w1 <= next w2)%nat -> evolves w0 w1 -> evolves w0 w2.
Proof.
  intros C N H. apply (evolves_trans _ w1); [exact H|].
  split; [exact N|]. rewrite C. split; [|auto].
  intros c cn Hc. exists cn. repeat split; auto.
Qed.

Lemma evolves_assign w0 c f w1 :
  fieldUpdate f -> evolves w0 w1 -> evolves w0 (assign c f w1).
Proof.
  intros Hf H. apply (evolves_trans _ w1); [exact H|].
  split; [simpl; lia|]. split.
  - intros c' cn Hc. simpl. destruct (decide (c = c')) as [<-|Hne].
    + rewrite lookup_alter_eq, Hc. simpl. exists (f cn). split; [reflexivity|apply Hf].
    + rewrite lookup_alter_ne by exact Hne. exists cn. repeat split; auto.
  - intros c' Hc. simpl. destruct (decide (c = c')) as [<-|Hne].
    + rewrite lookup_alter_eq, Hc. reflexivity.
    + rewrite lookup_alter_ne by exact Hne. exact Hc.
Qed.

Ltac field_update :=
  let cn := fresh "cn" in
  intros cn; destruct cn; simpl; repeat split; (reflexivity || discriminate || auto).

(** One layer of a composed state: an assignment, or a change of another
    part of the state. *)
Ltac peel :=
  lazymatch goal with
  | |- evolves _ (assign _ _ _) => apply evolves_assign; [field_update|]
  | |- evolves _ (notifyClient _ _ _) => rewrite notifyClient_eq
  | |- evolves _ (?op ?w1) => apply (evolves_quiet _ w1); [reflexivity|simpl; lia|]
  | |- evolves _ (?op _ ?w1) => apply (evolves_quiet _ w1); [reflexivity|simpl; lia|]
  | |- evolves _ (?op _ _ ?w1) => apply (evolves_quiet _ w1); [reflexivity|simpl; lia|]
  end.

Ltac peels := repeat (assumption || peel).

Lemma evolves_cleanup w0 c w1 : evolves w0 w1 -> evolves w0 (cleanup c w1).
Proof. intros H. unfold cleanup. repeat case_match; peels. Qed.

Lemma evolves_connect w0 c w1 : evolves w0 w1 -> evolves w0 (snd (connect c w1)).
Proof. intros H. unfold connect. cbn [snd]. peels. Qed.

Lemma evolves_settle w0 k st w1 : evolves w0 w1 -> evolves w0 (settle k st w1).
Proof. intros H. unfold settle. repeat case_match; peels. Qed.

Lemma evolves_startKeepAlive w0 c w1 : evolves w0 w1 -> evolves w0 (startKeepAlive c w1).
Proof.
  intros H. unfold startKeepAlive, setInterval, clearInterval.
  repeat case_match; peels.
Qed.

Lemma evolves_heartbeatTick w0 c w1 : evolves w0 w1 -> evolves w0 (heartbeatTick c w1).
Proof. intros H. unfold heartbeatTick. repeat case_match; peels. Qed.

Lemma evolves_onClose w0 c w1 : evolves w0 w1 -> evolves w0 (onClose c w1).
Proof.
  intros H. unfold onClose. repeat case_match; peels; apply evolves_cleanup, H.
Qed.

Lemma evolves_disconnect w0 c w1 : evolves w0 w1 -> evolves w0 (disconnect c w1).
Proof.
  intros H. unfold disconnect. repeat case_match; peels;
    apply evolves_cleanup; peels.
Qed.

Lemma evolves_resume w0 k w1 : evolves w0 w1 -> evolves w0 (resume k w1).
Proof. intros H. unfold resume. repeat case_match; peels. Qed.

Section Evolution.

Variable parseInt : option string -> JsNumber.

Lemma evolves_updatePresence w0 c d w1 :
  evolves w0 w1 -> evolves w0 (snd (updatePresence parseInt c d w1)).
Proof.
  intros H. unfold updatePresence. repeat case_match; cbn [snd]; peels.
Qed.

Lemma evolves_keepAliveTick w0 c w1 :
  evolves w0 w1 -> evolves w0 (keepAliveTick parseInt c w1).
Proof. intros H. unfold keepAliveTick. repeat case_match; peels. Qed.

Lemma evolves_handleMessage w0 c k payload w1 :
  evolves w0 w1 -> evolves w0 (handleMessage parseInt c k payload w1).
Proof.
  intros H. unfold handleMessage, setInterval.
  assert (evolves w0 (if truthyNumber (p_s payload)
                      then assign c (set_lastSequence (p_s payload)) w1 else w1)) as H0
    by (destruct (truthyNumber _); peels).
  revert H0. generalize (if truthyNumber (p_s payload)
                         then assign c (set_lastSequence (p_s payload)) w1 else w1).
  intros w H0. repeat case_match; peels;
    try (apply evolves_updatePresence); try (apply evolves_settle);
    try (apply evolves_startKeepAlive); peels.
Qed.

Lemma evolves_step w e :
  (forall tok sid, e = PostConnect (Some tok) sid -> tok = "") ->
  evolves w (step parseInt w e).
Proof.
  intros He. pose proof (evolves_refl w) as H.
  destruct e as [tok sid0|sid0 act|sid0|sid0|k|k payload|k|k msg|h|i| |j ty sid0|j];
    cbn [step].
  - unfold postConnect. destruct tok as [t|]; [|peels].
    rewrite (He t sid0 eq_refl). cbn. peels.
  - unfold postUpdateStatus. repeat case_match; peels.
    all: match goal with
         | E : updatePresence _ ?c ?d ?w = (_, ?w1) |- _ =>
             change w1 with (snd (Thrown, w1)); rewrite <- E ||
             (change w1 with (snd (Returned, w1)); rewrite <- E)
         end; apply evolves_updatePresence, H.
  - unfold postDisconnect. repeat case_match; peels. apply evolves_disconnect, H.
  - unfold getStatus. repeat case_match; peels.
  - peels.
  - repeat case_match; peels. apply evolves_resume, evolves_handleMessage, H.
  - repeat case_match; peels. apply evolves_onClose. peels.
  - repeat case_match; peels. apply evolves_resume, evolves_settle. peels.
  - repeat case_match; peels;
      [apply evolves_heartbeatTick, H|apply evolves_keepAliveTick, H].
  - repeat case_match; peels. apply evolves_connect. peels.
  - unfold clientConnection. peels.
  - unfold clientSays. repeat case_match; peels.
  - unfold clientClose. repeat case_match; peels.
Qed.

End Evolution.

(** Where an entry of the registry and a suspended request come from. *)
Lemma resume_awaiting k w k' x :
  awaiting (resume k w) !! k' = Some x -> awaiting w !! k' = Some x.
Proof.
  unfold resume. destruct (awaiting w !! k) as [[sid c]|] eqn:Hk; [|auto].
  destruct (promises w !! k) as [[]|]; simpl; auto;
    intros H; apply lookup_delete_Some in H as [_ H]; exact H.
Qed.

Section Sources.

Variable parseInt : option string -> JsNumber.

Lemma step_awaiting_source w e k x :
  awaiting (step parseInt w e) !! k = Some x ->
  awaiting w !! k = Some x \/
  exists tok sid, e = PostConnect (Some tok) sid /\ tok <> "" /\ x = (sid, next w).
Proof.
  pose proof (step_tables parseInt w e) as Hquiet.
  destruct e as [tok sid0|sid0 act|sid0|sid0|k0|k0 payload|k0|k0 msg|h|i| |j ty sid0|j];
    try (destruct Hquiet as (_ & -> & _); auto); cbn [step].
  - unfold postConnect. destruct tok as [t|]; [|auto].
    destruct (String.eqb_spec t "") as [->|Ht]; [auto|].
    assert (truthy (Some t) = true) as -> by (apply truthy_nonempty, Ht).
    cbn. intros H. apply lookup_insert_Some in H as [[_ <-]|[_ H]]; [|auto].
    right. exists t, sid0. auto.
  - unfold postDisconnect. destruct sid0 as [id|]; [|auto].
    destruct (negb _); [auto|]. destruct (activeConnections w !! id) as [c|]; [|auto].
    simpl. destruct (disconnect_tables c w) as (_ & -> & _). auto.
  - destruct (sockets w !! k0) as [s|]; [|auto]. intros H.
    apply resume_awaiting in H.
    destruct (handleMessage_tables parseInt (owner s) k0 payload w) as (Ha & _).
    rewrite Ha in H. auto.
  - destruct (sockets w !! k0) as [s|]; [|auto]. intros H.
    apply resume_awaiting in H.
    destruct (settle_rest k0 (Rejected msg) (with_sockets (alter closing k0) w))
      as (_ & _ & Ha & _).
    rewrite Ha in H. auto.
  - destruct (timeouts w !! i) as [[c ms]|]; [|auto]. auto.
Qed.

Lemma step_registry_source w e sid c :
  activeConnections (step parseInt w e) !! sid = Some c ->
  activeConnections w !! sid = Some c \/ exists k, awaiting w !! k = Some (sid, c).
Proof.
  intros H.
  assert (forall k w1, awaiting w1 = awaiting w ->
            activeConnections w1 = activeConnections w ->
            step parseInt w e = resume k w1 ->
            activeConnections w !! sid = Some c \/
            exists k, awaiting w !! k = Some (sid, c)) as Hresume.
  { intros k w1 Aw Rw E. rewrite E in H.
    destruct (resume_registry k w1) as [R|(sid' & c' & Hk & _ & R)];
      rewrite R, Rw in H; [auto|].
    apply lookup_insert_Some in H as [[<- <-]|[_ H]]; [|auto].
    right. exists k. rewrite <- Aw. exact Hk. }
  pose proof (step_registry_same parseInt w e) as Hsame.
  destruct e as [tok sid0|sid0 act|sid0|sid0|k0|k0 payload|k0|k0 msg|h|i| |j ty sid0|j];
    try (rewrite Hsame in H; auto).
  - cbn [step] in H. destruct (postDisconnect_registry sid0 w) as [R|(id & _ & R)];
      rewrite R in H; [auto|].
    apply lookup_delete_Some in H as [_ H]. auto.
  - destruct (step_gateway_registry parseInt w (GatewayMessage k0 payload) k0)
      as [R|(w1 & Aw & Rw & E & _)]; [eauto|rewrite R in H; auto|].
    exact (Hresume k0 w1 Aw Rw E).
  - destruct (step_gateway_registry parseInt w (GatewayError k0 msg) k0)
      as [R|(w1 & Aw & Rw & E & _)]; [eauto|rewrite R in H; auto|].
    exact (Hresume k0 w1 Aw Rw E).
Qed.

(** What the connect endpoint does with a credential: a new connection
    object under the next reference, and then changes that make none. *)
Lemma postConnect_evolves tok sid w :
  tok <> "" ->
  evolves (with_conns (insert (next w) (newDiscordConnection tok sid)) (with_next S w))
    (postConnect (Some tok) sid w).
Proof.
  intros Ht. unfold postConnect.
  assert (truthy (Some tok) = true) as -> by (apply truthy_nonempty, Ht).
  cbn [negb]. unfold connect.
  set (w1 := with_conns _ _). pose proof (evolves_refl w1) as H. peels.
Qed.

(** A step keeps every connection object, with its credential and its
    session id, and enables reconnecting for none. *)
Lemma step_conn w e c cn :
  allocated w -> conns w !! c = Some cn ->
  exists cn', conns (step parseInt w e) !! c = Some cn' /\ token cn' = token cn /\
    sessionId cn' = sessionId cn /\
    (shouldReconnect cn' = true -> shouldReconnect cn = true).
Proof.
  intros Hal Hc.
  assert ((forall tok sid, e = PostConnect (Some tok) sid -> tok = "") \/
          exists tok sid, e = PostConnect (Some tok) sid /\ tok <> "")
    as [He|(tok & sid & -> & Ht)].
  { destruct e as [[t|] sid0| | | | | | | | | | | |]; try (left; discriminate).
    destruct (String.eqb_spec t "") as [->|Ht].
    - left. intros tok sid [= <- _]. reflexivity.
    - right. eauto. }
  - destruct (evolves_step parseInt w e He) as (_ & F & _). exact (F c cn Hc).
  - destruct (postConnect_evolves tok sid w Ht) as (_ & F & _). apply F. simpl.
    rewrite lookup_insert_ne; [exact Hc|].
    intros <-. rewrite (Hal (next w)) in Hc by lia. discriminate.
Qed.

Lemma allocated_step w e : allocated w -> allocated (step parseInt w e).
Proof.
  intros Hal.
  assert ((forall tok sid, e = PostConnect (Some tok) sid -> tok = "") \/
          exists tok sid, e = PostConnect (Some tok) sid /\ tok <> "")
    as [He|(tok & sid & -> & Ht)].
  { destruct e as [[t|] sid0| | | | | | | | | | | |]; try (left; discriminate).
    destruct (String.eqb_spec t "") as [->|Ht].
    - left. intros tok sid [= <- _]. reflexivity.
    - right. eauto. }
  - destruct (evolves_step parseInt w e He) as (N & _ & B).
    intros c Hc. apply B, Hal. lia.
  - destruct (postConnect_evolves tok sid w Ht) as (N & _ & B).
    change (S (next w) <= next (postConnect (Some tok) sid w))%nat in N.
    intros c Hc. change (next (postConnect (Some tok) sid w) <= c)%nat in Hc.
    apply B. cbn [conns with_conns with_next].
    rewrite lookup_insert_ne by lia. apply Hal. lia.
Qed.

Lemma holds_step w e sid c : allocated w -> holds w sid c -> holds (step parseInt w e) sid c.
Proof.
  intros Hal (cn & Hc & Hsid).
  destruct (step_conn w e c cn Hal Hc) as (cn' & Hc' & _ & Hsid' & _).
  exists cn'. split; [exact Hc'|congruence].
Qed.

Lemma registered_step w e :
  allocated w -> registered w -> registered (step parseInt w e).
Proof.
  intros Hal [Hreg Hawait]. split.
  - intros sid c H. apply holds_step; [exact Hal|].
    destruct (step_registry_source w e sid c H) as [H0|[k H0]]; eauto.
  - intros k sid c H.
    destruct (step_awaiting_source w e k (sid, c) H)
      as [H0|(tok & sid' & -> & Ht & [= <- ->])].
    + apply holds_step; [exact Hal|]. eauto.
    + destruct (postConnect_evolves tok sid w Ht) as (_ & F & _).
      destruct (F (next w) (newDiscordConnection tok sid)) as (cn' & Hc' & _ & Hsid & _);
        [simpl; apply lookup_insert_eq|].
      exists cn'. split; [exact Hc'|exact Hsid].
Qed.

Lemma allocated_run es w : allocated w -> allocated (run parseInt w es).
Proof.
  revert w. induction es as [|e es IH]; intros w H; [exact H|].
  simpl. apply IH, allocated_step, H.
Qed.

Lemma registered_run es w :
  allocated w -> registered w -> registered (run parseInt w es).
Proof.
  revert w. induction es as [|e es IH]; intros w Hal H; [exact H|].
  simpl. apply IH; [apply allocated_step, Hal|apply registered_step; assumption].
Qed.

Lemma run_conn es w c cn :
  allocated w -> conns w !! c = Some cn ->
  exists cn', conns (run parseInt w es) !! c = Some cn' /\ token cn' = token cn /\
    sessionId cn' = sessionId cn /\
    (shouldReconnect cn' = true -> shouldReconnect cn = true).
Proof.
  revert w cn. induction es as [|e es IH]; intros w cn Hal Hc.
  - exists cn. repeat split; auto.
  - simpl. destruct (step_conn w e c cn Hal Hc) as (cn1 & Hc1 & T1 & S1 & R1).
    destruct (IH _ cn1 (allocated_step w e Hal) Hc1) as (cn2 & Hc2 & T2 & S2 & R2).
    exists cn2. repeat split; [exact Hc2|congruence|congruence|auto].
Qed.

Lemma allocated_empty : allocated emptyWorld.
Proof. intros c _. apply lookup_empty. Qed.

Lemma registered_empty : registered emptyWorld.
Proof. split; intros *; simpl; rewrite lookup_empty; discriminate. Qed.

(** X23.  In every run of the server from its start, a session id of the
    registry is held by a connection object that carries this id, so the
    status endpoint, asked for a registered id, answers with the state of
    that object. *)
Theorem registry_holds_sessions (es : list Event) (sid : string) (c : nat) :
  let w := run parseInt emptyWorld es in
  activeConnections w !! sid = Some c ->
  exists cn, conns w !! c = Some cn /\ sessionId cn = sid /\
    step parseInt w (GetStatus sid) =
      respond 200 (StatusBody (connectedValue cn w) (Some (currentActivity cn))) w.
Proof.
  intros w Hreg. subst w.
  destruct (registered_run es emptyWorld allocated_empty registered_empty) as [H _].
  destruct (H sid c Hreg) as (cn & Hc & Hsid). exists cn.
  split; [exact Hc|]. split; [exact Hsid|].
  cbn [step]. unfold getStatus. rewrite Hreg, Hc. reflexivity.
Qed.

(** X24.  In every run of the server from its start, a connection object
    keeps its credential and its session id for the rest of the run, and once
    its reconnect flag is off no event turns it on again. *)
Theorem reconnect_off_is_final (es es' : list Event) (c : nat) (cn : DiscordConnection) :
  let w := run parseInt emptyWorld es in
  conns w !! c = Some cn ->
  exists cn', conns (run parseInt w es') !! c = Some cn' /\
    token cn' = token cn /\ sessionId cn' = sessionId cn /\
    (shouldReconnect cn = false -> shouldReconnect cn' = false).
Proof.
  intros w Hc. subst w.
  destruct (run_conn es' _ c cn (allocated_run es emptyWorld allocated_empty) Hc)
    as (cn' & Hc' & T & S & R).
  exists cn'. repeat split; try assumption.
  intros Hoff. destruct (shouldReconnect cn'); [|reflexivity].
  rewrite R in Hoff by reflexivity. discriminate.
Qed.

End Sources.

(** ** Frames and the state of the socket *)

Lemma sentFrames_deliveries sid data w : sentFrames (deliveries sid data w) = [].
Proof.
  unfold deliveries. repeat case_match; reflexivity.
Qed.

Section Guards.

Variable U : Prop.

Lemma guarded_refl w : guarded U w w.
Proof.
  split; [auto|]. exists []. split; [symmetry; apply app_nil_r|].
  intros k f H. simpl in H. apply elem_of_nil in H. destruct H.
Qed.

(** A change that opens no socket and sends no frame. *)
Lemma guarded_quiet w0 w1 w2 :
  (forall k, isOpen k w2 = true -> isOpen k w1 = true) ->
  (exists x, log w2 = log w1 ++ x /\ sentFrames x = []) ->
  guarded U w0 w1 -> guarded U w0 w2.
Proof.
  intros Hopen (x & Hlog & Hx) (Hmono & l & Hl & Hsent). split; [auto|].
  exists (l ++ x). split; [rewrite Hlog, Hl, app_assoc; reflexivity|].
  intros k f H. rewrite sentFrames_app, Hx, app_nil_r in H. auto.
Qed.

(** A frame handed to [send]. *)
Lemma guarded_send w0 k f w1 :
  (U /\ op f = 2) \/ ((op f = 1 \/ op f = 3) /\ isOpen k w1 = true) ->
  guarded U w0 w1 -> guarded U w0 (ws_send k f w1).
Proof.
  intros Hf (Hmono & l & Hl & Hsent). split; [exact Hmono|].
  exists (l ++ [WsSend k f]). split; [simpl; rewrite Hl, app_assoc; reflexivity|].
  intros k' f' H. rewrite sentFrames_app in H. apply elem_of_app in H as [H|H]; [auto|].
  simpl in H. apply list_elem_of_singleton in H. injection H as -> ->.
  destruct Hf as [?|[? ?]]; auto.
Qed.

Lemma guarded_notifyClient w0 sid data w1 :
  guarded U w0 w1 -> guarded U w0 (notifyClient sid data w1).
Proof.
  intros H. rewrite notifyClient_eq. apply (guarded_quiet _ w1); [auto| |exact H].
  eexists. split; [reflexivity|apply sentFrames_deliveries].
Qed.

End Guards.

Lemma isOpen_closing k k' w :
  isOpen k' (with_sockets (alter closing k) w) = true -> isOpen k' w = true.
Proof.
  unfold isOpen. simpl. destruct (decide (k = k')) as [<-|Hne].
  - rewrite lookup_alter_eq. destruct (sockets w !! k) as [[[] o]|]; simpl; auto.
  - rewrite lookup_alter_ne by exact Hne. auto.
Qed.

Lemma isOpen_insert k s k' w :
  readyState s <> OPEN ->
  isOpen k' (with_sockets (insert k s) w) = true -> isOpen k' w = true.
Proof.
  intros Hs. unfold isOpen. simpl. destruct (decide (k = k')) as [<-|Hne].
  - rewrite lookup_insert_eq. case_bool_decide; [contradiction|discriminate].
  - rewrite lookup_insert_ne by exact Hne. auto.
Qed.

(** The log of a change that sends no frame. *)
Ltac quiet_log :=
  first [ exists []; split; [symmetry; apply app_nil_r|reflexivity]
        | eexists [_]; split; reflexivity
        | eexists; split; [reflexivity|reflexivity] ].

Ltac quiet_sockets :=
  let k := fresh "k" in
  first [ intros k; exact (fun H => H)
        | intros k; apply isOpen_closing
        | intros k; apply isOpen_insert; discriminate ].

(** The socket of a connected session is open. *)
Ltac open_socket :=
  match goal with
  | Hc : conns ?w !! ?c = Some ?cn, Hw : ws ?cn = Some ?k,
    H : connected ?c ?w = true |- isOpen ?k _ = true =>
      unfold connected in H; rewrite Hc, Hw in H; exact H
  | Hc : conns ?w !! ?c = Some ?cn, Hw : ws ?cn = Some ?k,
    H : negb (connected ?c ?w) = false |- isOpen ?k _ = true =>
      apply negb_false_iff in H; unfold connected in H; rewrite Hc, Hw in H; exact H
  end.

Ltac guard_layer :=
  lazymatch goal with
  | |- guarded _ _ (notifyClient _ _ _) => apply guarded_notifyClient
  | |- guarded _ _ (ws_send _ _ _) =>
      apply guarded_send;
      [first [ right; split; [first [left; reflexivity|right; reflexivity]|open_socket]
             | left; split; [|reflexivity] ]|]
  | |- guarded _ _ (?op ?w1) =>
      apply (guarded_quiet _ _ w1); [quiet_sockets|quiet_log|]
  | |- guarded _ _ (?op _ ?w1) =>
      apply (guarded_quiet _ _ w1); [quiet_sockets|quiet_log|]
  | |- guarded _ _ (?op _ _ ?w1) =>
      apply (guarded_quiet _ _ w1); [quiet_sockets|quiet_log|]
  end.

Ltac guards := repeat (assumption || guard_layer).

Section GuardedMethods.

Variable parseInt : option string -> JsNumber.
Variable U : Prop.

Lemma guarded_cleanup w0 c w1 : guarded U w0 w1 -> guarded U w0 (cleanup c w1).
Proof. intros H. unfold cleanup, clearInterval. repeat case_match; guards. Qed.

Lemma guarded_connect w0 c w1 : guarded U w0 w1 -> guarded U w0 (snd (connect c w1)).
Proof. intros H. unfold connect. cbn [snd]. guards. Qed.

Lemma guarded_settle w0 k st w1 : guarded U w0 w1 -> guarded U w0 (settle k st w1).
Proof. intros H. unfold settle. repeat case_match; guards. Qed.

Lemma guarded_startKeepAlive w0 c w1 :
  guarded U w0 w1 -> guarded U w0 (startKeepAlive c w1).
Proof.
  intros H. unfold startKeepAlive, setInterval, clearInterval.
  repeat case_match; guards.
Qed.

Lemma guarded_updatePresence w0 c d w1 :
  guarded U w0 w1 -> guarded U w0 (snd (updatePresence parseInt c d w1)).
Proof.
  intros H. unfold updatePresence. repeat case_match; cbn [snd]; guards.
Qed.

Lemma guarded_heartbeatTick w0 c w1 :
  guarded U w0 w1 -> guarded U w0 (heartbeatTick c w1).
Proof. intros H. unfold heartbeatTick, ws_close. repeat case_match; guards. Qed.

Lemma guarded_keepAliveTick w0 c w1 :
  guarded U w0 w1 -> guarded U w0 (keepAliveTick parseInt c w1).
Proof. intros H. unfold keepAliveTick. repeat case_match; guards. Qed.

Lemma guarded_onClose w0 c w1 : guarded U w0 w1 -> guarded U w0 (onClose c w1).
Proof.
  intros H. unfold onClose, setTimeout. repeat case_match; guards;
    apply guarded_cleanup, H.
Qed.

Lemma guarded_disconnect w0 c w1 : guarded U w0 w1 -> guarded U w0 (disconnect c w1).
Proof.
  intros H. unfold disconnect, ws_close. repeat case_match; guards;
    apply guarded_cleanup; guards.
Qed.

Lemma guarded_resume w0 k w1 : guarded U w0 w1 -> guarded U w0 (resume k w1).
Proof. intros H. unfold resume, respond. repeat case_match; guards. Qed.

End GuardedMethods.

Lemma guarded_weaken (U U' : Prop) w0 w1 : (U -> U') -> guarded U w0 w1 -> guarded U' w0 w1.
Proof.
  intros HU (Hmono & l & Hl & Hsent). split; [exact Hmono|].
  exists l. split; [exact Hl|]. intros k f H.
  destruct (Hsent k f H) as [[? ?]|?]; auto.
Qed.

Section GuardedSteps.

Variable parseInt : option string -> JsNumber.

Lemma guarded_handleMessage w0 c k payload w1 :
  guarded (p_op payload = 10) w0 w1 ->
  guarded (p_op payload = 10) w0 (handleMessage parseInt c k payload w1).
Proof.
  intros H. unfold handleMessage, setInterval, ws_close.
  assert (guarded (p_op payload = 10) w0
            (if truthyNumber (p_s payload)
             then assign c (set_lastSequence (p_s payload)) w1 else w1)) as H0
    by (destruct (truthyNumber _); guards).
  revert H0. generalize (if truthyNumber (p_s payload)
                         then assign c (set_lastSequence (p_s payload)) w1 else w1).
  intros w H0. repeat case_match; guards;
    try (apply Z.eqb_eq; assumption);
    try (apply guarded_updatePresence); try (apply guarded_settle);
    try (apply guarded_startKeepAlive); guards.
Qed.

(** X25.  Whatever the state and the event, the frames the server hands to
    [send] while it handles the event are heartbeats and presence updates
    for a socket that is open, or the identify frame that answers a hello
    frame, which is sent without a look at the socket; and the log of the
    calls only grows. *)
Theorem frames_need_open_socket (w : World) (e : Event) :
  exists l, log (step parseInt w e) = log w ++ l /\
    forall k f, (k, f) ∈ sentFrames l ->
      (op f = 2 /\ exists k0 payload, e = GatewayMessage k0 payload /\ p_op payload = 10) \/
      ((op f = 1 \/ op f = 3) /\ isOpen k w = true).
Proof.
  assert (guarded (exists k0 payload, e = GatewayMessage k0 payload /\ p_op payload = 10)
            w (step parseInt w e) \/
          exists k0, e = GatewayOpen k0) as [(_ & l & Hl & Hsent)|[k0 ->]].
  { pose proof (guarded_refl (exists k0 payload,
                   e = GatewayMessage k0 payload /\ p_op payload = 10) w) as H.
    destruct e as [tok sid0|sid0 act|sid0|sid0|k|k payload|k|k msg|h|i| |j ty sid0|j];
      [left..|right; eauto|left|left|left|left|left|left|left|left]; cbn [step].
    - unfold postConnect, respond, connect. repeat case_match; guards.
    - unfold postUpdateStatus, respond. repeat case_match; guards.
      all: match goal with
           | E : updatePresence _ ?c ?d ?w = (_, ?w1) |- _ =>
               change w1 with (snd (Thrown, w1)); rewrite <- E ||
               (change w1 with (snd (Returned, w1)); rewrite <- E)
           end; apply guarded_updatePresence, H.
    - unfold postDisconnect, respond. repeat case_match; guards.
      apply guarded_disconnect, H.
    - unfold getStatus, respond. repeat case_match; guards.
    - repeat case_match; guards. apply guarded_resume.
      apply (guarded_weaken (p_op payload = 10)); [eauto|].
      apply guarded_handleMessage, guarded_refl.
    - repeat case_match; guards. apply guarded_onClose. guards.
    - repeat case_match; guards. apply guarded_resume, guarded_settle. guards.
    - repeat case_match; guards;
        [apply guarded_heartbeatTick, H|apply guarded_keepAliveTick, H].
    - repeat case_match; guards. apply guarded_connect. guards.
    - unfold clientConnection. guards.
    - unfold clientSays. repeat case_match; guards.
    - unfold clientClose. repeat case_match; guards. }
  - exists l. split; [exact Hl|]. intros k f H.
    destruct (Hsent k f H) as [[? ?]|?]; auto.
  - exists []. split; [symmetry; apply app_nil_r|].
    intros k f H. simpl in H. apply elem_of_nil in H. destruct H.
Qed.

End GuardedSteps.

(** ** Requests and their answers *)

Lemma responses_app l l' : responses (l ++ l') = responses l ++ responses l'.
Proof. apply omap_app. Qed.

Lemma responses_deliveries sid data w : responses (deliveries sid data w) = [].
Proof. unfold deliveries. repeat case_match; reflexivity. Qed.

Lemma unanswered_refl w : unanswered w w.
Proof. exists []. split; [symmetry; apply app_nil_r|reflexivity]. Qed.

Lemma unanswered_quiet w0 w1 w2 :
  (exists x, log w2 = log w1 ++ x /\ responses x = []) ->
  unanswered w0 w1 -> unanswered w0 w2.
Proof.
  intros (x & Hlog & Hx) (l & Hl & Hr). exists (l ++ x).
  split; [rewrite Hlog, Hl, app_assoc; reflexivity|].
  rewrite responses_app, Hr, Hx. reflexivity.
Qed.

Lemma unanswered_notifyClient w0 sid data w1 :
  unanswered w0 w1 -> unanswered w0 (notifyClient sid data w1).
Proof.
  intros H. rewrite notifyClient_eq. apply (unanswered_quiet _ w1); [|exact H].
  eexists. split; [reflexivity|apply responses_deliveries].
Qed.

Ltac silent_layer :=
  lazymatch goal with
  | |- unanswered _ (notifyClient _ _ _) => apply unanswered_notifyClient
  | |- unanswered _ (?op ?w1) => apply (unanswered_quiet _ w1); [quiet_log|]
  | |- unanswered _ (?op _ ?w1) => apply (unanswered_quiet _ w1); [quiet_log|]
  | |- unanswered _ (?op _ _ ?w1) => apply (unanswered_quiet _ w1); [quiet_log|]
  end.

Ltac silent := repeat (assumption || silent_layer).

Lemma unanswered_cleanup w0 c w1 : unanswered w0 w1 -> unanswered w0 (cleanup c w1).
Proof. intros H. unfold cleanup, clearInterval. repeat case_match; silent. Qed.

Lemma unanswered_connect w0 c w1 : unanswered w0 w1 -> unanswered w0 (snd (connect c w1)).
Proof. intros H. unfold connect. cbn [snd]. silent. Qed.

Lemma unanswered_settle w0 k st w1 : unanswered w0 w1 -> unanswered w0 (settle k st w1).
Proof. intros H. unfold settle. repeat case_match; silent. Qed.

Lemma unanswered_startKeepAlive w0 c w1 :
  unanswered w0 w1 -> unanswered w0 (startKeepAlive c w1).
Proof.
  intros H. unfold startKeepAlive, setInterval, clearInterval.
  repeat case_match; silent.
Qed.

Lemma unanswered_heartbeatTick w0 c w1 :
  unanswered w0 w1 -> unanswered w0 (heartbeatTick c w1).
Proof. intros H. unfold heartbeatTick, ws_close, ws_send. repeat case_match; silent. Qed.

Lemma unanswered_onClose w0 c w1 : unanswered w0 w1 -> unanswered w0 (onClose c w1).
Proof.
  intros H. unfold onClose, setTimeout. repeat case_match; silent;
    apply unanswered_cleanup, H.
Qed.

Lemma unanswered_disconnect w0 c w1 : unanswered w0 w1 -> unanswered w0 (disconnect c w1).
Proof.
  intros H. unfold disconnect, ws_close. repeat case_match; silent;
    apply unanswered_cleanup; silent.
Qed.

(** The endpoint that awaits the promise [k] answers when the promise is
    settled, and is no longer suspended then. *)
Lemma resume_answers k w :
  resume k w = w \/
  exists sid c r, awaiting w !! k = Some (sid, c) /\
    log (resume k w) = log w ++ [Respond r] /\ awaiting (resume k w) !! k = None.
Proof.
  unfold resume. destruct (awaiting w !! k) as [[sid c]|]; [|auto].
  destruct (promises w !! k) as [[]|]; auto; right; exists sid, c; eexists;
    (split; [reflexivity|]); (split; [reflexivity|]); simpl; apply lookup_delete_eq.
Qed.

Section Answers.

Variable parseInt : option string -> JsNumber.

Lemma unanswered_updatePresence w0 c d w1 :
  unanswered w0 w1 -> unanswered w0 (snd (updatePresence parseInt c d w1)).
Proof.
  intros H. unfold updatePresence, ws_send. repeat case_match; cbn [snd]; silent.
Qed.

Lemma unanswered_keepAliveTick w0 c w1 :
  unanswered w0 w1 -> unanswered w0 (keepAliveTick parseInt c w1).
Proof. intros H. unfold keepAliveTick, ws_send. repeat case_match; silent. Qed.

Lemma unanswered_handleMessage w0 c k payload w1 :
  unanswered w0 w1 -> unanswered w0 (handleMessage parseInt c k payload w1).
Proof.
  intros H. unfold handleMessage, setInterval, ws_close, ws_send.
  assert (unanswered w0 (if truthyNumber (p_s payload)
                         then assign c (set_lastSequence (p_s payload)) w1 else w1)) as H0
    by (destruct (truthyNumber _); silent).
  revert H0. generalize (if truthyNumber (p_s payload)
                         then assign c (set_lastSequence (p_s payload)) w1 else w1).
  intros w H0. repeat case_match; silent;
    try (apply unanswered_updatePresence); try (apply unanswered_settle);
    try (apply unanswered_startKeepAlive); silent.
Qed.

(** An answer made at the end of a handler that made none before. *)
Lemma answered w r w1 :
  unanswered w w1 ->
  exists l, log (respond (statusCode r) (body r) w1) = log w ++ l /\
    exists l0, l = l0 ++ [Respond r] /\ responses l0 = [].
Proof.
  intros (l0 & Hl & Hr). exists (l0 ++ [Respond r]).
  split; [simpl; rewrite Hl, app_assoc; destruct r; reflexivity|]. eauto.
Qed.

(** X26.  In every run of the server from its start, the status, update
    and disconnect endpoints answer each request once, at the end of its
    handling; the connect endpoint answers a request without a credential
    with code 400 and leaves one with a credential unanswered for the time
    being; a frame or an error on a gateway socket makes the server answer at
    most the create-session request suspended on that socket, which is then no
    longer suspended; and no other event makes the server answer. *)
Theorem requests_answered_once (es : list Event) (e : Event) :
  let w := run parseInt emptyWorld es in
  exists l, log (step parseInt w e) = log w ++ l /\
    match e with
    | PostConnect tok _ =>
        if truthy tok then responses l = []
        else exists r, l = [Respond r] /\ statusCode r = 400%nat
    | PostUpdateStatus _ _ | PostDisconnect _ | GetStatus _ =>
        exists l0 r, l = l0 ++ [Respond r] /\ responses l0 = []
    | GatewayMessage k _ | GatewayError k _ =>
        responses l = [] \/
        exists sid c r, awaiting w !! k = Some (sid, c) /\
          awaiting (step parseInt w e) !! k = None /\ responses l = [r]
    | _ => responses l = []
    end.
Proof.
  intros w.
  assert (registered w) as [Hreg _]
    by (apply registered_run; [apply allocated_empty|apply registered_empty]).
  clearbody w. pose proof (unanswered_refl w) as H.
  assert (forall r w1, unanswered w w1 ->
            exists l, log (respond (statusCode r) (body r) w1) = log w ++ l /\
              exists l0 r0, l = l0 ++ [Respond r0] /\ responses l0 = []) as Hanswer.
  { intros r w1 H1. destruct (answered w r w1 H1) as (l & Hl & l0 & E & Hr). eauto 6. }
  assert (forall k w1, awaiting w1 = awaiting w -> unanswered w w1 ->
            exists l, log (resume k w1) = log w ++ l /\
              (responses l = [] \/
               exists sid c r, awaiting w !! k = Some (sid, c) /\
                 awaiting (resume k w1) !! k = None /\ responses l = [r])) as Hresume.
  { intros k w1 Aw (l1 & Hl1 & Hr1).
    destruct (resume_answers k w1) as [->|(sid & c & r & Hk & Hlog & Hgone)].
    - exists l1. auto.
    - exists (l1 ++ [Respond r]). split; [rewrite Hlog, Hl1, app_assoc; reflexivity|].
      right. exists sid, c, r. rewrite <- Aw. split; [exact Hk|]. split; [exact Hgone|].
      rewrite responses_app, Hr1. reflexivity. }
  destruct e as [tok sid0|sid0 act|sid0|sid0|k|k payload|k|k msg|h|i| |j ty sid0|j];
    cbn [step].
  - unfold postConnect. destruct tok as [t|].
    + destruct (truthy (Some t)); cbn [negb].
      * unfold connect.
        assert (unanswered w
                  (with_awaiting (insert (next (with_conns
                     (insert (next w) (newDiscordConnection t sid0)) (with_next S w)))
                     (sid0, next w))
                     (snd (connect (next w)
                        (with_conns (insert (next w) (newDiscordConnection t sid0))
                           (with_next S w)))))) as (l & Hl & Hr)
          by (silent; apply unanswered_connect; silent).
        exists l. split; [exact Hl|exact Hr].
      * eexists. split; [reflexivity|]. eexists. split; reflexivity.
    + eexists. split; [reflexivity|]. eexists. split; reflexivity.
  - unfold postUpdateStatus. destruct sid0 as [id|];
      [|apply (Hanswer {| statusCode := 400; body := _ |}), H].
    destruct (negb _); [apply (Hanswer {| statusCode := 400; body := _ |}), H|].
    destruct (activeConnections w !! id) as [c|];
      [|apply (Hanswer {| statusCode := 404; body := _ |}), H].
    pose proof (unanswered_updatePresence w c act w H) as Hup.
    destruct (updatePresence parseInt c act w) as [[] w1]; cbn [snd] in Hup.
    + apply (Hanswer {| statusCode := 200; body := _ |}), Hup.
    + apply (Hanswer {| statusCode := 500; body := _ |}), Hup.
  - unfold postDisconnect. destruct sid0 as [id|];
      [|apply (Hanswer {| statusCode := 400; body := _ |}), H].
    destruct (negb _); [apply (Hanswer {| statusCode := 400; body := _ |}), H|].
    destruct (activeConnections w !! id) as [c|];
      [|apply (Hanswer {| statusCode := 404; body := _ |}), H].
    apply (Hanswer {| statusCode := 200; body := _ |}).
    silent. apply unanswered_disconnect, H.
  - unfold getStatus. destruct (activeConnections w !! sid0) as [c|] eqn:Hc;
      [|apply (Hanswer {| statusCode := 200; body := _ |}), H].
    destruct (Hreg sid0 c Hc) as (cn & -> & _).
    apply (Hanswer {| statusCode := 200; body := _ |}), H.
  - exists []. split; [symmetry; apply app_nil_r|reflexivity].
  - destruct (sockets w !! k) as [s|]; [|exists []; split; [symmetry; apply app_nil_r|auto]].
    apply Hresume; [apply handleMessage_tables|apply unanswered_handleMessage, H].
  - destruct (sockets w !! k) as [s|]; [|exact H].
    apply unanswered_onClose. silent.
  - destruct (sockets w !! k) as [s|]; [|exists []; split; [symmetry; apply app_nil_r|auto]].
    apply Hresume.
    + destruct (settle_rest k (Rejected msg) (with_sockets (alter closing k) w))
        as (_ & _ & -> & _). reflexivity.
    + apply unanswered_settle. silent.
  - destruct (intervals w !! h) as [iv|]; [|exact H].
    destruct (kind iv); [apply unanswered_heartbeatTick, H|apply unanswered_keepAliveTick, H].
  - destruct (timeouts w !! i) as [[c ms]|]; [|exact H].
    apply unanswered_connect. silent.
  - change (unanswered w (clientConnection w)). unfold clientConnection. silent.
  - change (unanswered w (clientSays j ty sid0 w)). unfold clientSays.
    repeat case_match; silent.
  - change (unanswered w (clientClose j w)). unfold clientClose.
    repeat case_match; silent.
Qed.

End Answers.

(** ** Two sessions under one id *)

Section Collision.

Variable parseInt : option string -> JsNumber.

(** What the handling of a READY frame for the connection [c] leaves alone:
    the other connection objects and the sockets. *)
Lemma ready_elsewhere c k payload w cn :
  conns w !! c = Some cn -> p_op payload = 0 -> p_t payload = Some "READY" ->
  let w' := handleMessage parseInt c k payload w in
  (forall c0, c0 <> c -> conns w' !! c0 = conns w !! c0) /\
  sockets w' = sockets w /\ awaiting w' = awaiting w /\
  activeConnections w' = activeConnections w /\
  promises w' = settleMap k Fulfilled (promises w).
Proof.
  intros Hcn Hop Ht w'. subst w'. unfold handleMessage. rewrite Hop, Ht.
  fold (sequenced c payload w).
  assert (exists cn0, conns (sequenced c payload w) !! c = Some cn0) as [cn0 Hcn0].
  { unfold sequenced. destruct (truthyNumber _); [|eauto].
    simpl. rewrite lookup_alter_eq, Hcn. simpl. eauto. }
  assert ((forall c0, c0 <> c -> conns (sequenced c payload w) !! c0 = conns w !! c0) /\
          sockets (sequenced c payload w) = sockets w /\
          awaiting (sequenced c payload w) = awaiting w /\
          activeConnections (sequenced c payload w) = activeConnections w /\
          promises (sequenced c payload w) = promises w) as (C0 & S0 & A0 & R0 & P0).
  { unfold sequenced. destruct (truthyNumber _); repeat split; auto.
    intros c0 Hne. simpl. apply lookup_alter_ne. congruence. }
  rewrite Hcn0. simpl.
  set (w1 := notifyClient (sessionId cn0) discord_ready (sequenced c payload w)).
  set (w3 := settle k Fulfilled (startKeepAlive c w1)).
  assert ((forall c0, c0 <> c -> conns w3 !! c0 = conns w !! c0) /\
          sockets w3 = sockets w /\ awaiting w3 = awaiting w /\
          activeConnections w3 = activeConnections w /\
          promises w3 = settleMap k Fulfilled (promises w)) as (C3 & S3 & A3 & R3 & P3).
  { subst w3. rewrite settle_promises.
    destruct (settle_rest k Fulfilled (startKeepAlive c w1))
      as (-> & -> & -> & _ & -> & _).
    destruct (startKeepAlive_rest c w1) as (-> & -> & -> & _ & -> & _).
    subst w1. rewrite notifyClient_eq. simpl. rewrite S0, A0, R0, P0.
    repeat split. intros c0 Hne. rewrite <- (C0 c0 Hne).
    unfold startKeepAlive. simpl. rewrite Hcn0.
    destruct (keepAliveTask cn0); simpl; apply lookup_alter_ne; congruence. }
  clearbody w3.
  destruct (currentActivity cn0) as [a|]; [|repeat split; assumption].
  destruct (steady_updatePresence parseInt shouldReconnect c (Some a) w3)
    as (-> & -> & -> & _).
  repeat split; try assumption.
  - intros c0 Hne. rewrite <- (C3 c0 Hne). unfold updatePresence.
    repeat case_match; cbn [snd]; rewrite ?notifyClient_eq; simpl;
      apply lookup_alter_ne; congruence.
  - rewrite <- S3. unfold updatePresence.
    repeat case_match; cbn [snd]; rewrite ?notifyClient_eq; reflexivity.
Qed.

(** X27.  The registry does not check whether a session id is in use.  When
    the session being created under an id that is registered for another
    connection reaches READY, the id is given to the new connection and the
    request is answered with it; the earlier connection object and every
    socket are left as they were, so that connection stays as connected as it
    was while no id of the registry reaches it any more. *)
Theorem colliding_id_replaces_session (w : World) (k : nat) (s : WebSocket)
    (sid : string) (c0 : nat) (cn0 cn : DiscordConnection) (payload : Payload) :
  sockets w !! k = Some s -> awaiting w !! k = Some (sid, owner s) ->
  promises w !! k = Some Pending ->
  conns w !! owner s = Some cn ->
  activeConnections w !! sid = Some c0 -> c0 <> owner s -> conns w !! c0 = Some cn0 ->
  (forall sid', activeConnections w !! sid' = Some c0 -> sid' = sid) ->
  p_op payload = 0 -> p_t payload = Some "READY" ->
  let w' := step parseInt w (GatewayMessage k payload) in
  activeConnections w' = <[sid := owner s]> (activeConnections w) /\
  (forall sid', activeConnections w' !! sid' <> Some c0) /\
  conns w' !! c0 = Some cn0 /\ connected c0 w' = connected c0 w /\
  responses (drop (length (log w)) (log w')) =
    [{| statusCode := 200; body := ConnectBody sid "Connected to Discord Gateway" |}].
Proof.
  intros Hs Hk Hp Hcn Hreg Hne Hcn0 Honly Hop Ht w'.
  destruct (ready_elsewhere (owner s) k payload w cn Hcn Hop Ht)
    as (C & S & A & R & P).
  destruct (unanswered_handleMessage parseInt w (owner s) k payload w
              (unanswered_refl w)) as (l & Hl & Hr).
  set (w1 := handleMessage parseInt (owner s) k payload w) in *.
  assert (w' = respond 200 (ConnectBody sid "Connected to Discord Gateway")
                 (with_activeConnections (insert sid (owner s))
                    (with_awaiting (delete k) w1))) as ->.
  { subst w'. cbn [step]. rewrite Hs. fold w1. unfold resume.
    rewrite A, Hk, P. unfold settleMap. rewrite Hp, lookup_insert_eq. reflexivity. }
  clearbody w1. simpl. rewrite R.
  split; [reflexivity|]. split.
  - intros sid' H. destruct (decide (sid' = sid)) as [->|Hsid].
    + rewrite lookup_insert_eq in H. congruence.
    + rewrite lookup_insert_ne in H by congruence. apply Hsid, Honly, H.
  - split; [rewrite (C c0 Hne); exact Hcn0|]. split.
    + unfold connected, isOpen. simpl. rewrite (C c0 Hne), S. reflexivity.
    + rewrite Hl, <- app_assoc, drop_app_length, responses_app, Hr. reflexivity.
Qed.

End Collision.

Lemma colliding_id_replaces_session_witness :
  activeConnections (step parseDigits collidingWorld (GatewayMessage 5 (readyFrame 1))) =
    <["s1" := 4%nat]> (activeConnections collidingWorld) /\
  conns (step parseDigits collidingWorld (GatewayMessage 5 (readyFrame 1))) !! 0%nat =
    Some readyConnection.
Proof.
  destruct (colliding_id_replaces_session parseDigits collidingWorld 5%nat
              {| readyState := OPEN; owner := 4 |} "s1" 0%nat readyConnection
              collidingConnection (readyFrame 1))
    as (Hreg & _ & Hkept & _); try (vm_compute; reflexivity).
  - discriminate.
  - intros sid' H.
    assert (activeConnections collidingWorld = {["s1" := 0%nat]}) as E
      by (vm_compute; reflexivity).
    rewrite E in H. apply lookup_singleton_Some in H as [<- _]. reflexivity.
  - split; [exact Hreg|exact Hkept].
Defined.

(** ** Sample runs of the further properties *)

Lemma sessions_agree_with_status_witness :
  {| entryId := "s1"; entryConnected := connectedValue readyConnection readyWorld;
     entryActivity := None |} ∈ getSessions ["s1"] readyWorld.
Proof.
  destruct (sessions_agree_with_status parseDigits readyWorld ["s1"]) as [Hlisted _].
  destruct (Hlisted "s1" 0%nat readyConnection) as [Hin _];
    [apply list_elem_of_singleton; reflexivity|vm_compute; reflexivity
    |vm_compute; reflexivity|].
  exact Hin.
Defined.

Lemma registry_holds_sessions_witness :
  exists cn, conns readyWorld !! 0%nat = Some cn /\ sessionId cn = "s1".
Proof.
  destruct (registry_holds_sessions parseDigits
              [PostConnect (Some "tok") "s1"; GatewayOpen 1; GatewayMessage 1 helloFrame;
               GatewayMessage 1 (readyFrame 1)] "s1" 0%nat)
    as (cn & Hcn & Hsid & _); [vm_compute; reflexivity|].
  exists cn. split; [exact Hcn|exact Hsid].
Defined.

Lemma reconnect_off_is_final_witness :
  exists cn, conns (run parseDigits endedWorld
                      [GatewayClose 1; PostConnect (Some "tok2") "s2"; GatewayOpen 4])
               !! 0%nat = Some cn /\ shouldReconnect cn = false.
Proof.
  destruct (reconnect_off_is_final parseDigits
              [PostConnect (Some "tok") "s1"; GatewayOpen 1; GatewayMessage 1 helloFrame;
               GatewayMessage 1 (readyFrame 1); PostDisconnect (Some "s1")]
              [GatewayClose 1; PostConnect (Some "tok2") "s2"; GatewayOpen 4]
              0%nat endedConnection)
    as (cn & Hcn & _ & _ & Hoff); [vm_compute; reflexivity|].
  exists cn. split; [exact Hcn|exact (Hoff eq_refl)].
Defined.

Lemma frames_need_open_socket_witness : isOpen 1 readyWorld = true.
Proof.
  destruct (frames_need_open_socket parseDigits readyWorld (IntervalFires 2))
    as (l & Hl & Hsent).
  assert (log (step parseDigits readyWorld (IntervalFires 2)) =
            log readyWorld ++ [WsSend 1 {| op := 1; d := DSequence (Some 1) |}]) as E
    by (vm_compute; reflexivity).
  rewrite E in Hl. apply app_inv_head in Hl. subst l.
  destruct (Hsent 1%nat {| op := 1; d := DSequence (Some 1) |}) as [[H _]|[_ H]];
    [apply list_elem_of_singleton; reflexivity|discriminate H|exact H].
Defined.

Lemma requests_answered_once_witness :
  exists l, log (step parseDigits readyWorld (GetStatus "s1")) = log readyWorld ++ l /\
    exists l0 r, l = l0 ++ [Respond r] /\ responses l0 = [].
Proof.
  exact (requests_answered_once parseDigits
           [PostConnect (Some "tok") "s1"; GatewayOpen 1; GatewayMessage 1 helloFrame;
            GatewayMessage 1 (readyFrame 1)] (GetStatus "s1")).
Defined.

(** ** An activity applied while the session is not connected *)
















Section Waiting.

Variable parseInt : option string -> JsNumber.








End Waiting.

